(** * SVG emoji bundler scripts: text optimizer, data-URI encoder, bundler run

    Shallow embedding of the JavaScript sources
      - [src/ultra_optimized_svg_bundler.js]  (optimizeSVG, svgToDataUri,
        bundleEmojis, idFromFilename),
      - [src/unnamed/part_000]                (ultraOptimizeSVG, svgToDataUri),
      - [src/svg_utf8_bundler.js]             (svgToDataUri, bundleSVGEmojis).

    A JavaScript string is a sequence of UTF-16 code units; regular
    expressions without the [u] flag work on code units, so a string is a
    [list N] here.  The regular expressions of the scripts are values of an
    abstract syntax [regex], run by a backtracking matcher that follows the
    ECMAScript priorities (leftmost match, greedy and lazy quantifiers,
    capture groups, back-references, the [i] flag). *)

From Stdlib Require Import NArith ZArith Lia Bool String Ascii List
  Permutation.
Import ListNotations.

Set Implicit Arguments.

(* ================================================================== *)
(** ** Strings of code units *)
(* ================================================================== *)

Module JS.

Abbreviation cu := N (only parsing).
Abbreviation jsstring := (list N) (only parsing).

(** Code unit of an ASCII character, and the code units of an ASCII literal. *)
Definition ch (a : ascii) : cu := N_of_ascii a.
Definition str (s : string) : jsstring := map ch (list_ascii_of_string s).

Definition cu_eqb (a b : cu) : bool := N.eqb a b.

Local Open Scope N_scope.

Definition in_range (lo hi c : cu) : bool := (lo <=? c) && (c <=? hi).

(** [\s]: the ECMAScript WhiteSpace and LineTerminator code points; the same
    set is what [String.prototype.trim] strips. *)
Definition is_ws (c : cu) : bool :=
  in_range 9 13 c || cu_eqb c 32 || cu_eqb c 160 || cu_eqb c 5760
  || in_range 8192 8202 c || cu_eqb c 8232 || cu_eqb c 8233
  || cu_eqb c 8239 || cu_eqb c 8287 || cu_eqb c 12288 || cu_eqb c 65279.

(** [\d] *)
Definition is_digit (c : cu) : bool := in_range 48 57 c.

(** Line terminators, which [.] does not match. *)
Definition is_line_terminator (c : cu) : bool :=
  cu_eqb c 10 || cu_eqb c 13 || cu_eqb c 8232 || cu_eqb c 8233.

Definition ascii_upper (c : cu) : cu :=
  if in_range 97 122 c then c - 32 else c.
Definition ascii_lower (c : cu) : cu :=
  if in_range 65 90 c then c + 32 else c.

Local Close Scope N_scope.

(** [String.prototype.trim] *)
Fixpoint trimStart (s : jsstring) : jsstring :=
  match s with
  | c :: t => if is_ws c then trimStart t else s
  | [] => []
  end.
Definition trimEnd (s : jsstring) : jsstring := rev (trimStart (rev s)).
Definition trim (s : jsstring) : jsstring := trimEnd (trimStart s).

Fixpoint starts_with (p s : jsstring) : bool :=
  match p, s with
  | [], _ => true
  | a :: p', b :: s' => cu_eqb a b && starts_with p' s'
  | _ :: _, [] => false
  end.

(** [s.endsWith(p)] *)
Definition endsWith (s p : jsstring) : bool := starts_with (rev p) (rev s).

(** [s.includes(p)] *)
Fixpoint includes (s p : jsstring) : bool :=
  starts_with p s || match s with [] => false | _ :: t => includes t p end.

End JS.
Import JS.

(* ================================================================== *)
(** ** Regular expressions *)
(* ================================================================== *)

Module Regex.

(** Members of a character class. *)
Inductive citem :=
| CRange (lo hi : cu)     (* a-z, or one character when lo = hi *)
| CSpace                  (* \s *)
| CNonSpace               (* \S *)
| CDigit.                 (* \d *)

Inductive regex :=
| Eps
| Chr (c : cu)                        (* a literal character *)
| Dot                                 (* .  *)
| Cls (neg : bool) (items : list citem)   (* [...] and [^...] *)
| Seq (a b : regex)
| Alt (a b : regex)
| Star (greedy : bool) (a : regex)    (* a* and a*? *)
| Group (i : nat) (a : regex)         (* the i-th capturing group *)
| Backref (i : nat)                   (* \i *)
| Eol.                                (* $ without the m flag *)

(** Derived forms. *)
Definition Plus (greedy : bool) (a : regex) : regex := Seq a (Star greedy a).
Definition Opt (a : regex) : regex := Alt a Eps.
Fixpoint Lit (s : jsstring) : regex :=
  match s with
  | [] => Eps
  | [c] => Chr c
  | c :: t => Seq (Chr c) (Lit t)
  end.
Fixpoint Seqs (l : list regex) : regex :=
  match l with
  | [] => Eps
  | [a] => a
  | a :: t => Seq a (Seqs t)
  end.
(** a{3,} *)
Definition AtLeast3 (a : regex) : regex := Seq a (Seq a (Seq a (Star true a))).

Definition digit : regex := Cls false [CDigit].
Definition space : regex := Cls false [CSpace].
Definition any : regex := Cls false [CSpace; CNonSpace].   (* [\s\S] *)

(** Captures: the most recent binding of a group is the first in the list. *)
Abbreviation captures := (list (nat * list N)) (only parsing).

Fixpoint cap (i : nat) (cs : captures) : option jsstring :=
  match cs with
  | [] => None
  | (j, w) :: t => if Nat.eqb i j then Some w else cap i t
  end.

(** A capture that did not take part in the match reads as the empty string
    in a replacement. *)
Definition capd (i : nat) (cs : captures) : jsstring :=
  match cap i cs with Some w => w | None => [] end.

(** Canonicalize (non-unicode mode).  Every pattern character and class
    member of the scripts is ASCII or a white-space character, none of which
    is the upper-case form of a non-ASCII character, and the standard forbids
    a non-ASCII character to canonicalize to an ASCII one; on ASCII the
    function is upper-casing. *)
Definition canon (ic : bool) (c : cu) : cu := if ic then ascii_upper c else c.

Definition in_item (it : citem) (c : cu) : bool :=
  match it with
  | CRange lo hi => in_range lo hi c
  | CSpace => is_ws c
  | CNonSpace => negb (is_ws c)
  | CDigit => is_digit c
  end.

(** With the [i] flag a class contains [c] when it has a member with the
    canonical form of [c]. *)
Definition in_item_ic (ic : bool) (it : citem) (c : cu) : bool :=
  in_item it c
  || (ic && (in_item it (ascii_upper c) || in_item it (ascii_lower c))).

Definition in_class (ic neg : bool) (items : list citem) (c : cu) : bool :=
  xorb neg (existsb (fun it => in_item_ic ic it c) items).

(** Matcher state: the rest of the input and the captures so far. *)
Abbreviation mstate := (list N * list (nat * list N))%type (only parsing).

Fixpoint prefix_ic (ic : bool) (w s : jsstring) : option jsstring :=
  match w, s with
  | [], _ => Some s
  | a :: w', b :: s' =>
      if cu_eqb (canon ic a) (canon ic b) then prefix_ic ic w' s' else None
  | _ :: _, [] => None
  end.

(** The quantifier loop.  An iteration that consumes nothing is rejected
    (the standard's empty check), so every iteration shortens the input and
    [fuel] = length of the input is never exhausted before the input is. *)
Fixpoint star_loop (body : mstate -> list mstate) (greedy : bool)
         (fuel : nat) (st : mstate) : list mstate :=
  match fuel with
  | O => [st]
  | S n =>
      let more :=
        flat_map (fun st' =>
                    if Nat.ltb (length (fst st')) (length (fst st))
                    then star_loop body greedy n st' else [])
                 (body st) in
      if greedy then more ++ [st] else st :: more
  end.

(** All the ways [r] matches a prefix of the input, in the order the
    backtracking matcher of the standard tries them. *)
Fixpoint rmatch (ic : bool) (r : regex) (st : mstate) : list mstate :=
  match r with
  | Eps => [st]
  | Chr c =>
      match fst st with
      | x :: t => if cu_eqb (canon ic c) (canon ic x) then [(t, snd st)] else []
      | [] => []
      end
  | Dot =>
      match fst st with
      | x :: t => if is_line_terminator x then [] else [(t, snd st)]
      | [] => []
      end
  | Cls neg items =>
      match fst st with
      | x :: t => if in_class ic neg items x then [(t, snd st)] else []
      | [] => []
      end
  | Seq a b => flat_map (rmatch ic b) (rmatch ic a st)
  | Alt a b => rmatch ic a st ++ rmatch ic b st
  | Star g a => star_loop (rmatch ic a) g (length (fst st)) st
  | Group i a =>
      map (fun st' =>
             (fst st',
              (i, firstn (length (fst st) - length (fst st')) (fst st))
                :: snd st'))
          (rmatch ic a st)
  | Backref i =>
      match cap i (snd st) with
      | None => [st]
      | Some w =>
          match prefix_ic ic w (fst st) with
          | Some rest => [(rest, snd st)]
          | None => []
          end
      end
  | Eol => match fst st with [] => [st] | _ :: _ => [] end
  end.

(** The match of [r] that starts exactly at the head of [s]: the number of
    code units it covers and its captures. *)
Definition exec_at (ic : bool) (r : regex) (s : jsstring)
  : option (nat * captures) :=
  match rmatch ic r (s, []) with
  | [] => None
  | (rest, cs) :: _ => Some (length s - length rest, cs)
  end.

(** A replacement: a function of the matched text and the captures (a
    replacement string with [$1] is such a function). *)
Definition replacement := jsstring -> captures -> jsstring.

(** [s.replace(/r/g, f)]: scan left to right; at a match emit the
    replacement and resume after it (an empty match copies one code unit);
    elsewhere copy the code unit.  [skip] counts the code units of the
    current match still to be dropped. *)
Fixpoint replace_go (ic : bool) (r : regex) (f : replacement)
         (s : jsstring) (skip : nat) : jsstring :=
  match skip with
  | S k =>
      match s with
      | [] => []
      | _ :: t => replace_go ic r f t k
      end
  | O =>
      match exec_at ic r s with
      | Some (n, cs) =>
          f (firstn n s) cs ++
          match s with
          | [] => []
          | c :: t =>
              match n with
              | O => c :: replace_go ic r f t 0
              | S k => replace_go ic r f t k
              end
          end
      | None =>
          match s with
          | [] => []
          | c :: t => c :: replace_go ic r f t 0
          end
      end
  end.

Definition replace_all (ic : bool) (r : regex) (f : replacement)
           (s : jsstring) : jsstring :=
  replace_go ic r f s 0.

(** [s.replace(/r/, f)] without the [g] flag: the leftmost match only. *)
Fixpoint replace_first (ic : bool) (r : regex) (f : replacement)
         (s : jsstring) : jsstring :=
  match exec_at ic r s with
  | Some (n, cs) => f (firstn n s) cs ++ skipn n s
  | None =>
      match s with
      | [] => []
      | c :: t => c :: replace_first ic r f t
      end
  end.

(** Replacement by a fixed string without [$]. *)
Definition const (w : jsstring) : replacement := fun _ _ => w.

(** A replacement function of the script, called with the matched text and
    the captures; [None] when the call throws. *)
Definition callback := jsstring -> captures -> option jsstring.

(** [s.replace(/r/g, (match, ...) => ...)]: as [replace_go]; the call
    throws when a call of the function does. *)
Fixpoint replace_with_go (ic : bool) (r : regex) (f : callback)
         (s : jsstring) (skip : nat) : option jsstring :=
  match skip with
  | S k =>
      match s with
      | [] => Some []
      | _ :: t => replace_with_go ic r f t k
      end
  | O =>
      match exec_at ic r s with
      | Some (n, cs) =>
          match f (firstn n s) cs with
          | None => None
          | Some w =>
              option_map (app w)
                match s with
                | [] => Some []
                | c :: t =>
                    match n with
                    | O => option_map (cons c) (replace_with_go ic r f t 0)
                    | S k => replace_with_go ic r f t k
                    end
                end
          end
      | None =>
          match s with
          | [] => Some []
          | c :: t => option_map (cons c) (replace_with_go ic r f t 0)
          end
      end
  end.

Definition replace_with (ic : bool) (r : regex) (f : callback)
           (s : jsstring) : option jsstring :=
  replace_with_go ic r f s 0.

(** [regex.test(s)] for a regex without [^] or look-behind. *)
Fixpoint test (ic : bool) (r : regex) (s : jsstring) : bool :=
  match exec_at ic r s with
  | Some _ => true
  | None => match s with [] => false | _ :: t => test ic r t end
  end.

End Regex.
Import Regex.

(* ================================================================== *)
(** ** Numbers: parseFloat, parseInt, toFixed, toString *)
(* ================================================================== *)

Module Num.

Local Open Scope Z_scope.

(** A Number that the optimizer can meet: never negative, since a sign is
    not part of a match.  A finite double is the dyadic rational
    [m * 2^e]. *)
Inductive number :=
| Finite (m e : Z)
| Infinity
| NaN.

Definition digit_val (c : cu) : Z := Z.of_N c - 48.

(** Mathematical value of a string of decimal digits. *)
Definition dec_value (ds : jsstring) : Z :=
  fold_left (fun acc c => 10 * acc + digit_val c) ds 0.

(** floor and remainder of [n / (d * 2^e)], as [(q, r, den)] with
    [n / (d * 2^e) = q + r / den]. *)
Definition scaled_div (n d e : Z) : Z * Z * Z :=
  let num := if 0 <=? e then n else n * 2 ^ (- e) in
  let den := if 0 <=? e then d * 2 ^ e else d in
  (num / den, num mod den, den).

(** The binary64 value nearest to the rational [n / d] ([0 <= n], [0 < d]),
    ties to even: 53 bits of precision, least exponent -1074.  The rounded
    value [m * 2^e] has [m <= 2^53]; it overflows to Infinity when it
    reaches [2^1024], the largest double being [(2^53 - 1) * 2^971]. *)
Definition round64 (n d : Z) : number :=
  if n =? 0 then Finite 0 0 else
  let l := Z.log2 n - Z.log2 d in
  let e1 := l - 53 in
  let '(q1, _, _) := scaled_div n d e1 in
  let e2 := if 2 ^ 53 <=? q1 then e1 + 1 else e1 in
  let e := Z.max e2 (-1074) in
  let '(q, r, den) := scaled_div n d e in
  let up := (den <? 2 * r) || ((den =? 2 * r) && Z.odd q) in
  let m := if up then q + 1 else q in
  if (0 <=? e) && (2 ^ 1024 <=? m * 2 ^ e) then Infinity else Finite m e.

Definition takeWhile (p : cu -> bool) : jsstring -> jsstring :=
  fix go s := match s with
              | c :: t => if p c then c :: go t else []
              | [] => []
              end.
Definition dropWhile (p : cu -> bool) : jsstring -> jsstring :=
  fix go s := match s with
              | c :: t => if p c then go t else s
              | [] => []
              end.

(** [parseFloat] on an unsigned literal without exponent (digits, an
    optional dot, digits), which is all that [\d+\.\d{3,}] can pass to it:
    the longest such prefix is converted, with correct rounding as in V8. *)
Definition parseFloat (s : jsstring) : number :=
  let ip := takeWhile is_digit s in
  let rest := dropWhile is_digit s in
  let fp := match rest with
            | c :: t => if cu_eqb c (ch ".") then takeWhile is_digit t else []
            | [] => []
            end in
  match ip ++ fp with
  | [] => NaN
  | ds => round64 (dec_value ds) (10 ^ Z.of_nat (length fp))
  end.

(** [parseInt] on a string that starts with decimal digits (the captures of
    [(\d+)]). *)
Definition parseInt (s : jsstring) : number :=
  match takeWhile is_digit s with
  | [] => NaN
  | ds => round64 (dec_value ds) 1
  end.

(** Digits of a non-negative integer in a radix up to 16, lower case. *)
Definition digit_char (d : Z) : cu :=
  Z.to_N (if d <? 10 then 48 + d else 87 + d).

Fixpoint to_digits (radix : Z) (fuel : nat) (n : Z) (acc : jsstring)
  : jsstring :=
  match fuel with
  | O => acc
  | S f =>
      let acc' := digit_char (n mod radix) :: acc in
      if n <? radix then acc' else to_digits radix f (n / radix) acc'
  end.

Definition digits_of (radix n : Z) : jsstring :=
  to_digits radix (S (Z.to_nat (Z.log2 n))) n [].

Definition dec_string (n : Z) : jsstring := digits_of 10 n.

(** Comparison of a finite double with an integer. *)
Definition ge_int (m e k : Z) : bool :=
  if 0 <=? e then k <=? m * 2 ^ e else k * 2 ^ (- e) <=? m.

(** The integer value of a finite double that is an integer. *)
Definition int_value (m e : Z) : Z :=
  if 0 <=? e then m * 2 ^ e else m / 2 ^ (- e).

Definition num_eqb (x y : number) : bool :=
  match x, y with
  | Finite m e, Finite m' e' =>
      let k := Z.min e e' in
      m * 2 ^ (e - k) =? m' * 2 ^ (e' - k)
  | Infinity, Infinity => true
  | _, _ => false
  end.

(** Number::toString for an integer-valued double [X >= 10^21] with [nd]
    decimal digits: the least [k] for which a string of [k] digits, followed
    by zeros, is a decimal that rounds to [X]; the candidates are the first
    [k] digits of [X] ([lo]) and the next integer ([hi], which can carry to
    [10^k], a one followed by zeros); when both qualify, the one closer to
    [X], the even one on a tie.  The result is [(s, k)]: the decimal is
    [s * 10^(nd - k)]. *)
Fixpoint shortest (X nd : Z) (fuel : nat) (k : Z) : Z * Z :=
  match fuel with
  | O => (X, nd)
  | S f =>
      let p := 10 ^ (nd - k) in
      let lo := X / p in
      let hi := lo + 1 in
      let ok s := num_eqb (round64 (s * p) 1) (round64 X 1) in
      if ok lo && ok hi then
        (if X - lo * p <? hi * p - X then (lo, k)
         else if hi * p - X <? X - lo * p then (hi, k)
         else if Z.even lo then (lo, k) else (hi, k))
      else if ok lo then (lo, k)
      else if ok hi then (hi, k)
      else shortest X nd f (k + 1)
  end.

Definition strip_zeros (s : jsstring) : jsstring :=
  rev (dropWhile (fun c => cu_eqb c (ch "0")) (rev s)).

(** The digits of [s] without trailing zeros, a point after the first one,
    and the exponent: one less than the number of digits of the decimal
    [s * 10^(nd - k)]. *)
Definition toString_large (X : Z) : jsstring :=
  let nd := Z.of_nat (length (dec_string X)) in
  let '(s, k) := shortest X nd 17 1 in
  let n := Z.of_nat (length (dec_string s)) + (nd - k) in
  match strip_zeros (dec_string s) with
  | [] => str "0"
  | [d] => d :: str "e+" ++ dec_string (n - 1)
  | d :: ds => d :: ch "." :: ds ++ str "e+" ++ dec_string (n - 1)
  end.

Fixpoint repeat_cu (c : cu) (n : nat) : jsstring :=
  match n with O => [] | S k => c :: repeat_cu c k end.

(** [s.padStart(n, '0')] *)
Definition padStart0 (n : nat) (s : jsstring) : jsstring :=
  repeat_cu (ch "0") (n - length s) ++ s.

(** The integer [n] nearest to [x * 10^f], the larger one on a tie. *)
Definition nearest_scaled (f m e : Z) : Z :=
  if 0 <=? e then 10 ^ f * m * 2 ^ e
  else (2 * 10 ^ f * m + 2 ^ (- e)) / (2 * 2 ^ (- e)).

(** The digits of [x.toFixed(f)] for [0 <= f <= 100]. *)
Definition fixed (f : Z) (x : number) : jsstring :=
  match x with
  | NaN => str "NaN"
  | Infinity => str "Infinity"
  | Finite m e =>
      if ge_int m e (10 ^ 21) then toString_large (int_value m e)
      else
        let ds := padStart0 (S (Z.to_nat f)) (dec_string (nearest_scaled f m e)) in
        let k := (length ds - Z.to_nat f)%nat in
        if f =? 0 then ds else firstn k ds ++ ch "." :: skipn k ds
  end.

(** [x.toFixed(f)]; [None] is the RangeError for [f] outside 0..100. *)
Definition toFixed (f : Z) (x : number) : option jsstring :=
  if (f <? 0) || (100 <? f) then None else Some (fixed f x).

(** The digits of [x.toString(radix)] for an integer-valued Number (for
    radix 10 only below 10^21, where no exponent is printed). *)
Definition radix_digits (radix : Z) (x : number) : jsstring :=
  match x with
  | NaN => str "NaN"
  | Infinity => str "Infinity"
  | Finite m e => digits_of radix (int_value m e)
  end.

(** [x.toString(radix)]; [None] is the RangeError for a radix outside
    2..36. *)
Definition toString (radix : Z) (x : number) : option jsstring :=
  if (radix <? 2) || (36 <? radix) then None else Some (radix_digits radix x).

End Num.
Import Num.

(* ================================================================== *)
(** ** The regular expressions and rewrite steps shared by the scripts *)
(* ================================================================== *)

Module Steps.

(** In the comments that quote a regular expression of the source the
    double quote is written [\x22]. *)

Definition dq : cu := 34%N.    (* the double quote *)
Definition sq : cu := 39%N.    (* the single quote *)

Definition C (a : ascii) : regex := Chr (ch a).
Definition L (s : string) : regex := Lit (str s).
Definition notc (c : cu) : regex := Cls true [CRange c c].

Definition remove (ic : bool) (r : regex) : jsstring -> jsstring :=
  replace_all ic r (const []).

(** /<\?xml[^>]*\?>/g *)
Definition re_xml_decl : regex :=
  Seqs [L "<?xml"; Star true (notc (ch ">")); L "?>"].

(** /<!--[\s\S]*?-->/g *)
Definition re_comment : regex := Seqs [L "<!--"; Star false any; L "-->"].

(** /<metadata[\s\S]*?<\/metadata>/gi, and the same for title and desc *)
Definition re_element (name : string) : regex :=
  Seqs [C "<"; L name; Star false any; L "</"; L name; C ">"].

(** /\s*fill-opacity=\x221\x22/g and its like: optional white space, a name,
    [=\x22], a fixed value, [\x22] *)
Definition re_attr_value (name value : string) : regex :=
  Seqs [Star true space; L name; C "="; Chr dq; L value; Chr dq].

(** /(\d+\.\d{3,})/g *)
Definition re_decimal : regex :=
  Group 1 (Seqs [Plus true digit; C "."; AtLeast3 digit]).

(** const PRECISION = 2 *)
Definition PRECISION : Z := 2.

(** (match) => parseFloat(match).toFixed(PRECISION) *)
Definition round_decimal : callback :=
  fun m _ => toFixed PRECISION (parseFloat m).

Definition reduce_precision : jsstring -> option jsstring :=
  replace_with false re_decimal round_decimal.

(** /\s+/g, />\s+</g, /\s*=\s*/g *)
Definition re_spaces : regex := Plus true space.
Definition re_between_tags : regex := Seqs [C ">"; Plus true space; C "<"].
Definition re_equals : regex := Seqs [Star true space; C "="; Star true space].

Definition collapse_spaces : jsstring -> jsstring :=
  replace_all false re_spaces (const (str " ")).
Definition join_tags : jsstring -> jsstring :=
  replace_all false re_between_tags (const (str "><")).
Definition tighten_equals : jsstring -> jsstring :=
  replace_all false re_equals (const (str "=")).

(** /rgb\(\s*(\d+)\s*,\s*(\d+)\s*,\s*(\d+)\s*\)/gi *)
Definition re_rgb : regex :=
  Seqs [L "rgb("; Star true space; Group 1 (Plus true digit);
        Star true space; C ","; Star true space; Group 2 (Plus true digit);
        Star true space; C ","; Star true space; Group 3 (Plus true digit);
        Star true space; C ")"].

(** x => parseInt(x).toString(16).padStart(2, '0') *)
Definition hex2 (x : jsstring) : option jsstring :=
  option_map (padStart0 2) (toString 16 (parseInt x)).

(** [r, g, b].map(hex2).join('') *)
Fixpoint map_join (f : jsstring -> option jsstring) (l : list jsstring)
  : option jsstring :=
  match l with
  | [] => Some []
  | x :: t =>
      match f x with
      | None => None
      | Some w => option_map (app w) (map_join f t)
      end
  end.

(** (match, r, g, b) => '#' + [r, g, b].map(...).join('') *)
Definition rgb_to_hex : callback :=
  fun _ cs =>
    option_map (cons (ch "#"))
               (map_join hex2 [capd 1 cs; capd 2 cs; capd 3 cs]).

(** /#([0-9a-f])\1([0-9a-f])\2([0-9a-f])\3/gi, replaced by '#$1$2$3' *)
Definition hexdigit : regex :=
  Cls false [CRange (ch "0") (ch "9"); CRange (ch "a") (ch "f")].
Definition re_hex6 : regex :=
  Seqs [C "#"; Group 1 hexdigit; Backref 1; Group 2 hexdigit; Backref 2;
        Group 3 hexdigit; Backref 3].
Definition short_hex : replacement :=
  fun _ cs => ch "#" :: capd 1 cs ++ capd 2 cs ++ capd 3 cs.

Definition rgb_colors : jsstring -> option jsstring :=
  replace_with true re_rgb rgb_to_hex.
Definition shorten_hex : jsstring -> jsstring :=
  replace_all true re_hex6 short_hex.

Definition optimize_colors (s : jsstring) : option jsstring :=
  option_map shorten_hex (rgb_colors s).

(** Sequencing of steps that can throw. *)
Definition andThen {A B} (x : option A) (f : A -> option B) : option B :=
  match x with Some a => f a | None => None end.

End Steps.
Import Steps.

(* ================================================================== *)
(** ** src/ultra_optimized_svg_bundler.js *)
(* ================================================================== *)

Module Ultra.

(** /\s*xmlns:[^=]*=\x22[^\x22]*\x22/g *)
Definition re_xmlns : regex :=
  Seqs [Star true space; L "xmlns:"; Star true (notc (ch "="));
        C "="; Chr dq; Star true (notc dq); Chr dq].

(** /\s*xml:space=\x22[^\x22]*\x22/g and /\s*data-name=\x22[^\x22]*\x22/g *)
Definition re_attr (name : string) : regex :=
  Seqs [Star true space; L name; C "="; Chr dq; Star true (notc dq); Chr dq].

Definition step1 (s : jsstring) : jsstring :=
  remove true (re_element "desc")
    (remove true (re_element "title")
       (remove true (re_element "metadata")
          (remove false re_comment (remove false re_xml_decl s)))).

Definition step2 (s : jsstring) : jsstring :=
  remove false (re_attr "data-name")
    (remove false (re_attr "xml:space") (remove false re_xmlns s)).

Definition step3 : jsstring -> option jsstring := reduce_precision.

Definition step4 (s : jsstring) : jsstring :=
  trim (tighten_equals (join_tags (collapse_spaces s))).

Definition step5 : jsstring -> option jsstring := optimize_colors.

Definition step6 (s : jsstring) : jsstring :=
  remove false (re_attr_value "opacity" "1")
    (remove false (re_attr_value "stroke-opacity" "1")
       (remove false (re_attr_value "fill-opacity" "1") s)).

(** [None] when a replacement function throws. *)
Definition optimizeSVG (svgContent : jsstring) : option jsstring :=
  andThen (step3 (step2 (step1 svgContent))) (fun s3 =>
  andThen (step5 (step4 s3)) (fun s5 =>
  Some (step6 s5))).

End Ultra.

(* ================================================================== *)
(** ** src/unnamed/part_000 *)
(* ================================================================== *)

Module Part0.

(** /\s*xmlns:.*?=\x22.*?\x22/g *)
Definition re_xmlns : regex :=
  Seqs [Star true space; L "xmlns:"; Star false Dot; C "="; Chr dq;
        Star false Dot; Chr dq].

(** /\s*xml:space=\x22.*?\x22/g, /\s*data-name=\x22.*?\x22/g, /\s*id=\x22.*?\x22/g *)
Definition re_attr (name : string) : regex :=
  Seqs [Star true space; L name; C "="; Chr dq; Star false Dot; Chr dq].

(** /\s*([MLHVCSQTAZmlhvcsqtaz])\s*/g, replaced by '$1' *)
Definition is_command (c : cu) : bool :=
  existsb (cu_eqb c) (str "MLHVCSQTAZmlhvcsqtaz").
Definition command : regex :=
  Cls false (map (fun c => CRange c c) (str "MLHVCSQTAZmlhvcsqtaz")).
Definition re_command : regex :=
  Seqs [Star true space; Group 1 command; Star true space].

(** /\s*version='[^']*'/g, applied after the quotes were made single *)
Definition re_version : regex :=
  Seqs [Star true space; L "version="; Chr sq; Star true (notc sq); Chr sq].

(** /transform='translate\(0,?\s*0?\)'/g *)
Definition re_translate0 : regex :=
  Seqs [L "transform="; Chr sq; L "translate(0"; Opt (C ","); Star true space;
        Opt (C "0"); C ")"; Chr sq].

(** /<g[^>]*>\s*<\/g>/g *)
Definition re_empty_group : regex :=
  Seqs [L "<g"; Star true (notc (ch ">")); C ">"; Star true space; L "</g>"].

Definition step1 (s : jsstring) : jsstring :=
  remove false re_comment (remove false re_xml_decl s).

Definition step2 (s : jsstring) : jsstring :=
  remove true (re_element "desc")
    (remove true (re_element "title") (remove true (re_element "metadata") s)).

Definition step3 (s : jsstring) : jsstring :=
  remove false (re_attr "id")
    (remove false (re_attr "data-name")
       (remove false (re_attr "xml:space") (remove false re_xmlns s))).

Definition step4 : jsstring -> option jsstring := reduce_precision.

Definition step5 (s : jsstring) : jsstring :=
  tighten_equals
    (join_tags
       (collapse_spaces
          (replace_all false re_command (fun _ cs => capd 1 cs) s))).

Definition step6 : jsstring -> option jsstring := optimize_colors.

Definition step7 (s : jsstring) : jsstring :=
  remove false (re_attr_value "opacity" "1")
    (remove false (re_attr_value "stroke-opacity" "1")
       (remove false (re_attr_value "fill-opacity" "1")
          (remove false (re_attr_value "fill-rule" "nonzero") s))).

Definition step8 : jsstring -> jsstring :=
  replace_all false (Chr dq) (const [sq]).

Definition step9 : jsstring -> jsstring := trim.

(** const AGGRESSIVE_OPTIMIZE = true *)
Definition AGGRESSIVE_OPTIMIZE : bool := true.

Definition step10 (s : jsstring) : jsstring :=
  if AGGRESSIVE_OPTIMIZE then
    remove false re_empty_group
      (remove false re_translate0 (remove false re_version s))
  else s.

(** [None] when a replacement function throws. *)
Definition ultraOptimizeSVG (svgContent : jsstring) : option jsstring :=
  andThen (step4 (step3 (step2 (step1 svgContent)))) (fun s4 =>
  andThen (step6 (step5 s4)) (fun s6 =>
  Some (step10 (step9 (step8 (step7 s6)))))).

(** The escapes of svgToDataUri, in the order of the source. *)
Definition escape (c : ascii) (code : string) : jsstring -> jsstring :=
  replace_all false (C c) (const (str code)).

Definition encode (optimized : jsstring) : jsstring :=
  replace_all false space (const (str "%20"))
    (escape ">" "%3E"
       (escape "<" "%3C"
          (escape "#" "%23"
             (replace_all false (Chr sq) (const (str "%27"))
                (escape "%" "%25" optimized))))).

Definition prefix : jsstring := str "data:image/svg+xml;charset=utf-8,".

Definition svgToDataUri (svgContent : jsstring) : option jsstring :=
  option_map (fun optimized => prefix ++ encode optimized)
             (ultraOptimizeSVG svgContent).

End Part0.


(* ================================================================== *)
(** ** src/svg_utf8_bundler.js *)
(* ================================================================== *)

Module Utf8.

(** /<!--.*?-->/g *)
Definition re_comment_line : regex := Seqs [L "<!--"; Star false Dot; L "-->"].

Definition clean (svgContent : jsstring) : jsstring :=
  join_tags (remove false re_comment_line (collapse_spaces (trim svgContent))).

Definition encode (optimized : jsstring) : jsstring :=
  Part0.escape "%" "%25"
    (replace_all false (Chr 13%N) (const (str "%0D"))
       (replace_all false (Chr 10%N) (const (str "%0A"))
          (replace_all false (Chr dq) (const [sq])
             (Part0.escape "#" "%23" optimized)))).

Definition svgToDataUri (svgContent : jsstring) : jsstring :=
  Part0.prefix ++ encode (clean svgContent).

End Utf8.

(* ================================================================== *)
(** ** Percent-encoding: encodeURIComponent and decodeURIComponent *)
(* ================================================================== *)

Module URI.

Local Open Scope N_scope.

(** uriUnreserved: letters, digits and [-_.!~*'()] *)
Definition is_unreserved (c : cu) : bool :=
  in_range 97 122 c || in_range 65 90 c || in_range 48 57 c
  || existsb (cu_eqb c) (str "-_.!~*'()").

Definition hex_upper (d : N) : cu := if d <? 10 then 48 + d else 55 + d.

(** One octet as [%XX] with upper-case digits. *)
Definition pct (b : N) : jsstring :=
  [ch "%"; hex_upper (b / 16); hex_upper (b mod 16)].

(** The UTF-8 octets of a code point. *)
Definition utf8 (cp : N) : list N :=
  if cp <? 128 then [cp]
  else if cp <? 2048 then [192 + cp / 64; 128 + cp mod 64]
  else if cp <? 65536 then
    [224 + cp / 4096; 128 + (cp / 64) mod 64; 128 + cp mod 64]
  else
    [240 + cp / 262144; 128 + (cp / 4096) mod 64; 128 + (cp / 64) mod 64;
     128 + cp mod 64].

Definition is_high_surrogate (c : cu) : bool := in_range 55296 56319 c.
Definition is_low_surrogate (c : cu) : bool := in_range 56320 57343 c.

Definition pair_to_cp (hi lo : cu) : N := (hi - 55296) * 1024 + (lo - 56320) + 65536.

(** [encodeURIComponent]; [None] is the URIError thrown for a surrogate
    without its partner. *)
Fixpoint encodeURIComponent (s : jsstring) : option jsstring :=
  match s with
  | [] => Some []
  | c :: t =>
      if is_unreserved c then option_map (cons c) (encodeURIComponent t)
      else if is_low_surrogate c then None
      else if is_high_surrogate c then
        match t with
        | d :: t' =>
            if is_low_surrogate d
            then option_map (app (flat_map pct (utf8 (pair_to_cp c d))))
                            (encodeURIComponent t')
            else None
        | [] => None
        end
      else option_map (app (flat_map pct (utf8 c))) (encodeURIComponent t)
  end.

Definition hexval (c : cu) : option N :=
  if in_range 48 57 c then Some (c - 48)
  else if in_range 65 70 c then Some (c - 55)
  else if in_range 97 102 c then Some (c - 87)
  else None.

(** [%XX] at the head of the input: the octet and the rest. *)
Definition read_pct (s : jsstring) : option (N * jsstring) :=
  match s with
  | p :: h1 :: h2 :: t =>
      if cu_eqb p (ch "%") then
        match hexval h1, hexval h2 with
        | Some a, Some b => Some (16 * a + b, t)
        | _, _ => None
        end
      else None
  | _ => None
  end.

(** A continuation octet [10xxxxxx]: its six payload bits and the rest. *)
Definition read_cont (s : jsstring) : option (N * jsstring) :=
  match read_pct s with
  | Some (b, t) => if in_range 128 191 b then Some (b - 128, t) else None
  | None => None
  end.

(** The UTF-16 code units of a code point. *)
Definition utf16 (cp : N) : jsstring :=
  if cp <? 65536 then [cp]
  else [55296 + (cp - 65536) / 1024; 56320 + (cp - 65536) mod 1024].

(** [decodeURIComponent]; [None] is the URIError thrown for a malformed
    escape or an octet sequence that is not the UTF-8 form of a code point.
    Every escape shortens the input, so [fuel] = length of the input is
    enough. *)
Fixpoint decode_go (fuel : nat) (s : jsstring) : option jsstring :=
  match fuel with
  | O => match s with [] => Some [] | _ => None end
  | S f =>
      match s with
      | [] => Some []
      | c :: t =>
          if negb (cu_eqb c (ch "%")) then option_map (cons c) (decode_go f t)
          else
            match read_pct s with
            | None => None
            | Some (b, t1) =>
                if b <? 128 then option_map (cons b) (decode_go f t1)
                else if in_range 194 223 b then
                  match read_cont t1 with
                  | Some (x, t2) =>
                      option_map (app (utf16 ((b - 192) * 64 + x)))
                                 (decode_go f t2)
                  | None => None
                  end
                else if in_range 224 239 b then
                  match read_cont t1 with
                  | Some (x, t2) =>
                      match read_cont t2 with
                      | Some (y, t3) =>
                          let cp := (b - 224) * 4096 + x * 64 + y in
                          if (cp <? 2048) || in_range 55296 57343 cp then None
                          else option_map (app (utf16 cp)) (decode_go f t3)
                      | None => None
                      end
                  | None => None
                  end
                else if in_range 240 244 b then
                  match read_cont t1 with
                  | Some (x, t2) =>
                      match read_cont t2 with
                      | Some (y, t3) =>
                          match read_cont t3 with
                          | Some (z, t4) =>
                              let cp :=
                                (b - 240) * 262144 + x * 4096 + y * 64 + z in
                              if (cp <? 65536) || (1114111 <? cp) then None
                              else option_map (app (utf16 cp)) (decode_go f t4)
                          | None => None
                          end
                      | None => None
                      end
                  | None => None
                  end
                else None
            end
      end
  end.

Definition decodeURIComponent (s : jsstring) : option jsstring :=
  decode_go (length s) s.

(** The payload of a data URI: what follows
    [data:image/svg+xml;charset=utf-8,]. *)
Definition payload (uri : jsstring) : jsstring :=
  skipn (length Part0.prefix) uri.

(** Decoding a data URI: strip the prefix, reverse the percent-encoding. *)
Definition decode (uri : jsstring) : option jsstring :=
  if starts_with Part0.prefix uri then decodeURIComponent (payload uri)
  else None.

End URI.

(** [svgToDataUri] of src/ultra_optimized_svg_bundler.js; [None] when
    [encodeURIComponent] throws. *)
Definition Ultra_svgToDataUri (svgContent : jsstring) : option jsstring :=
  andThen (Ultra.optimizeSVG svgContent) (fun optimized =>
  option_map (app Part0.prefix) (URI.encodeURIComponent optimized)).

(* ================================================================== *)
(** ** build_emoji_sprite.js (second part of
       src/ultra_optimized_svg_bundler.js) *)
(* ================================================================== *)

Module Sprite.

(** /\.[^/.]+$/ *)
Definition re_extension : regex :=
  Seqs [C "."; Plus true (Cls true [CRange (ch "/") (ch "/");
                                    CRange (ch ".") (ch ".")]); Eol].

(** /[^a-zA-Z0-9_-]/g *)
Definition re_unsafe : regex :=
  Cls true [CRange (ch "a") (ch "z"); CRange (ch "A") (ch "Z");
            CRange (ch "0") (ch "9"); CRange (ch "_") (ch "_");
            CRange (ch "-") (ch "-")].

Definition idFromFilename (name : jsstring) : jsstring :=
  str "e_" ++
  replace_all false re_unsafe (const (str "_"))
    (replace_first false re_extension (const []) name).

End Sprite.

(* ================================================================== *)
(** ** The bundler runs: bundleEmojis and bundleSVGEmojis *)
(* ================================================================== *)

Module Bundler.

(** What a run sees of the file system.  [None] stands for a call that
    throws. *)
Record filesystem := {
  dir_exists : bool;                     (* fs.existsSync(SPRITE_DIR) *)
  dir_entries : option (list jsstring);  (* fs.readdirSync(SPRITE_DIR) *)
  file_content : jsstring -> option jsstring;
                                         (* fs.readFileSync(path, 'utf8') *)
  can_write : bool                       (* fs.writeFileSync(OUTPUT_FILE, _) *)
}.

Record stats := {
  processed : nat;
  errors : nat;
  originalSize : nat;
  optimizedSize : nat
}.

(** The object [emojiData]: its own properties in the order of their
    creation. *)
Definition object := list (jsstring * jsstring).

Fixpoint str_eqb (a b : jsstring) : bool :=
  match a, b with
  | [], [] => true
  | x :: a', y :: b' => cu_eqb x y && str_eqb a' b'
  | _, _ => false
  end.

Fixpoint obj_update (key v : jsstring) (o : object) : object :=
  match o with
  | [] => [(key, v)]
  | (k, w) :: t =>
      if str_eqb k key then (k, v) :: t else (k, w) :: obj_update key v t
  end.

(** [emojiData[key] = v] for a string [v].  The object was created by [{}],
    so the key [__proto__] reaches the setter of Object.prototype, which
    ignores a value that is not an object: no property is created. *)
Definition obj_set (key v : jsstring) (o : object) : object :=
  if str_eqb key (str "__proto__") then o else obj_update key v o.

(** The property names in the order of their creation. *)
Definition created (o : object) : list jsstring := map fst o.

(** An array index: the canonical decimal form of an integer below
    [2^32 - 1] (no leading zero, except for [0] itself). *)
Definition array_index (key : jsstring) : option Z :=
  match key with
  | [] => None
  | c :: t =>
      if forallb is_digit key
         && (negb (cu_eqb c (ch "0")) || match t with [] => true | _ => false end)
         && (dec_value key <? 2 ^ 32 - 1)%Z
      then Some (dec_value key)
      else None
  end.

Definition is_index (key : jsstring) : bool :=
  match array_index key with Some _ => true | None => false end.

Fixpoint insert_index (key : jsstring) (l : list jsstring) : list jsstring :=
  match l with
  | [] => [key]
  | y :: t =>
      if (dec_value key <=? dec_value y)%Z then key :: l
      else y :: insert_index key t
  end.

(** [Object.keys(o)], which is also the order of [Object.entries(o)] and of
    [JSON.stringify(o)]: the array indices first, in ascending numeric
    order, then the other names in the order of their creation. *)
Definition enumerate (names : list jsstring) : list jsstring :=
  fold_right insert_index [] (filter is_index names)
  ++ filter (fun key => negb (is_index key)) names.

Definition keys (o : object) : list jsstring := enumerate (created o).

(** [file.toLowerCase()].  Only the [.svg] suffix test reads the result;
    the lower-case form of a code unit outside ASCII is never one of the
    characters [.], [s], [v], [g], and such code units are left as they
    are. *)
Definition toLowerCase (s : jsstring) : jsstring := map ascii_lower s.

(** file => file.toLowerCase().endsWith('.svg') *)
Definition is_svg (file : jsstring) : bool :=
  endsWith (toLowerCase file) (str ".svg").

(** The default order of [Array.prototype.sort]: code units, left to
    right. *)
Fixpoint str_leb (a b : jsstring) : bool :=
  match a, b with
  | [], _ => true
  | _ :: _, [] => false
  | x :: a', y :: b' => N.ltb x y || (N.eqb x y && str_leb a' b')
  end.

Fixpoint insert_sorted (x : jsstring) (l : list jsstring) : list jsstring :=
  match l with
  | [] => [x]
  | y :: t => if str_leb x y then x :: l else y :: insert_sorted x t
  end.

Definition sort (l : list jsstring) : list jsstring :=
  fold_right insert_sorted [] l.

(** [path.basename(file, ext)] for a directory entry (a name without
    slash): the name without [ext] when it ends with it, nothing when it is
    [ext] itself. *)
Definition basename (file ext : jsstring) : jsstring :=
  if str_eqb file ext then []
  else if endsWith file ext then firstn (length file - length ext) file
  else file.

(** The slices [files.slice(i, i + size)] for i = 0, size, 2 size, ... *)
Fixpoint batches (size : nat) (fuel : nat) (files : list jsstring)
  : list (list jsstring) :=
  match fuel with
  | O => []
  | S f =>
      match files with
      | [] => []
      | _ :: _ => firstn size files :: batches size f (skipn size files)
      end
  end.

Section Run.

(** The two scripts differ in BATCH_SIZE and in svgToDataUri ([None] when it
    throws). *)
Variable BATCH_SIZE : nat.
Variable svgToDataUri : jsstring -> option jsstring.
Variable fsys : filesystem.

(** The body of the inner loop: the [try] block and its [catch]. *)
Definition process_file (acc : object * stats) (file : jsstring)
  : object * stats :=
  let '(emojiData, st) := acc in
  match file_content fsys file with
  | Some content =>
      match svgToDataUri content with
      | Some dataUri =>
          (obj_set (basename file (str ".svg")) dataUri emojiData,
           {| processed := S (processed st);
              errors := errors st;
              originalSize := originalSize st + length content;
              optimizedSize := optimizedSize st + length dataUri |})
      | None =>
          (emojiData,
           {| processed := processed st; errors := S (errors st);
              originalSize := originalSize st;
              optimizedSize := optimizedSize st |})
      end
  | None =>
      (emojiData,
       {| processed := processed st; errors := S (errors st);
          originalSize := originalSize st;
          optimizedSize := optimizedSize st |})
  end.

Definition process_batch (acc : object * stats) (batch : list jsstring)
  : object * stats :=
  fold_left process_file batch acc.

Definition process_all (files : list jsstring) : object * stats :=
  fold_left process_batch (batches BATCH_SIZE (length files) files)
            ([], {| processed := 0; errors := 0; originalSize := 0;
                    optimizedSize := 0 |}).

(** How a run ends: the exit status of the process and what was written to
    OUTPUT_FILE (the arguments of the output generator), if anything. *)
Record outcome := {
  exit_status : Z;
  output_file : option (object * stats)
}.

Definition fatal : outcome := {| exit_status := 1; output_file := None |}.

Definition svg_files (entries : list jsstring) : list jsstring :=
  sort (filter is_svg entries).

Definition run : outcome :=
  if negb (dir_exists fsys) then fatal              (* process.exit(1) *)
  else
    match dir_entries fsys with
    | None => fatal                                 (* .catch: process.exit(1) *)
    | Some entries =>
        let files := svg_files entries in
        match files with
        | [] => fatal                               (* process.exit(1) *)
        | _ :: _ =>
            let result := process_all files in
            if can_write fsys
            then {| exit_status := 0; output_file := Some result |}
            else fatal                              (* .catch: process.exit(1) *)
        end
    end.

(** A file fails when reading it or encoding its content throws. *)
Definition fails (file : jsstring) : bool :=
  match file_content fsys file with
  | Some content =>
      match svgToDataUri content with Some _ => false | None => true end
  | None => true
  end.

End Run.

(** src/ultra_optimized_svg_bundler.js, BATCH_SIZE = 200 *)
Definition bundleEmojis : filesystem -> outcome := run 200 Ultra_svgToDataUri.

(** src/svg_utf8_bundler.js, BATCH_SIZE = 100 *)
Definition bundleSVGEmojis : filesystem -> outcome :=
  run 100 (fun svgContent => Some (Utf8.svgToDataUri svgContent)).

End Bundler.

(* ================================================================== *)
(** ** Auxiliary definitions for the statements and proofs *)
(* ================================================================== *)

(** The regexes that match exactly one code unit, with their test. *)
Definition one_char (ic : bool) (r : regex) : option (cu -> bool) :=
  match r with
  | Chr c => Some (fun x => cu_eqb (canon ic c) (canon ic x))
  | Dot => Some (fun x => negb (is_line_terminator x))
  | Cls neg items => Some (in_class ic neg items)
  | _ => None
  end.


(** What the replacement functions of the optimizers return (they never
    throw: PRECISION and the radix 16 are in range). *)
Definition round_decimal_value : replacement :=
  fun m _ => fixed PRECISION (parseFloat m).

Definition hex2_value (x : jsstring) : jsstring :=
  padStart0 2 (radix_digits 16 (parseInt x)).

Definition rgb_to_hex_value : replacement :=
  fun _ cs =>
    ch "#" :: hex2_value (capd 1 cs) ++ hex2_value (capd 2 cs)
           ++ hex2_value (capd 3 cs) ++ [].

(** The escape sequence that the encoder of part_000 produces for one code
    unit. *)
Definition escape1 (c : cu) : jsstring :=
  if cu_eqb c (ch "%") then str "%25"
  else if cu_eqb c sq then str "%27"
  else if cu_eqb c (ch "#") then str "%23"
  else if cu_eqb c (ch "<") then str "%3C"
  else if cu_eqb c (ch ">") then str "%3E"
  else if is_ws c then str "%20"
  else [c].

(** The code units that a data-URI payload must not contain raw. *)
Definition payload_safe (c : cu) : Prop :=
  is_ws c = false /\ c <> ch "<" /\ c <> ch ">" /\ c <> ch "#"
  /\ c <> sq /\ c <> dq.

(** Every white-space code unit is the plain space. *)
Definition plain_space (c : cu) : Prop := is_ws c = true -> c = ch " ".

(** A file name that ends in [.svg], in any mix of upper and lower case. *)
Definition svg_suffix_ci (name : jsstring) : Prop :=
  exists base e1 e2 e3,
    name = base ++ [ch "."; e1; e2; e3] /\
    (e1 = ch "s" \/ e1 = ch "S") /\
    (e2 = ch "v" \/ e2 = ch "V") /\
    (e3 = ch "g" \/ e3 = ch "G").

(** The key under which a file is stored in the bundle. *)
Definition key_of (file : jsstring) : jsstring :=
  Bundler.basename file (str ".svg").

(** What a run with failing files comes to: exit status 0, the bundle and
    the counters written, one error per failed file, and keys only for files
    that succeeded: one key each when these keys are distinct and none is
    [__proto__], listed as an object lists its properties. *)
Definition recovers (BATCH_SIZE : nat)
           (svgToDataUri : jsstring -> option jsstring)
           (fsys : Bundler.filesystem) (entries : list jsstring) : Prop :=
  let files := Bundler.svg_files entries in
  let failed := Bundler.fails svgToDataUri fsys in
  let ok := filter (fun f => negb (failed f)) files in
  exists bundle st,
    Bundler.run BATCH_SIZE svgToDataUri fsys =
      {| Bundler.exit_status := 0;
         Bundler.output_file := Some (bundle, st) |} /\
    Bundler.errors st = length (filter failed files) /\
    Bundler.processed st = length ok /\
    Bundler.errors st + Bundler.processed st = length files /\
    (forall k, In k (Bundler.keys bundle) -> In k (map key_of ok)) /\
    (NoDup (map key_of ok) ->
     ~ In (str "__proto__") (map key_of ok) ->
     Permutation (Bundler.keys bundle) (map key_of ok) /\
     Bundler.keys bundle = Bundler.enumerate (map key_of ok)).

(** A directory for the examples: the listed names, each with the content
    given for it, unreadable when there is none. *)
Definition directory (files : list (jsstring * option jsstring))
  : Bundler.filesystem :=
  {| Bundler.dir_exists := true;
     Bundler.dir_entries := Some (map fst files);
     Bundler.file_content := fun name =>
       match find (fun p => Bundler.str_eqb (fst p) name) files with
       | Some (_, content) => content
       | None => None
       end;
     Bundler.can_write := true |}.

(** The rests of the input that a greedy [a*] over a one-character [a] with
    test [p] leaves, longest match first. *)
Fixpoint run_suffixes (p : cu -> bool) (s : jsstring) : list jsstring :=
  match s with
  | [] => [[]]
  | c :: t => if p c then run_suffixes p t ++ [s] else [s]
  end.

(** The same for the lazy [a*?]: shortest match first. *)
Fixpoint lazy_suffixes (p : cu -> bool) (s : jsstring) : list jsstring :=
  s :: match s with
       | [] => []
       | c :: t => if p c then lazy_suffixes p t else []
       end.

(** *** Symbol ids, in the words of the specification *)

(** The characters [a-zA-Z0-9_-]. *)
Definition id_char (c : cu) : bool :=
  in_range (ch "a") (ch "z") c || in_range (ch "A") (ch "Z") c
  || in_range (ch "0") (ch "9") c || cu_eqb c (ch "_") || cu_eqb c (ch "-").

(** Every character outside [a-zA-Z0-9_-] replaced by [_]. *)
Definition sanitize (c : cu) : cu := if id_char c then c else ch "_".

(** The name split at its last dot: what is before, what is after. *)
Fixpoint split_last_dot (s : jsstring) : option (jsstring * jsstring) :=
  match s with
  | [] => None
  | c :: t =>
      match split_last_dot t with
      | Some (b, e) => Some (c :: b, e)
      | None => if cu_eqb c (ch ".") then Some ([], t) else None
      end
  end.

Definition no_slash (s : jsstring) : bool :=
  forallb (fun c => negb (cu_eqb c (ch "/"))) s.

(** The file name with its extension removed: the extension is what
    follows the last dot, when that is not empty and has no slash. *)
Definition remove_extension (name : jsstring) : jsstring :=
  match split_last_dot name with
  | Some (base, ext) =>
      match ext with
      | [] => name
      | _ :: _ => if no_slash ext then base else name
      end
  | None => name
  end.

(** The class [^/.] *)
Definition ext_char (c : cu) : bool :=
  in_class false true [CRange (ch "/") (ch "/"); CRange (ch ".") (ch ".")] c.

Definition no_dot (s : jsstring) : bool :=
  forallb (fun c => negb (cu_eqb c (ch "."))) s.

(** What decoding makes of a code unit escaped by [escape1]: white space
    comes back as the plain space. *)
Definition unescaped (c : cu) : cu := if is_ws c then ch " " else c.

(** A JavaScript string is made of 16-bit code units. *)
Definition code_units (s : jsstring) : Prop := Forall (fun c => (c < 65536)%N) s.

(** *** Decimal literals *)

Definition all_digits (s : jsstring) : bool := forallb is_digit s.

Definition starts_with_digit (s : jsstring) : bool :=
  match s with
  | c :: _ => is_digit c
  | [] => false
  end.

Definition head_is (p : cu -> bool) (s : jsstring) : bool :=
  match s with
  | c :: _ => p c
  | [] => false
  end.

(** *** Colors *)

(** The digits [0-9a-fA-F]. *)
Definition is_hex_digit (c : cu) : bool :=
  in_range (ch "0") (ch "9") c || in_range (ch "a") (ch "f") c
  || in_range (ch "A") (ch "F") c.

(** Two characters that are equal up to the case of letters. *)
Definition same_digit (a b : cu) : bool :=
  cu_eqb (ascii_upper a) (ascii_upper b).


(** rgb(r,g,b) written without spaces. *)
Definition rgb_literal (rs gs bs : jsstring) : jsstring :=
  str "rgb(" ++ rs ++ ch "," :: gs ++ ch "," :: bs ++ str ")".
(* ================================================================== *)
(** ** Further functions of the scripts *)
(* ================================================================== *)

Unset Implicit Arguments.

(** *** Reading the bundle *)

(** The same file system with the directory listed in another order. *)
Definition relist (fsys : Bundler.filesystem) (entries : list jsstring)
  : Bundler.filesystem :=
  {| Bundler.dir_exists := Bundler.dir_exists fsys;
     Bundler.dir_entries := Some entries;
     Bundler.file_content := Bundler.file_content fsys;
     Bundler.can_write := Bundler.can_write fsys |}.

(** [emojiData[key]] for an own property. *)
Definition obj_get (key : jsstring) (o : Bundler.object) : option jsstring :=
  match find (fun p => Bundler.str_eqb (fst p) key) o with
  | Some (_, v) => Some v
  | None => None
  end.

(** The data URI of the last file with key [k] that was read and encoded,
    in the order the loop visits the files. *)
Definition last_uri (svgToDataUri : jsstring -> option jsstring)
           (fsys : Bundler.filesystem) (k : jsstring)
           (files : list jsstring) : option jsstring :=
  fold_left
    (fun acc file =>
       match Bundler.file_content fsys file with
       | Some content =>
           match svgToDataUri content with
           | Some dataUri =>
               if Bundler.str_eqb (key_of file) k then Some dataUri else acc
           | None => acc
           end
       | None => acc
       end)
    files None.

(** The lengths of the content and of the data URI of a file, when both
    exist. *)
Definition sizes_of (svgToDataUri : jsstring -> option jsstring)
           (fsys : Bundler.filesystem) (file : jsstring) : nat * nat :=
  match Bundler.file_content fsys file with
  | Some content =>
      match svgToDataUri content with
      | Some dataUri => (length content, length dataUri)
      | None => (0, 0)
      end
  | None => (0, 0)
  end.

Definition sum (l : list nat) : nat := fold_right Nat.add 0 l.

(** *** escapeForJS of src/ultra_optimized_svg_bundler.js *)

Definition backslash : cu := 92%N.
Definition backtick : cu := 96%N.
Definition dollar : cu := 36%N.

(** str.replace(/\\/g, '\\\\').replace(/`/g, '\\`').replace(/\$/g, '\\$') *)
Definition escapeForJS (s : jsstring) : jsstring :=
  replace_all false (Chr dollar) (const [backslash; dollar])
    (replace_all false (Chr backtick) (const [backslash; backtick])
       (replace_all false (Chr backslash) (const [backslash; backslash]) s)).

(** The escape that escapeForJS writes for one code unit. *)
Definition escape_js1 (c : cu) : jsstring :=
  if cu_eqb c backslash || cu_eqb c backtick || cu_eqb c dollar
  then [backslash; c] else [c].

(** generateOutput puts the escaped URI between backticks.  The value of
    the template literal whose text between the backticks is [s]: [\\], [\`]
    and [\$] stand for the second character, a raw CR or CR LF is a line
    feed, everything else stands for itself.  [None] when [s] is not the
    text of one literal without substitution (a raw backtick ends the
    literal, [${] opens a substitution) or has another escape sequence,
    which escapeForJS never writes. *)
Fixpoint template_value (s : jsstring) : option jsstring :=
  match s with
  | [] => Some []
  | c :: t =>
      if cu_eqb c backslash then
        match t with
        | d :: t' =>
            if cu_eqb d backslash || cu_eqb d backtick || cu_eqb d dollar
            then option_map (cons d) (template_value t')
            else None
        | [] => None
        end
      else if cu_eqb c backtick then None
      else if cu_eqb c dollar then
        match t with
        | d :: _ =>
            if cu_eqb d (ch "{") then None
            else option_map (cons c) (template_value t)
        | [] => Some [c]
        end
      else if cu_eqb c 13%N then
        match t with
        | d :: t' =>
            if cu_eqb d 10%N then option_map (cons 10%N) (template_value t')
            else option_map (cons 10%N) (template_value t)
        | [] => Some [10%N]
        end
      else option_map (cons c) (template_value t)
  end.

(** The code units of a URI made by encodeURIComponent: the unreserved
    characters and the percent sign (the hex digits are unreserved). *)
Definition uri_char (c : cu) : bool :=
  URI.is_unreserved c || cu_eqb c (ch "%").

(** The prefix has, besides unreserved characters, the colon, the slash,
    the plus sign, the semicolon, the equals sign and the comma. *)
Definition data_uri_char (c : cu) : bool :=
  uri_char c || existsb (cu_eqb c) (str ":/+;=,").

(** *** svgToDataUriEncoded of src/svg_utf8_bundler.js *)

(** The same cleaning as svgToDataUri, then encodeURIComponent; [None] when
    that throws. *)
Definition Utf8_svgToDataUriEncoded (svgContent : jsstring)
  : option jsstring :=
  option_map (app Part0.prefix)
             (URI.encodeURIComponent (Utf8.clean svgContent)).

(** What svgToDataUri of src/svg_utf8_bundler.js writes for one code unit
    of the cleaned markup, and what decoding makes of that. *)
Definition utf8_escape1 (c : cu) : jsstring :=
  if cu_eqb c (ch "#") then str "%2523"
  else if cu_eqb c dq then [sq]
  else if cu_eqb c 10%N then str "%250A"
  else if cu_eqb c 13%N then str "%250D"
  else if cu_eqb c (ch "%") then str "%25"
  else [c].

Definition utf8_residue (c : cu) : jsstring :=
  if cu_eqb c (ch "#") then str "%23"
  else if cu_eqb c dq then [sq]
  else if cu_eqb c 10%N then str "%0A"
  else if cu_eqb c 13%N then str "%0D"
  else [c].

(** *** Decimal literals, again *)

(** A point followed by three digits or more: what \.\d{3,} needs. *)
Definition decimal_tail (s : jsstring) : bool :=
  match s with
  | c :: d1 :: d2 :: d3 :: _ =>
      cu_eqb (ch ".") c && is_digit d1 && is_digit d2 && is_digit d3
  | _ => false
  end.

(** The first code unit is a digit or a point. *)
Definition starts_numeric (s : jsstring) : bool :=
  head_is (fun c => is_digit c || cu_eqb (ch ".") c) s.

(** *** The helper getEmojiDataUrl of the generated file *)

(** [s.replace(/^r/, f)]: with [^] and without the [m] flag a match can
    only start at the first code unit. *)
Definition replace_at_start (ic : bool) (r : regex) (f : replacement)
           (s : jsstring) : jsstring :=
  match exec_at ic r s with
  | Some (n, cs) => f (firstn n s) cs ++ skipn n s
  | None => s
  end.

(** After [^]: sprite[\/] in the file that generateOutput of
    src/ultra_optimized_svg_bundler.js writes (the template literal turns
    the two backslashes of the source into one, which escapes the slash in
    the class), and sprite\/ in the file of src/unnamed/part_000. *)
Definition re_sprite_class : regex :=
  Seq (L "sprite") (Cls false [CRange (ch "/") (ch "/")]).
Definition re_sprite_slash : regex := L "sprite/".

(** /\.svg$/ and /\.png$/ *)
Definition re_suffix (ext : string) : regex := Seq (L ext) Eol.

(** The key that getEmojiDataUrl looks up:
    pathOrKey.replace(/^sprite.../, '').replace(/\.svg$/, '')
             .replace(/\.png$/, '') *)
Definition emoji_key (re_sprite : regex) (pathOrKey : jsstring) : jsstring :=
  replace_first false (re_suffix ".png") (const [])
    (replace_first false (re_suffix ".svg") (const [])
       (replace_at_start false re_sprite (const []) pathOrKey)).

(** The string without the suffix, when it ends with it. *)
Definition strip_suffix (ext s : jsstring) : jsstring :=
  if endsWith s ext then firstn (length s - length ext) s else s.

(** [s.replace(p, w)] for a string [p] and a string [w] without [$]: the
    first occurrence of [p] is replaced. *)
Fixpoint replace_string (p w s : jsstring) : jsstring :=
  if starts_with p s then w ++ skipn (length p) s
  else match s with
       | [] => []
       | c :: t => c :: replace_string p w t
       end.

(** The key in the file written by generateOutputFile of
    src/svg_utf8_bundler.js:
    pathOrKey.replace('sprite/', '').replace('.svg', '').replace('.png', '') *)
Definition Utf8_emoji_key (pathOrKey : jsstring) : jsstring :=
  replace_string (str ".png") []
    (replace_string (str ".svg") []
       (replace_string (str "sprite/") [] pathOrKey)).

(** *** Escaping in generateOutputFile *)

(** value.replace(/'/g, [\x22]\\'[\x22]) of src/svg_utf8_bundler.js: a
    backslash before every single quote. *)
Definition Utf8_escape_quotes (value : jsstring) : jsstring :=
  replace_all false (Chr sq) (const [backslash; sq]) value.

(** value.replace(/\\\\/g, '\\\\').replace(/'/g, [\x22]\\\\'[\x22]) of
    src/unnamed/part_000, inside the substitution of the template literal:
    the regex matches two backslashes and writes two, and a single quote
    gets two backslashes before it. *)
Definition Part0_escape_quotes (value : jsstring) : jsstring :=
  replace_all false (Chr sq) (const [backslash; backslash; sq])
    (replace_all false (Seq (Chr backslash) (Chr backslash))
       (const [backslash; backslash]) value).

(** The value of the string literal whose text between the single quotes
    is [s], for the escapes [\'] and [\\]; [None] when [s] is not the text
    of one literal (a raw single quote ends it, a raw line feed or carriage
    return is a syntax error) or has another escape sequence. *)
Fixpoint single_quoted_value (s : jsstring) : option jsstring :=
  match s with
  | [] => Some []
  | c :: t =>
      if cu_eqb c backslash then
        match t with
        | d :: t' =>
            if cu_eqb d sq || cu_eqb d backslash
            then option_map (cons d) (single_quoted_value t')
            else None
        | [] => None
        end
      else if cu_eqb c sq || cu_eqb c 10%N || cu_eqb c 13%N then None
      else option_map (cons c) (single_quoted_value t)
  end.

(** *** White space, in the words of the comments *)

(** Every run of white space replaced by one space; [in_run] tells that the
    code unit before was white space. *)
Fixpoint squeeze (in_run : bool) (s : jsstring) : jsstring :=
  match s with
  | [] => []
  | c :: t =>
      if is_ws c then (if in_run then squeeze true t
                       else ch " " :: squeeze true t)
      else c :: squeeze false t
  end.

(** No two white-space code units in a row. *)
Fixpoint single_spaced (s : jsstring) : bool :=
  match s with
  | c :: t => negb (is_ws c && head_is is_ws t) && single_spaced t
  | [] => true
  end.

(** *** bundleEmojis of src/unnamed/part_000 *)

Module Part0Run.

(** stats.largestReduction: [{ file: '', savings: 0 }] at first, without
    [percent]. *)
Record reduction := {
  file : jsstring;
  savings : Z;
  percent : option jsstring
}.

Record stats := {
  processed : nat;
  errors : nat;
  originalSize : Z;
  optimizedSize : Z;
  largestReduction : reduction
}.

(** The product of an integer and a Number that is not negative. *)
Definition times (k : Z) (x : number) : number :=
  match x with
  | Finite m e =>
      if (0 <=? e)%Z then round64 (k * m * 2 ^ e) 1
      else round64 (k * m) (2 ^ (- e))
  | _ => x
  end.

(** (savings / originalBytes * 100).toFixed(1).  The script computes it
    for every file and keeps it only when [savings] is positive, and then
    [originalBytes] is positive too. *)
Definition savingsPercent (savings originalBytes : Z) : jsstring :=
  fixed 1 (times 100 (round64 savings originalBytes)).

Definition BATCH_SIZE : nat := 200.

Section Run.

Variable fsys : Bundler.filesystem.

(** The body of the inner loop: the [try] block and its [catch]. *)
Definition process_file (acc : Bundler.object * stats) (file : jsstring)
  : Bundler.object * stats :=
  let '(emojiData, st) := acc in
  let failed :=
    (emojiData,
     {| processed := processed st; errors := S (errors st);
        originalSize := originalSize st; optimizedSize := optimizedSize st;
        largestReduction := largestReduction st |}) in
  match Bundler.file_content fsys file with
  | Some original =>
      match Part0.svgToDataUri original with
      | Some dataUri =>
          let originalBytes := Z.of_nat (length original) in
          let optimizedBytes :=
            (Z.of_nat (length dataUri)
             - Z.of_nat (length (str "data:image/svg+xml;charset=utf-8,")))%Z in
          let savings := (originalBytes - optimizedBytes)%Z in
          (Bundler.obj_set (Bundler.basename file (str ".svg")) dataUri
                           emojiData,
           {| processed := S (processed st);
              errors := errors st;
              originalSize := (originalSize st + originalBytes)%Z;
              optimizedSize := (optimizedSize st + optimizedBytes)%Z;
              largestReduction :=
                if (savings >? Part0Run.savings (largestReduction st))%Z
                then {| file := file; savings := savings;
                        percent :=
                          Some (savingsPercent savings originalBytes) |}
                else largestReduction st |})
      | None => failed
      end
  | None => failed
  end.

Definition initial : Bundler.object * stats :=
  ([], {| processed := 0; errors := 0; originalSize := 0; optimizedSize := 0;
          largestReduction := {| file := []; savings := 0;
                                 percent := None |} |}).

Definition process_all (files : list jsstring) : Bundler.object * stats :=
  fold_left (fun acc batch => fold_left process_file batch acc)
            (Bundler.batches BATCH_SIZE (length files) files) initial.

Record outcome := {
  exit_status : Z;
  output_file : option (Bundler.object * stats)
}.

Definition fatal : outcome := {| exit_status := 1; output_file := None |}.

Definition bundleEmojis : outcome :=
  if negb (Bundler.dir_exists fsys) then fatal      (* process.exit(1) *)
  else
    match Bundler.dir_entries fsys with
    | None => fatal                                 (* .catch: process.exit(1) *)
    | Some entries =>
        let files := Bundler.svg_files entries in
        match files with
        | [] => fatal                               (* process.exit(1) *)
        | _ :: _ =>
            let result := process_all files in
            if Bundler.can_write fsys
            then {| exit_status := 0; output_file := Some result |}
            else fatal                              (* .catch: process.exit(1) *)
        end
    end.

(** What the file saves: the length of its content less that of the
    payload of its data URI. *)
Definition savings_of (file : jsstring) : option Z :=
  match Bundler.file_content fsys file with
  | Some original =>
      match Part0.svgToDataUri original with
      | Some dataUri =>
          Some (Z.of_nat (length original)
                - (Z.of_nat (length dataUri) - 33))%Z
      | None => None
      end
  | None => None
  end.

End Run.

End Part0Run.

(** What the loop of part_000 keeps in [largestReduction], for the files
    seen so far. *)
Definition best_of (fsys : Bundler.filesystem) (seen : jsstring -> Prop)
           (best : Part0Run.reduction) : Prop :=
  (0 <= Part0Run.savings best)%Z /\
  (forall f s, seen f -> Part0Run.savings_of fsys f = Some s ->
               (s <= Part0Run.savings best)%Z) /\
  ((0 < Part0Run.savings best)%Z ->
   seen (Part0Run.file best) /\
   Part0Run.savings_of fsys (Part0Run.file best)
   = Some (Part0Run.savings best)) /\
  (Part0Run.savings best = 0%Z ->
   Part0Run.file best = [] /\ Part0Run.percent best = None).

(** The counters of part_000 against those of the other scripts. *)
Definition same_counters (st : Part0Run.stats) (st' : Bundler.stats) : Prop :=
  Part0Run.processed st = Bundler.processed st' /\
  Part0Run.errors st = Bundler.errors st' /\
  Part0Run.originalSize st = Z.of_nat (Bundler.originalSize st') /\
  (Part0Run.optimizedSize st =
   Z.of_nat (Bundler.optimizedSize st')
   - 33 * Z.of_nat (Bundler.processed st'))%Z.

(** *** build_emoji_sprite.js (second part of
        src/ultra_optimized_svg_bundler.js): the loop and the output *)

Module SpriteScript.

(** [\w] *)
Definition is_word (c : cu) : bool :=
  in_range (ch "a") (ch "z") c || in_range (ch "A") (ch "Z") c
  || in_range (ch "0") (ch "9") c || cu_eqb c (ch "_").

(** The first place where [w] occurs in [s], letters compared without
    regard to case. *)
Fixpoint find_ci (w s : jsstring) : option nat :=
  match prefix_ic true w s with
  | Some _ => Some 0
  | None =>
      match s with
      | [] => None
      | _ :: t => option_map S (find_ci w t)
      end
  end.

(** [s.match(/r/)] without the [g] flag: the captures of the leftmost
    match, [None] for null.  [exec] runs the regex at the head of its
    argument. *)
Fixpoint match_first (exec : jsstring -> option (nat * captures))
         (s : jsstring) : option captures :=
  match exec s with
  | Some (_, cs) => Some cs
  | None =>
      match s with
      | [] => None
      | _ :: t => match_first exec t
      end
  end.

(** /<svg\b(A)>(B)<\/svg>/i with [^>]* for A and [\s\S]*? for B: what
    follows [<svg\b]. *)
Definition re_svg_rest : regex :=
  Seqs [Group 1 (Star true (notc (ch ">"))); C ">";
        Group 2 (Star false any); L "</svg>"].

(** The regex at the head of [s].  The syntax [regex] has no assertion:
    the literal [<svg] is compared here, then [\b], which after the word
    character [g] holds when no word character follows, and the rest is
    run by the matcher. *)
Definition exec_svg (s : jsstring) : option (nat * captures) :=
  match prefix_ic true (str "<svg") s with
  | Some rest =>
      if head_is is_word rest then None
      else
        match exec_at true re_svg_rest rest with
        | Some (n, cs) => Some (4 + n, cs)
        | None => None
        end
  | None => None
  end.

(** /viewBox=\x22([^\x22]+)\x22/i *)
Definition re_viewBox : regex :=
  Seqs [L "viewBox="; Chr dq; Group 1 (Plus true (notc dq)); Chr dq].

(** The literal at the start of that regex. *)
Definition viewBox_literal : jsstring := str "viewBox=" ++ [dq].

(** vbMatch ? ` viewBox=\x22${vbMatch[1]}\x22` : [\x22\x22] *)
Definition viewBoxAttr (attrs : jsstring) : jsstring :=
  match match_first (exec_at true re_viewBox) attrs with
  | Some cs => str " viewBox=" ++ dq :: capd 1 cs ++ [dq]
  | None => []
  end.

(** attrs and inner: the two captures, or nothing and the whole text. *)
Definition attrs_inner (text : jsstring) : jsstring * jsstring :=
  match match_first exec_svg text with
  | Some cs => (capd 1 cs, capd 2 cs)
  | None => ([], text)
  end.

(** What one file adds to [symbols]. *)
Definition symbol (file text : jsstring) : jsstring :=
  str "<symbol id=" ++ dq :: Sprite.idFromFilename file
  ++ dq :: viewBoxAttr (fst (attrs_inner text))
  ++ ch ">" :: snd (attrs_inner text) ++ str "</symbol>" ++ [10%N].

(** The loop: no [try], so a file that cannot be read ends the script. *)
Fixpoint symbols (fsys : Bundler.filesystem) (files : list jsstring)
  : option jsstring :=
  match files with
  | [] => Some []
  | file :: rest =>
      match Bundler.file_content fsys file with
      | Some text => option_map (app (symbol file text)) (symbols fsys rest)
      | None => None
      end
  end.

Definition header : jsstring :=
  str "<?xml version=" ++ dq :: str "1.0" ++ dq :: str " encoding=" ++
  dq :: str "utf-8" ++ dq :: str "?>" ++ 10%N ::
  str "<svg xmlns=" ++ dq :: str "http://www.w3.org/2000/svg" ++
  dq :: str " style=" ++ dq :: str "display:none;" ++ dq :: str ">" ++
  [10%N].

Definition footer : jsstring := 10%N :: str "</svg>".

(** What the script writes to OUT; [None] when it ends with an exception
    (the directory cannot be listed, a file cannot be read, OUT cannot be
    written) and writes nothing. *)
Definition build (fsys : Bundler.filesystem) : option jsstring :=
  match Bundler.dir_entries fsys with
  | None => None
  | Some entries =>
      match symbols fsys (filter Bundler.is_svg entries) with
      | Some sy =>
          if Bundler.can_write fsys then Some (header ++ sy ++ footer)
          else None
      | None => None
      end
  end.

End SpriteScript.

(* ================================================================== *)
(** ** The steps of the scripts, read directly *)
(* ================================================================== *)

Unset Implicit Arguments.

(** *** Quotes in svg_utf8_bundler.js *)

(** .replace(/\x22/g, \x22'\x22): every double quote written as a single
    quote. *)
Definition single_quotes (s : jsstring) : jsstring :=
  map (fun c => if cu_eqb c dq then sq else c) s.

(** *** Replacing items from left to right *)

Section Scan.

(** For the item at the head of a text, if there is one: what replaces it,
    and the text that follows it. *)
Variable item_at : jsstring -> option (jsstring * jsstring).

(** Every item met from left to right is replaced and everything else is
    copied; [fuel] bounds the length of [s]. *)
Fixpoint scan_from (fuel : nat) (s : jsstring) : jsstring :=
  match fuel with
  | O => s
  | S f =>
      match item_at s with
      | Some (replaced, rest) => replaced ++ scan_from f rest
      | None =>
          match s with
          | [] => []
          | c :: t => c :: scan_from f t
          end
      end
  end.

Definition scan (s : jsstring) : jsstring := scan_from (length s) s.

End Scan.

(** *** Decimal literals *)

(** The decimal literal at the head of [s], with what follows it: a run of
    digits, a point, a run of three digits or more. *)
Definition literal_at (s : jsstring) : option (jsstring * jsstring) :=
  let rest := dropWhile is_digit s in
  match takeWhile is_digit s with
  | [] => None
  | ip =>
      if decimal_tail rest
      then Some (ip ++ ch "." :: takeWhile is_digit (tl rest),
                 dropWhile is_digit (tl rest))
      else None
  end.

(** The literal is replaced by its value with two fractional digits. *)
Definition rounded_at (s : jsstring) : option (jsstring * jsstring) :=
  match literal_at s with
  | Some (literal, rest) => Some (fixed PRECISION (parseFloat literal), rest)
  | None => None
  end.

Definition round_literals : jsstring -> jsstring := scan rounded_at.

(** The last code unit is a digit or a point. *)
Definition ends_numeric (s : jsstring) : bool := starts_numeric (rev s).

(** *** Colors *)

(** [rgb(] in any mix of upper and lower case. *)
Definition rgb_open (s : jsstring) : option jsstring :=
  match s with
  | r :: g :: b :: p :: rest =>
      if (cu_eqb r (ch "r") || cu_eqb r (ch "R"))
         && (cu_eqb g (ch "g") || cu_eqb g (ch "G"))
         && (cu_eqb b (ch "b") || cu_eqb b (ch "B"))
         && cu_eqb p (ch "(")
      then Some rest
      else None
  | _ => None
  end.

(** A channel: white space, a run of digits, white space. *)
Definition channel_at (s : jsstring) : option (jsstring * jsstring) :=
  let s1 := dropWhile is_ws s in
  match takeWhile is_digit s1 with
  | [] => None
  | ds => Some (ds, dropWhile is_ws (dropWhile is_digit s1))
  end.

(** The text after the code unit [c], when the text starts with it. *)
Definition after (c : cu) (s : jsstring) : option jsstring :=
  match s with
  | x :: t => if cu_eqb c x then Some t else None
  | [] => None
  end.

(** The rgb literal at the head of [s]: its three channels and what follows
    it. *)
Definition rgb_at (s : jsstring)
  : option (jsstring * jsstring * jsstring * jsstring) :=
  match rgb_open s with
  | None => None
  | Some s1 =>
  match channel_at s1 with
  | None => None
  | Some (r, s2) =>
  match after (ch ",") s2 with
  | None => None
  | Some s3 =>
  match channel_at s3 with
  | None => None
  | Some (g, s4) =>
  match after (ch ",") s4 with
  | None => None
  | Some s5 =>
  match channel_at s5 with
  | None => None
  | Some (b, s6) =>
  match after (ch ")") s6 with
  | None => None
  | Some rest => Some (r, g, b, rest)
  end end end end end end end.

(** The literal is replaced by [#] and the hex digits of each channel. *)
Definition hex_color_at (s : jsstring) : option (jsstring * jsstring) :=
  match rgb_at s with
  | Some (r, g, b, rest) =>
      Some (ch "#" :: hex2_value r ++ hex2_value g ++ hex2_value b, rest)
  | None => None
  end.

Definition rgb_to_hex_colors : jsstring -> jsstring := scan hex_color_at.

(** A [#] and six hex digits that are three pairs of the same digit (a
    letter in either case) are replaced by the [#] and the first digit of
    each pair. *)
Definition short_color_at (s : jsstring) : option (jsstring * jsstring) :=
  match s with
  | h :: a :: b :: c :: d :: e :: f :: rest =>
      if cu_eqb h (ch "#")
         && (is_hex_digit a && same_digit a b)
         && (is_hex_digit c && same_digit c d)
         && (is_hex_digit e && same_digit e f)
      then Some ([ch "#"; a; c; e], rest)
      else None
  | _ => None
  end.

Definition short_colors : jsstring -> jsstring := scan short_color_at.


(** *** Two passes *)

(** optimize(optimize(s)), [None] when a pass throws. *)
Definition twice (optimize : jsstring -> option jsstring) (s : jsstring)
  : option jsstring :=
  andThen (optimize s) optimize.

Set Implicit Arguments.

(* ================================================================== *)
(** * Properties *)
(* ================================================================== *)

(** ** Where the code units of a result come from *)

Section Provenance.

Variable P : cu -> Prop.

Definition caps_ok (cs : captures) : Prop :=
  Forall (fun p => Forall P (snd p)) cs.

Definition st_ok (st : mstate) : Prop :=
  Forall P (fst st) /\ caps_ok (snd st).

Lemma cap_ok i cs w : caps_ok cs -> cap i cs = Some w -> Forall P w.
Proof.
  induction 1 as [|[j v] t Hv Ht IH]; simpl; [discriminate|].
  destruct (Nat.eqb i j); [intros [= <-]; exact Hv | exact IH].
Qed.

Lemma capd_ok i cs : caps_ok cs -> Forall P (capd i cs).
Proof.
  intros H. unfold capd. destruct (cap i cs) eqn:E; [|constructor].
  eapply cap_ok; eauto.
Qed.

Lemma Forall_firstn_P n (s : jsstring) : Forall P s -> Forall P (firstn n s).
Proof.
  revert n; induction s; intros [|n] H; simpl; try constructor;
    inversion H; subst; auto.
Qed.

Lemma Forall_skipn_P n (s : jsstring) : Forall P s -> Forall P (skipn n s).
Proof.
  revert n; induction s; intros [|n] H; simpl; auto.
  inversion H; subst; auto.
Qed.

Lemma prefix_ic_ok ic w s rest :
  prefix_ic ic w s = Some rest -> Forall P s -> Forall P rest.
Proof.
  revert s; induction w as [|a w IH]; intros [|b s]; simpl;
    try discriminate; try (intros [= <-]; auto; fail).
  destruct (cu_eqb _ _); [|discriminate].
  intros H Hs. inversion Hs; subst. eauto.
Qed.

Lemma Forall_flat_map_st (A B : Type) (Q : A -> Prop) (R : B -> Prop)
      (f : A -> list B) (l : list A) :
  (forall a, Q a -> Forall R (f a)) -> Forall Q l -> Forall R (flat_map f l).
Proof.
  intros Hf; induction 1; simpl; [constructor|].
  apply Forall_app; split; auto.
Qed.

Lemma star_loop_ok body :
  (forall st, st_ok st -> Forall st_ok (body st)) ->
  forall fuel g st, st_ok st -> Forall st_ok (star_loop body g fuel st).
Proof.
  intros Hb; induction fuel as [|n IH]; intros g st Hst; simpl.
  - repeat constructor; apply Hst.
  - assert (Hmore : Forall st_ok
             (flat_map (fun st' =>
                if Nat.ltb (length (fst st')) (length (fst st))
                then star_loop body g n st' else []) (body st))).
    { eapply Forall_flat_map_st; [|apply Hb; exact Hst].
      intros a Ha. destruct (Nat.ltb _ _); [apply IH; exact Ha|constructor]. }
    destruct g.
    + apply Forall_app; split; [exact Hmore|repeat constructor; apply Hst].
    + constructor; [exact Hst|exact Hmore].
Qed.

Lemma rmatch_ok ic r : forall st, st_ok st -> Forall st_ok (rmatch ic r st).
Proof.
  induction r; intros [s cs] [Hs Hc]; simpl in *.
  - repeat constructor; auto.
  - destruct s as [|x t]; [constructor|].
    destruct (cu_eqb _ _); repeat constructor; simpl; auto.
    inversion Hs; auto.
  - destruct s as [|x t]; [constructor|].
    destruct (is_line_terminator x); repeat constructor; simpl; auto.
    inversion Hs; auto.
  - destruct s as [|x t]; [constructor|].
    destruct (in_class _ _ _ _); repeat constructor; simpl; auto.
    inversion Hs; auto.
  - eapply Forall_flat_map_st; [apply IHr2|]. apply IHr1; split; auto.
  - apply Forall_app; split; [apply IHr1|apply IHr2]; split; auto.
  - apply star_loop_ok; [exact IHr|split; auto].
  - apply Forall_forall. intros st' Hin. apply in_map_iff in Hin.
    destruct Hin as [st0 [<- Hin]].
    assert (H0 : st_ok st0).
    { pose proof (IHr (s, cs) (conj Hs Hc)) as HH.
      rewrite Forall_forall in HH. apply HH; exact Hin. }
    destruct H0 as [H1 H2]. split; simpl; auto.
    constructor; simpl; auto. apply Forall_firstn_P; auto.
  - destruct (cap i cs) as [w|] eqn:E; [|repeat constructor; auto].
    destruct (prefix_ic ic w s) eqn:E2; [|constructor].
    constructor; [|constructor]. split; simpl; auto.
    eapply prefix_ic_ok; eauto.
  - destruct s; repeat constructor; auto.
Qed.

Lemma exec_at_ok ic r s n cs :
  Forall P s -> exec_at ic r s = Some (n, cs) -> caps_ok cs.
Proof.
  intros Hs. unfold exec_at.
  assert (Hok : st_ok (s, [])) by (split; simpl; [auto|constructor]).
  match goal with
  | |- context [rmatch ?a ?b ?c] =>
      pose proof (@rmatch_ok a b c Hok) as H;
      destruct (rmatch a b c) as [|[rest cs'] l]
  end; [intros [=]|].
  intros [= <- <-]. inversion H; subst. apply H2.
Qed.

(** A global replacement only copies code units of its input and inserts
    what the replacement makes of the match. *)
Lemma replace_go_Forall ic r (f : replacement) :
  (forall m cs, Forall P m -> caps_ok cs -> Forall P (f m cs)) ->
  forall s k, Forall P s -> Forall P (replace_go ic r f s k).
Proof.
  intros Hf. induction s as [|c t IH]; intros k Hs.
  - destruct k; simpl; [|constructor].
    destruct (exec_at ic r []) as [[n cs]|] eqn:E; [|constructor].
    rewrite app_nil_r. apply Hf; [apply Forall_firstn_P; auto|].
    exact (exec_at_ok _ _ Hs E).
  - inversion Hs; subst. destruct k; simpl; [|auto].
    destruct (exec_at ic r (c :: t)) as [[n cs]|] eqn:E.
    + apply Forall_app; split.
      * apply Hf; [apply Forall_firstn_P; auto|exact (exec_at_ok _ _ Hs E)].
      * destruct n; [constructor|]; auto.
    + constructor; auto.
Qed.

Lemma replace_all_Forall ic r (f : replacement) s :
  (forall m cs, Forall P m -> caps_ok cs -> Forall P (f m cs)) ->
  Forall P s -> Forall P (replace_all ic r f s).
Proof. intros; apply replace_go_Forall; auto. Qed.

Lemma remove_Forall ic r s : Forall P s -> Forall P (remove ic r s).
Proof. intros; apply replace_all_Forall; auto. Qed.

(** The same when every code unit that is copied rather than matched is
    known to be good. *)
Lemma replace_go_Forall_unmatched ic r (f : replacement) :
  (forall m cs, Forall P (f m cs)) ->
  (forall c t, (forall n cs, exec_at ic r (c :: t) <> Some (S n, cs)) -> P c) ->
  forall s k, Forall P (replace_go ic r f s k).
Proof.
  intros Hf Hc. induction s as [|c t IH]; intros k.
  - destruct k; simpl; [|constructor].
    destruct (exec_at ic r []) as [[n cs]|]; [|constructor].
    rewrite app_nil_r; auto.
  - destruct k; simpl; [|auto].
    destruct (exec_at ic r (c :: t)) as [[n cs]|] eqn:E.
    + apply Forall_app; split; [auto|].
      destruct n; [|auto]. constructor; auto.
      apply (Hc c t). intros n cs'. rewrite E. discriminate.
    + constructor; auto. apply (Hc c t). intros n cs'. rewrite E. discriminate.
Qed.

End Provenance.

(** A replacement function that cannot throw makes [replace_with] the pure
    global replacement. *)
Lemma replace_with_go_total ic r (cb : callback) (f : replacement) :
  (forall m cs, cb m cs = Some (f m cs)) ->
  forall s k, replace_with_go ic r cb s k = Some (replace_go ic r f s k).
Proof.
  intros H. induction s as [|c t IH]; intros k.
  - destruct k; simpl; [|reflexivity].
    destruct (exec_at ic r []) as [[n cs]|]; [|reflexivity].
    rewrite H. reflexivity.
  - destruct k; simpl; [|apply IH].
    destruct (exec_at ic r (c :: t)) as [[n cs]|].
    + rewrite H. destruct n; rewrite IH; reflexivity.
    + rewrite IH; reflexivity.
Qed.

Lemma replace_with_total ic r (cb : callback) (f : replacement) s :
  (forall m cs, cb m cs = Some (f m cs)) ->
  replace_with ic r cb s = Some (replace_all ic r f s).
Proof. intros; apply replace_with_go_total; auto. Qed.

(** ** Replacing single characters *)

Lemma length_cons_minus (A : Type) (x : A) (t : list A) :
  length (x :: t) - length t = 1.
Proof. simpl. destruct (length t) eqn:E; [reflexivity|]. lia. Qed.

Lemma one_char_exec ic r p x t :
  one_char ic r = Some p ->
  exec_at ic r (x :: t) = if p x then Some (1, []) else None.
Proof.
  destruct r; simpl; try discriminate; intros [= <-]; unfold exec_at; simpl.
  - destruct (cu_eqb _ _); [|reflexivity].
    f_equal. f_equal. destruct (length t); [reflexivity|f_equal; lia].
  - destruct (is_line_terminator x); [reflexivity|]. simpl.
    f_equal. f_equal. destruct (length t); [reflexivity|f_equal; lia].
  - destruct (in_class _ _ _ _); [|reflexivity].
    f_equal. f_equal. destruct (length t); [reflexivity|f_equal; lia].
Qed.

Lemma one_char_exec_nil ic r p :
  one_char ic r = Some p -> exec_at ic r [] = None.
Proof. destruct r; simpl; try discriminate; reflexivity. Qed.

(** Replacing every match of a one-character regex maps each code unit on
    its own. *)
Lemma replace_one_char ic r p (f : replacement) s :
  one_char ic r = Some p ->
  replace_all ic r f s = flat_map (fun x => if p x then f [x] [] else [x]) s.
Proof.
  intros H. unfold replace_all. induction s as [|x t IH]; simpl.
  - rewrite (one_char_exec_nil _ _ H). reflexivity.
  - rewrite (one_char_exec _ _ x t H).
    destruct (p x); simpl; rewrite IH; reflexivity.
Qed.

Lemma flat_map_flat_map (A B D : Type) (f : A -> list B) (g : B -> list D) l :
  flat_map g (flat_map f l) = flat_map (fun x => flat_map g (f x)) l.
Proof.
  induction l; simpl; [reflexivity|].
  rewrite flat_map_app, IHl. reflexivity.
Qed.

(** ** The optimizers never throw *)

Lemma toFixed_PRECISION x : toFixed PRECISION x = Some (fixed PRECISION x).
Proof. reflexivity. Qed.

Lemma round_decimal_total m cs : round_decimal m cs = Some (round_decimal_value m cs).
Proof. reflexivity. Qed.

Lemma rgb_to_hex_total m cs : rgb_to_hex m cs = Some (rgb_to_hex_value m cs).
Proof. reflexivity. Qed.

Lemma reduce_precision_value s :
  reduce_precision s = Some (replace_all false re_decimal round_decimal_value s).
Proof. apply replace_with_total. apply round_decimal_total. Qed.

Lemma rgb_colors_value s :
  rgb_colors s = Some (replace_all true re_rgb rgb_to_hex_value s).
Proof. apply replace_with_total. apply rgb_to_hex_total. Qed.

Lemma optimize_colors_value s :
  optimize_colors s =
  Some (shorten_hex (replace_all true re_rgb rgb_to_hex_value s)).
Proof. unfold optimize_colors. rewrite rgb_colors_value. reflexivity. Qed.

Lemma Ultra_optimizeSVG_value s :
  Ultra.optimizeSVG s =
  Some (Ultra.step6
          (shorten_hex
             (replace_all true re_rgb rgb_to_hex_value
                (Ultra.step4
                   (replace_all false re_decimal round_decimal_value
                      (Ultra.step2 (Ultra.step1 s))))))).
Proof.
  unfold Ultra.optimizeSVG, Ultra.step3, Ultra.step5.
  rewrite reduce_precision_value. simpl.
  rewrite optimize_colors_value. reflexivity.
Qed.

Lemma Part0_ultraOptimizeSVG_value s :
  Part0.ultraOptimizeSVG s =
  Some (Part0.step10 (Part0.step9 (Part0.step8 (Part0.step7
          (shorten_hex
             (replace_all true re_rgb rgb_to_hex_value
                (Part0.step5
                   (replace_all false re_decimal round_decimal_value
                      (Part0.step3 (Part0.step2 (Part0.step1 s))))))))))).
Proof.
  unfold Part0.ultraOptimizeSVG, Part0.step4, Part0.step6.
  rewrite reduce_precision_value. simpl.
  rewrite optimize_colors_value. reflexivity.
Qed.

(** ** The payload of part_000's data URI *)

Lemma Forall_trimStart (P : cu -> Prop) s : Forall P s -> Forall P (trimStart s).
Proof.
  induction 1 as [|c t Hc Ht IH]; simpl; [constructor|].
  destruct (is_ws c); [exact IH|constructor; auto].
Qed.

Lemma Forall_trim (P : cu -> Prop) s : Forall P s -> Forall P (trim s).
Proof.
  intros H. unfold trim, trimEnd.
  apply Forall_rev, Forall_trimStart, Forall_rev, Forall_trimStart, H.
Qed.

Lemma Forall_flat_map_cu (P : cu -> Prop) (f : cu -> jsstring) s :
  (forall x, Forall P (f x)) -> Forall P (flat_map f s).
Proof.
  intros H. induction s; simpl; [constructor|].
  apply Forall_app; split; auto.
Qed.

Lemma Forall_flat_map_in (P Q : cu -> Prop) (f : cu -> jsstring) s :
  (forall x, P x -> Forall Q (f x)) -> Forall P s -> Forall Q (flat_map f s).
Proof.
  intros H. induction 1; simpl; [constructor|].
  apply Forall_app; split; auto.
Qed.

Lemma cu_eqb_eq a b : cu_eqb a b = true <-> a = b.
Proof. apply N.eqb_eq. Qed.

Lemma cu_eqb_neq a b : cu_eqb a b = false <-> a <> b.
Proof. apply N.eqb_neq. Qed.

(** Step 8 leaves no double quote. *)
Lemma step8_no_dq s : Forall (fun c => c <> dq) (Part0.step8 s).
Proof.
  unfold Part0.step8.
  rewrite (@replace_one_char false (Chr dq) _ (const [sq]) s eq_refl).
  apply Forall_flat_map_cu. intros x. unfold canon, const.
  destruct (cu_eqb dq x) eqn:E.
  - repeat constructor. compute. discriminate.
  - repeat constructor. apply cu_eqb_neq in E. congruence.
Qed.

Lemma step10_Forall (P : cu -> Prop) s :
  Forall P s -> Forall P (Part0.step10 s).
Proof.
  intros H. unfold Part0.step10. simpl.
  repeat apply remove_Forall. exact H.
Qed.

(** The optimizer of part_000 returns a string without double quote. *)
Lemma ultraOptimizeSVG_no_dq s out :
  Part0.ultraOptimizeSVG s = Some out -> Forall (fun c => c <> dq) out.
Proof.
  rewrite Part0_ultraOptimizeSVG_value. intros [= <-].
  apply step10_Forall. unfold Part0.step9. apply Forall_trim.
  apply step8_no_dq.
Qed.

Lemma flat_map_single (A B : Type) (f : A -> list B) (x : A) :
  flat_map f [x] = f x.
Proof. simpl. apply app_nil_r. Qed.

(** The six replacements of the encoder escape each code unit on its own. *)
Lemma encode_flat_map s : Part0.encode s = flat_map escape1 s.
Proof.
  unfold Part0.encode, Part0.escape, C.
  rewrite (@replace_one_char false space (in_class false false [CSpace])
             (const (str "%20")) _ eq_refl).
  repeat match goal with
  | |- context [replace_all false (Chr ?c) ?f ?t] =>
      rewrite (@replace_one_char false (Chr c) _ f t eq_refl)
  end.
  rewrite !flat_map_flat_map.
  apply flat_map_ext. intros c. unfold const, canon, escape1.
  change sq with 39%N. change (ch "%") with 37%N. change (ch "#") with 35%N.
  change (ch "<") with 60%N. change (ch ">") with 62%N.
  unfold cu_eqb.
  rewrite (N.eqb_sym 37 c).
  destruct (N.eqb_spec c 37) as [->|H37]; [reflexivity|].
  rewrite flat_map_single. rewrite (N.eqb_sym 39 c).
  destruct (N.eqb_spec c 39) as [->|H39]; [reflexivity|].
  rewrite flat_map_single. rewrite (N.eqb_sym 35 c).
  destruct (N.eqb_spec c 35) as [->|H35]; [reflexivity|].
  rewrite flat_map_single. rewrite (N.eqb_sym 60 c).
  destruct (N.eqb_spec c 60) as [->|H60]; [reflexivity|].
  rewrite flat_map_single. rewrite (N.eqb_sym 62 c).
  destruct (N.eqb_spec c 62) as [->|H62]; [reflexivity|].
  rewrite flat_map_single.
  unfold in_class, in_item_ic. cbn [existsb in_item andb orb xorb].
  rewrite !orb_false_r.
  destruct (is_ws c); reflexivity.
Qed.

Lemma escape1_safe c : c <> dq -> Forall payload_safe (escape1 c).
Proof.
  intros Hdq. unfold escape1, cu_eqb.
  change sq with 39%N. change (ch "%") with 37%N. change (ch "#") with 35%N.
  change (ch "<") with 60%N. change (ch ">") with 62%N.
  assert (Hsafe : forall l, forallb (fun x => negb (is_ws x) && negb (N.eqb x 60)
            && negb (N.eqb x 62) && negb (N.eqb x 35) && negb (N.eqb x 39)
            && negb (N.eqb x 34)) l = true -> Forall payload_safe l).
  { intros l Hl. apply Forall_forall. intros x Hx.
    rewrite forallb_forall in Hl. specialize (Hl x Hx).
    repeat (apply andb_prop in Hl; destruct Hl as [Hl ?]).
    repeat match goal with
    | H : negb (N.eqb _ _) = true |- _ =>
        apply negb_true_iff in H; apply N.eqb_neq in H
    | H : negb _ = true |- _ => apply negb_true_iff in H
    end.
    unfold payload_safe. change sq with 39%N. change dq with 34%N.
    change (ch "#") with 35%N. change (ch "<") with 60%N.
    change (ch ">") with 62%N. tauto. }
  destruct (N.eqb_spec c 37); [apply Hsafe; reflexivity|].
  destruct (N.eqb_spec c 39); [apply Hsafe; reflexivity|].
  destruct (N.eqb_spec c 35); [apply Hsafe; reflexivity|].
  destruct (N.eqb_spec c 60); [apply Hsafe; reflexivity|].
  destruct (N.eqb_spec c 62); [apply Hsafe; reflexivity|].
  destruct (is_ws c) eqn:Ews; [apply Hsafe; reflexivity|].
  repeat constructor; auto.
Qed.

Lemma payload_prefix_app s : URI.payload (Part0.prefix ++ s) = s.
Proof. reflexivity. Qed.

(** C10 (src/unnamed/part_000, svgToDataUri with ultraOptimizeSVG): for
    every input string the encoder returns a data URI, and the payload after
    [data:image/svg+xml;charset=utf-8,] contains no white-space code unit
    and none of the characters [<], [>], [#], single quote, double quote:
    the optimizer turns every double quote into a single quote, and the
    encoder escapes the percent sign, the single quote, [#], [<], [>] and
    every white-space code unit. *)
Theorem C10_payload_has_no_unsafe_character :
  forall s : jsstring,
    exists uri,
      Part0.svgToDataUri s = Some uri /\
      starts_with Part0.prefix uri = true /\
      Forall payload_safe (URI.payload uri).
Proof.
  intros s. unfold Part0.svgToDataUri.
  destruct (Part0.ultraOptimizeSVG s) as [out|] eqn:E.
  2:{ rewrite Part0_ultraOptimizeSVG_value in E. discriminate. }
  exists (Part0.prefix ++ Part0.encode out). split; [reflexivity|]. split.
  - reflexivity.
  - rewrite payload_prefix_app, encode_flat_map.
    eapply Forall_flat_map_in; [|exact (ultraOptimizeSVG_no_dq _ E)].
    intros x Hx. apply escape1_safe; exact Hx.
Qed.

(** ** The bundler runs *)

Import Bundler.

Lemma str_eqb_eq a b : str_eqb a b = true <-> a = b.
Proof.
  revert b; induction a as [|x a IH]; intros [|y b]; simpl;
    try (split; [discriminate|discriminate]); try tauto.
  rewrite andb_true_iff, IH, cu_eqb_eq. split.
  - intros [-> ->]; reflexivity.
  - intros [= -> ->]; auto.
Qed.

Lemma str_eqb_refl a : str_eqb a a = true.
Proof. apply str_eqb_eq; reflexivity. Qed.

Lemma str_eqb_neq a b : str_eqb a b = false <-> a <> b.
Proof.
  destruct (str_eqb a b) eqn:E.
  - apply str_eqb_eq in E. split; [discriminate|congruence].
  - split; [|reflexivity]. intros _ H. apply str_eqb_eq in H. congruence.
Qed.

Lemma ascii_lower_letter x k :
  (97 <= k <= 122)%N -> ascii_lower x = k <-> (x = k \/ x = (k - 32)%N).
Proof.
  intros Hk. unfold ascii_lower, in_range.
  destruct (65 <=? x)%N eqn:E1; destruct (x <=? 90)%N eqn:E2; simpl;
    try apply N.leb_le in E1; try apply N.leb_le in E2;
    try apply N.leb_gt in E1; try apply N.leb_gt in E2; lia.
Qed.

Lemma ascii_lower_dot x : ascii_lower x = 46%N <-> x = 46%N.
Proof.
  unfold ascii_lower, in_range.
  destruct (65 <=? x)%N eqn:E1; destruct (x <=? 90)%N eqn:E2; simpl;
    try apply N.leb_le in E1; try apply N.leb_le in E2;
    try apply N.leb_gt in E1; try apply N.leb_gt in E2; lia.
Qed.

(** The filter of the scripts selects the names that end in [.svg] in any
    case. *)
Lemma is_svg_spec name : is_svg name = true <-> svg_suffix_ci name.
Proof.
  unfold is_svg, endsWith, toLowerCase, svg_suffix_ci.
  rewrite <- map_rev. change (rev (str ".svg")) with [103; 118; 115; 46]%N.
  split.
  - destruct (rev name) as [|g [|v [|s [|d r]]]] eqn:E;
      cbn [starts_with map];
      try discriminate;
      try (rewrite ?andb_false_r; discriminate).
    rewrite andb_true_r, !andb_true_iff, !cu_eqb_eq.
    intros (Hg & Hv & Hs & Hd).
    symmetry in Hg, Hv, Hs, Hd.
    apply ascii_lower_letter in Hg; [|lia].
    apply ascii_lower_letter in Hv; [|lia].
    apply ascii_lower_letter in Hs; [|lia].
    apply (proj1 (ascii_lower_dot d)) in Hd. subst d.
    exists (rev r), s, v, g. split; [|tauto].
    rewrite <- (rev_involutive name), E. simpl.
    repeat rewrite <- app_assoc. reflexivity.
  - intros (base & e1 & e2 & e3 & -> & H1 & H2 & H3).
    rewrite rev_app_distr. simpl.
    destruct H1 as [-> | ->], H2 as [-> | ->], H3 as [-> | ->]; reflexivity.
Qed.

Lemma filter_nil_iff (A : Type) (p : A -> bool) l :
  filter p l = [] <-> forall x, In x l -> p x = false.
Proof.
  induction l as [|a l IH]; simpl; [tauto|].
  destruct (p a) eqn:E; split.
  - discriminate.
  - intros H. specialize (H a (or_introl eq_refl)). congruence.
  - intros H x [<-|Hx]; [exact E|]. apply IH; auto.
  - intros H. apply IH. intros x Hx. apply H. auto.
Qed.

Section RunProperties.

Variable BATCH_SIZE : nat.
Variable svgToDataUri : jsstring -> option jsstring.
Variable fsys : filesystem.

(** Without a matching file the run is fatal. *)
Lemma run_without_svg entries :
  dir_exists fsys = true ->
  dir_entries fsys = Some entries ->
  (forall name, In name entries -> ~ svg_suffix_ci name) ->
  run BATCH_SIZE svgToDataUri fsys = fatal.
Proof.
  intros He Hd Hn. unfold run. rewrite He, Hd. simpl.
  assert (Hf : filter is_svg entries = []).
  { apply filter_nil_iff. intros x Hx.
    destruct (is_svg x) eqn:E; [|reflexivity].
    apply is_svg_spec in E. exfalso. exact (Hn x Hx E). }
  unfold svg_files. rewrite Hf. reflexivity.
Qed.

End RunProperties.

(** C7 (bundleEmojis of src/ultra_optimized_svg_bundler.js and
    bundleSVGEmojis of src/svg_utf8_bundler.js): when the input directory
    has no entry whose name ends in [.svg], compared without regard to
    case, the run ends with exit status 1 and nothing is written to the
    output file. *)
Theorem C7_no_svg_file_is_fatal :
  forall (fsys : filesystem) (entries : list jsstring),
    dir_exists fsys = true ->
    dir_entries fsys = Some entries ->
    (forall name, In name entries -> ~ svg_suffix_ci name) ->
    (exit_status (bundleEmojis fsys) = 1%Z /\
     output_file (bundleEmojis fsys) = None) /\
    (exit_status (bundleSVGEmojis fsys) = 1%Z /\
     output_file (bundleSVGEmojis fsys) = None).
Proof.
  intros fsys entries He Hd Hn. unfold bundleEmojis, bundleSVGEmojis.
  rewrite !(run_without_svg _ _ _ He Hd Hn). simpl. auto.
Qed.

(** A directory with a text file and a picture, but no SVG. *)
Lemma C7_witness :
  let fsys := {| dir_exists := true;
                 dir_entries := Some [str "readme.txt"; str "smile.png"];
                 file_content := fun _ => Some (str "x");
                 can_write := true |} in
  (exit_status (bundleEmojis fsys) = 1%Z /\
   output_file (bundleEmojis fsys) = None) /\
  (exit_status (bundleSVGEmojis fsys) = 1%Z /\
   output_file (bundleSVGEmojis fsys) = None).
Proof.
  intros fsys.
  apply (@C7_no_svg_file_is_fatal fsys [str "readme.txt"; str "smile.png"]).
  - reflexivity.
  - reflexivity.
  - intros name Hin Hs. apply is_svg_spec in Hs.
    simpl in Hin. destruct Hin as [<-|[<-|[]]]; vm_compute in Hs; discriminate.
Defined.

(** *** The loop over the files *)

Lemma batches_concat size :
  0 < size ->
  forall fuel files, length files <= fuel ->
    concat (batches size fuel files) = files.
Proof.
  intros Hs. induction fuel as [|f IH]; intros files Hl.
  - destruct files; [reflexivity|simpl in Hl; lia].
  - destruct files as [|x t]; [reflexivity|].
    cbn [batches concat]. rewrite IH.
    + apply firstn_skipn.
    + rewrite length_skipn. destruct size; [lia|]. simpl in *. lia.
Qed.

Lemma fold_left_concat (A B : Type) (f : A -> B -> A) (ls : list (list B)) a :
  fold_left (fun acc l => fold_left f l acc) ls a = fold_left f (concat ls) a.
Proof.
  revert a; induction ls as [|l ls IH]; intros a; simpl; [reflexivity|].
  rewrite fold_left_app. apply IH.
Qed.

Lemma created_obj_update_new k v o :
  ~ In k (created o) -> created (obj_update k v o) = created o ++ [k].
Proof.
  induction o as [|[k' w] t IH]; simpl; intros H; [reflexivity|].
  destruct (str_eqb k' k) eqn:E.
  - apply str_eqb_eq in E. subst. tauto.
  - simpl. rewrite IH; tauto.
Qed.

Lemma created_obj_update_old k v o :
  In k (created o) -> created (obj_update k v o) = created o.
Proof.
  induction o as [|[k' w] t IH]; simpl; intros H; [tauto|].
  destruct (str_eqb k' k) eqn:E; [reflexivity|].
  apply str_eqb_neq in E. simpl. rewrite IH; [reflexivity|].
  destruct H; [congruence|assumption].
Qed.

Lemma created_obj_update_incl k v o x :
  In x (created (obj_update k v o)) -> x = k \/ In x (created o).
Proof.
  destruct (in_dec (list_eq_dec N.eq_dec) k (created o)) as [H|H].
  - rewrite created_obj_update_old by assumption. auto.
  - rewrite created_obj_update_new by assumption. rewrite in_app_iff. simpl.
    intuition.
Qed.

(** The enumeration of an object lists every property once. *)
Lemma insert_index_permutation k l : Permutation (insert_index k l) (k :: l).
Proof.
  induction l as [|y t IH]; cbn [insert_index]; [reflexivity|].
  destruct (dec_value k <=? dec_value y)%Z; [reflexivity|].
  rewrite IH. apply perm_swap.
Qed.

Lemma enumerate_permutation l : Permutation (enumerate l) l.
Proof.
  unfold enumerate.
  assert (Hs : forall m, Permutation (fold_right insert_index [] m) m).
  { induction m as [|x m IH]; cbn [fold_right]; [reflexivity|].
    rewrite insert_index_permutation, IH. reflexivity. }
  rewrite Hs. induction l as [|x l IH]; cbn [filter]; [reflexivity|].
  destruct (is_index x); cbn [negb app].
  - constructor. exact IH.
  - rewrite <- Permutation_middle. constructor. exact IH.
Qed.

Lemma keys_created o k : In k (keys o) <-> In k (created o).
Proof.
  unfold keys. split; apply Permutation_in;
    [|symmetry]; apply enumerate_permutation.
Qed.

(** The batches only group the files: the loops visit every file once, in
    order. *)
Lemma process_all_fold BATCH_SIZE svgToDataUri fsys files :
  0 < BATCH_SIZE ->
  process_all BATCH_SIZE svgToDataUri fsys files =
  fold_left (process_file svgToDataUri fsys) files
            ([], {| processed := 0; errors := 0; originalSize := 0;
                    optimizedSize := 0 |}).
Proof.
  intros Hb. unfold process_all, process_batch. rewrite fold_left_concat.
  rewrite batches_concat; auto.
Qed.

Section Loop.

Variable svgToDataUri : jsstring -> option jsstring.
Variable fsys : filesystem.

Let failed := fails svgToDataUri fsys.
Let succeeded (file : jsstring) := negb (failed file).
Let step := process_file svgToDataUri fsys.

Lemma step_failed o st file :
  failed file = true ->
  step (o, st) file =
  (o, {| processed := processed st; errors := S (errors st);
         originalSize := originalSize st;
         optimizedSize := optimizedSize st |}).
Proof.
  unfold failed, fails, step, process_file.
  destruct (file_content fsys file) as [c|]; [|reflexivity].
  destruct (svgToDataUri c); [discriminate|reflexivity].
Qed.

Lemma step_succeeded o st file :
  failed file = false ->
  exists v o' st',
    step (o, st) file = (o', st') /\
    o' = obj_set (key_of file) v o /\
    processed st' = S (processed st) /\ errors st' = errors st.
Proof.
  unfold failed, fails, step, process_file.
  destruct (file_content fsys file) as [c|]; [|discriminate].
  destruct (svgToDataUri c) as [u|]; [|discriminate].
  intros _. eexists u, _, _. split; [reflexivity|]. simpl. auto.
Qed.

(** The counters: one increment per file, of [errors] when the file fails
    and of [processed] when it does not. *)
Lemma loop_counters files : forall o st o' st',
  fold_left step files (o, st) = (o', st') ->
  errors st' = errors st + length (filter failed files) /\
  processed st' = processed st + length (filter succeeded files).
Proof.
  induction files as [|f files IH]; intros o st o' st' H;
    cbn [fold_left filter] in *.
  - inversion H; subst. simpl. lia.
  - unfold succeeded at 1. destruct (failed f) eqn:E; cbn [negb length].
    + rewrite (step_failed o st f E) in H. apply IH in H.
      cbn [errors processed] in H. lia.
    + destruct (step_succeeded o st f E) as (v & o1 & st1 & Hs & _ & Hp & He).
      rewrite Hs in H. apply IH in H. lia.
Qed.

(** Every property of the bundle was there before or has the key of a file
    that succeeded. *)
Lemma loop_created_incl files : forall o st o' st',
  fold_left step files (o, st) = (o', st') ->
  forall k, In k (created o') ->
    In k (created o) \/ In k (map key_of (filter succeeded files)).
Proof.
  induction files as [|f files IH]; intros o st o' st' H k Hk;
    cbn [fold_left filter] in *.
  - inversion H; subst. auto.
  - unfold succeeded at 1. destruct (failed f) eqn:E; cbn [negb map].
    + rewrite (step_failed o st f E) in H. eapply IH in H; eauto.
    + destruct (step_succeeded o st f E) as (v & o1 & st1 & Hs & Ho & _).
      rewrite Hs in H. eapply IH in H; eauto.
      destruct H as [H|H]; [|right; right; exact H].
      subst o1. unfold obj_set in H.
      destruct (str_eqb (key_of f) (str "__proto__")); [auto|].
      apply created_obj_update_incl in H. destruct H as [->|H]; auto.
      right. left. reflexivity.
Qed.

(** With distinct keys, none of them [__proto__], one property is created
    per file that succeeded, in the order of the files. *)
Lemma loop_created_exact files : forall o st o' st',
  fold_left step files (o, st) = (o', st') ->
  NoDup (created o ++ map key_of (filter succeeded files)) ->
  ~ In (str "__proto__") (map key_of (filter succeeded files)) ->
  created o' = created o ++ map key_of (filter succeeded files).
Proof.
  induction files as [|f files IH]; intros o st o' st' H Hnd Hp;
    cbn [fold_left filter] in *.
  - inversion H; subst. simpl. rewrite app_nil_r. reflexivity.
  - unfold succeeded at 1 in Hnd. unfold succeeded at 1 in Hp.
    unfold succeeded at 1.
    destruct (failed f) eqn:E; cbn [negb map] in *.
    + rewrite (step_failed o st f E) in H. eapply IH in H; eauto.
    + destruct (step_succeeded o st f E) as (v & o1 & st1 & Hs & Ho & _).
      rewrite Hs in H.
      assert (Hk : created o1 = created o ++ [key_of f]).
      { subst o1. unfold obj_set.
        destruct (str_eqb (key_of f) (str "__proto__")) eqn:Ep.
        - apply str_eqb_eq in Ep. exfalso. apply Hp. left. auto.
        - apply created_obj_update_new. intros Hin.
          apply NoDup_remove_2 in Hnd. apply Hnd.
          apply in_or_app. left. exact Hin. }
      eapply IH in H.
      * rewrite H, Hk, <- app_assoc. reflexivity.
      * rewrite Hk, <- app_assoc. exact Hnd.
      * intros Hin. apply Hp. right. exact Hin.
Qed.

End Loop.

Section Recovery.

Variable BATCH_SIZE : nat.
Hypothesis BATCH_SIZE_positive : 0 < BATCH_SIZE.
Variable svgToDataUri : jsstring -> option jsstring.
Variable fsys : filesystem.

Lemma filter_partition_length (A : Type) (p : A -> bool) (l : list A) :
  length (filter p l) + length (filter (fun x => negb (p x)) l) = length l.
Proof.
  induction l as [|a l IH]; simpl; [reflexivity|].
  destruct (p a); simpl; lia.
Qed.

Lemma run_recovers entries :
  dir_exists fsys = true ->
  dir_entries fsys = Some entries ->
  svg_files entries <> [] ->
  can_write fsys = true ->
  recovers BATCH_SIZE svgToDataUri fsys entries.
Proof.
  intros He Hd Hne Hw. unfold recovers, run.
  rewrite He, Hd, Hw. cbn [negb].
  destruct (svg_files entries) as [|f0 files0] eqn:Ef; [congruence|].
  rewrite <- Ef. clear Hne.
  rewrite (process_all_fold svgToDataUri fsys _ BATCH_SIZE_positive).
  set (files := svg_files entries).
  destruct (fold_left (process_file svgToDataUri fsys) files
              ([], {| processed := 0; errors := 0; originalSize := 0;
                      optimizedSize := 0 |})) as [bundle st] eqn:Efold.
  exists bundle, st. split; [reflexivity|].
  pose proof (loop_counters _ _ _ _ _ Efold) as [Herr Hproc].
  cbn [errors processed] in Herr, Hproc. rewrite Nat.add_0_l in Herr, Hproc.
  split; [exact Herr|]. split; [exact Hproc|]. split.
  - rewrite Herr, Hproc. apply filter_partition_length.
  - split.
    + intros k Hk. apply keys_created in Hk.
      destruct (loop_created_incl _ _ _ _ _ Efold k Hk) as [[]|H]. exact H.
    + intros Hnd Hp.
      pose proof (loop_created_exact _ _ _ _ _ Efold Hnd Hp) as Hc.
      cbn [created map app] in Hc. unfold keys. rewrite Hc.
      split; [apply enumerate_permutation|reflexivity].
Qed.

End Recovery.

(** C8 (bundleEmojis of src/ultra_optimized_svg_bundler.js and
    bundleSVGEmojis of src/svg_utf8_bundler.js), the code at an input on
    which it misses the claim: the directory holds [a.SVG] and [a.SVG.svg],
    both readable, and [b.svg], which cannot be read.  All three names pass
    the filter, which ignores case; [path.basename(file, '.svg')] strips
    only a lower-case [.svg], so the first two files get the same key
    [a.SVG].  Both runs end with status 0, one error and two processed
    files, but the bundle has one key for them. *)
Theorem C8_two_processed_files_share_a_key :
  let fsys := directory [(str "a.SVG", Some (str "<svg/>"));
                         (str "a.SVG.svg", Some (str "<svg/>"));
                         (str "b.svg", None)] in
  key_of (str "a.SVG") = str "a.SVG" /\
  key_of (str "a.SVG.svg") = str "a.SVG" /\
  exists bundle st bundle' st',
    bundleEmojis fsys =
      {| exit_status := 0; output_file := Some (bundle, st) |} /\
    bundleSVGEmojis fsys =
      {| exit_status := 0; output_file := Some (bundle', st') |} /\
    errors st = 1 /\ processed st = 2 /\ keys bundle = [str "a.SVG"] /\
    errors st' = 1 /\ processed st' = 2 /\ keys bundle' = [str "a.SVG"].
Proof.
  intros fsys. split; [reflexivity|]. split; [reflexivity|].
  destruct (output_file (bundleEmojis fsys)) as [[bundle st]|] eqn:E;
    [|vm_compute in E; discriminate].
  destruct (output_file (bundleSVGEmojis fsys)) as [[bundle' st']|] eqn:E';
    [|vm_compute in E'; discriminate].
  exists bundle, st, bundle', st'.
  vm_compute in E. vm_compute in E'.
  injection E as <- <-. injection E' as <- <-.
  repeat split; vm_compute; reflexivity.
Qed.

Unset Implicit Arguments.

(** ** Quantifiers over one character *)

Lemma one_char_rmatch ic r p s cs :
  one_char ic r = Some p ->
  rmatch ic r (s, cs) =
  match s with
  | x :: t => if p x then [(t, cs)] else []
  | [] => []
  end.
Proof.
  destruct r; simpl; try discriminate; intros [= <-]; destruct s as [|x t];
    try reflexivity.
  destruct (is_line_terminator x); reflexivity.
Qed.

Lemma star_loop_one_char ic r p cs :
  one_char ic r = Some p ->
  forall s fuel, length s <= fuel ->
    star_loop (rmatch ic r) true fuel (s, cs) =
    map (fun rest => (rest, cs)) (run_suffixes p s).
Proof.
  intros Hr. induction s as [|c t IH]; intros fuel Hl.
  - destruct fuel; [reflexivity|]. cbn [star_loop].
    rewrite (one_char_rmatch _ _ _ _ _ Hr). reflexivity.
  - destruct fuel as [|n]; [simpl in Hl; lia|]. cbn [star_loop].
    rewrite (one_char_rmatch _ _ _ _ _ Hr). cbn [run_suffixes].
    destruct (p c); [|reflexivity].
    cbn [flat_map fst length]. rewrite app_nil_r.
    assert (Hlt : Nat.ltb (length t) (S (length t)) = true)
      by (apply Nat.ltb_lt; lia).
    rewrite Hlt, IH by (simpl in Hl; lia).
    rewrite map_app. reflexivity.
Qed.

(** A greedy star over a one-character regex leaves the rests of
    [run_suffixes]. *)
Lemma star_one_char ic r p s cs :
  one_char ic r = Some p ->
  rmatch ic (Star true r) (s, cs) =
  map (fun rest => (rest, cs)) (run_suffixes p s).
Proof.
  intros Hr. cbn [rmatch fst]. apply star_loop_one_char; auto.
Qed.

Lemma lazy_loop_one_char ic r p cs :
  one_char ic r = Some p ->
  forall s fuel, length s <= fuel ->
    star_loop (rmatch ic r) false fuel (s, cs) =
    map (fun rest => (rest, cs)) (lazy_suffixes p s).
Proof.
  intros Hr. induction s as [|c t IH]; intros fuel Hl.
  - destruct fuel; [reflexivity|]. cbn [star_loop].
    rewrite (one_char_rmatch _ _ _ _ _ Hr). reflexivity.
  - destruct fuel as [|n]; [simpl in Hl; lia|]. cbn [star_loop].
    rewrite (one_char_rmatch _ _ _ _ _ Hr). cbn [lazy_suffixes map].
    destruct (p c); [|reflexivity].
    cbn [flat_map fst length]. rewrite app_nil_r.
    assert (Hlt : Nat.ltb (length t) (S (length t)) = true)
      by (apply Nat.ltb_lt; lia).
    rewrite Hlt, IH by (simpl in Hl; lia).
    reflexivity.
Qed.

Lemma lazy_one_char ic r p s cs :
  one_char ic r = Some p ->
  rmatch ic (Star false r) (s, cs) =
  map (fun rest => (rest, cs)) (lazy_suffixes p s).
Proof.
  intros Hr. cbn [rmatch fst]. apply lazy_loop_one_char; auto.
Qed.

(** Rewriting rules for sequences. *)
Lemma rmatch_seq ic a b st :
  rmatch ic (Seq a b) st = flat_map (rmatch ic b) (rmatch ic a st).
Proof. reflexivity. Qed.

Lemma rmatch_seq_assoc ic a b c st :
  rmatch ic (Seq (Seq a b) c) st = rmatch ic (Seq a (Seq b c)) st.
Proof. cbn [rmatch]. apply flat_map_flat_map. Qed.

Lemma rmatch_seq_one_char ic a b p s cs :
  one_char ic a = Some p ->
  rmatch ic (Seq a b) (s, cs) =
  match s with
  | x :: t => if p x then rmatch ic b (t, cs) else []
  | [] => []
  end.
Proof.
  intros Ha. rewrite rmatch_seq, (one_char_rmatch _ _ _ _ _ Ha).
  destruct s as [|x t]; [reflexivity|].
  destruct (p x); [|reflexivity]. cbn [flat_map]. apply app_nil_r.
Qed.

Lemma flat_map_map (A B D : Type) (f : A -> B) (g : B -> list D) l :
  flat_map g (map f l) = flat_map (fun x => g (f x)) l.
Proof. induction l; simpl; [reflexivity|]. rewrite IHl. reflexivity. Qed.

Lemma rmatch_seq_star_one_char ic a b p s cs :
  one_char ic a = Some p ->
  rmatch ic (Seq (Star true a) b) (s, cs) =
  flat_map (fun rest => rmatch ic b (rest, cs)) (run_suffixes p s).
Proof.
  intros Ha. rewrite rmatch_seq, (star_one_char _ _ _ _ _ Ha).
  apply flat_map_map.
Qed.

Lemma rmatch_seq_lazy_one_char ic a b p s cs :
  one_char ic a = Some p ->
  rmatch ic (Seq (Star false a) b) (s, cs) =
  flat_map (fun rest => rmatch ic b (rest, cs)) (lazy_suffixes p s).
Proof.
  intros Ha. rewrite rmatch_seq, (lazy_one_char _ _ _ _ _ Ha).
  apply flat_map_map.
Qed.

(** Of these rests only the empty one passes [$], and it is there when the
    whole input is in the class. *)
Lemma run_suffixes_eol ic p s (cs : captures) :
  flat_map (fun rest => rmatch ic Eol (rest, cs)) (run_suffixes p s) =
  if forallb p s then [([], cs)] else [].
Proof.
  induction s as [|c t IH]; [reflexivity|].
  cbn [run_suffixes forallb]. destruct (p c); cbn [andb].
  - rewrite flat_map_app, IH. cbn. apply app_nil_r.
  - reflexivity.
Qed.

(** ** Symbol ids of the sprite *)

Lemma ext_char_spec c :
  ext_char c = negb (cu_eqb c (ch "/")) && negb (cu_eqb c (ch ".")).
Proof.
  unfold ext_char, in_class, in_item_ic, in_item, in_range, cu_eqb.
  cbn [existsb andb orb xorb]. change (ch "/") with 47%N.
  change (ch ".") with 46%N. rewrite !orb_false_r.
  destruct (N.eqb_spec c 47) as [->|H1]; [reflexivity|].
  destruct (N.eqb_spec c 46) as [->|H2]; [reflexivity|].
  cbn [negb andb].
  destruct (47 <=? c)%N eqn:E1; destruct (c <=? 47)%N eqn:E2;
    destruct (46 <=? c)%N eqn:E3; destruct (c <=? 46)%N eqn:E4;
    try reflexivity;
    try apply N.leb_le in E1; try apply N.leb_le in E2;
    try apply N.leb_le in E3; try apply N.leb_le in E4; lia.
Qed.

(** Where /\.[^/.]+$/ matches at the head of a string: at a dot followed by
    one or more characters, none a slash or a dot, up to the end. *)
Lemma exec_extension s :
  exec_at false Sprite.re_extension s =
  match s with
  | d :: c :: t =>
      if cu_eqb (ch ".") d && ext_char c && forallb ext_char t
      then Some (length s, []) else None
  | _ => None
  end.
Proof.
  unfold exec_at, Sprite.re_extension, Seqs, Plus, C.
  set (cls := Cls true [CRange (ch "/") (ch "/"); CRange (ch ".") (ch ".")]).
  assert (Hcls : one_char false cls = Some ext_char) by reflexivity.
  rewrite (rmatch_seq_one_char false (Chr (ch ".")) _ _ s [] eq_refl).
  unfold canon.
  destruct s as [|d [|c t]]; [reflexivity| |].
  - rewrite rmatch_seq_assoc, (rmatch_seq_one_char _ _ _ _ _ _ Hcls).
    destruct (cu_eqb (ch ".") d); reflexivity.
  - rewrite rmatch_seq_assoc, (rmatch_seq_one_char _ _ _ _ _ _ Hcls).
    rewrite (rmatch_seq_star_one_char _ _ _ _ _ _ Hcls).
    rewrite run_suffixes_eol.
    destruct (cu_eqb (ch ".") d); [|reflexivity].
    destruct (ext_char c); [|reflexivity].
    destruct (forallb ext_char t); [|reflexivity].
    cbn [andb length]. reflexivity.
Qed.

Lemma forallb_ext_char s : forallb ext_char s = no_slash s && no_dot s.
Proof.
  induction s as [|c t IH]; [reflexivity|].
  cbn [forallb no_slash no_dot]. fold (no_slash t). fold (no_dot t).
  rewrite IH, ext_char_spec.
  destruct (cu_eqb c (ch "/")), (cu_eqb c (ch ".")), (no_slash t), (no_dot t);
    reflexivity.
Qed.

Lemma split_last_dot_None s : split_last_dot s = None <-> no_dot s = true.
Proof.
  induction s as [|c t IH]; [simpl; tauto|].
  cbn [split_last_dot no_dot forallb]. fold (no_dot t).
  destruct (split_last_dot t) as [[b e]|].
  - split; [discriminate|]. intros H. apply andb_prop in H.
    destruct H as [_ H]. apply IH in H. discriminate.
  - destruct (cu_eqb c (ch ".")); cbn [negb andb].
    + split; discriminate.
    + split; [intros _; apply IH; reflexivity|reflexivity].
Qed.

Lemma split_last_dot_Some s b e :
  split_last_dot s = Some (b, e) -> s = b ++ ch "." :: e /\ no_dot e = true.
Proof.
  revert b e. induction s as [|c t IH]; intros b e; [discriminate|].
  cbn [split_last_dot].
  destruct (split_last_dot t) as [[b' e']|] eqn:E.
  - intros [= <- <-]. destruct (IH _ _ eq_refl) as [-> H]. auto.
  - destruct (cu_eqb c (ch ".")) eqn:Ec; [|discriminate].
    intros [= <- <-]. apply cu_eqb_eq in Ec. subst c.
    split; [reflexivity|]. apply split_last_dot_None. exact E.
Qed.

Lemma replace_first_extension_step s :
  replace_first false Sprite.re_extension (const []) s =
  match s with
  | [] => []
  | d :: t =>
      if cu_eqb (ch ".") d && (match t with [] => false | _ :: _ => true end)
         && no_slash t && no_dot t
      then []
      else d :: replace_first false Sprite.re_extension (const []) t
  end.
Proof.
  destruct s as [|d t]; cbn [replace_first]; rewrite exec_extension;
    [reflexivity|].
  destruct t as [|c t'].
  - rewrite andb_false_r. reflexivity.
  - rewrite andb_true_r.
    rewrite <- (andb_assoc _ (no_slash (c :: t')) (no_dot (c :: t'))).
    rewrite <- forallb_ext_char. cbn [forallb].
    rewrite <- (andb_assoc _ (ext_char c)).
    destruct (cu_eqb (ch ".") d && (ext_char c && forallb ext_char t'));
      [|reflexivity].
    unfold const. cbn [app]. apply skipn_all.
Qed.

Lemma replace_first_no_dot s :
  no_dot s = true -> replace_first false Sprite.re_extension (const []) s = s.
Proof.
  induction s as [|c t IH]; intros H; rewrite replace_first_extension_step;
    [reflexivity|].
  cbn [no_dot forallb] in H. fold (no_dot t) in H.
  apply andb_prop in H. destruct H as [Hc Ht].
  rewrite (N.eqb_sym : forall a b, cu_eqb a b = cu_eqb b a).
  apply negb_true_iff in Hc. rewrite Hc. cbn [andb].
  rewrite IH; auto.
Qed.

(** The first replacement of idFromFilename removes the extension. *)
Lemma replace_first_extension name :
  replace_first false Sprite.re_extension (const []) name =
  remove_extension name.
Proof.
  unfold remove_extension.
  induction name as [|c t IH]; [reflexivity|].
  rewrite replace_first_extension_step. cbn [split_last_dot].
  destruct (split_last_dot t) as [[b e]|] eqn:E.
  - destruct (split_last_dot_Some _ _ _ E) as [Ht He].
    assert (Hd : no_dot t = false).
    { destruct (no_dot t) eqn:Hn; [|reflexivity].
      apply split_last_dot_None in Hn. congruence. }
    rewrite Hd, andb_false_r, IH.
    destruct e as [|x e']; [reflexivity|].
    destruct (no_slash (x :: e')); reflexivity.
  - assert (Hd : no_dot t = true) by (apply split_last_dot_None; exact E).
    rewrite Hd, andb_true_r.
    rewrite (N.eqb_sym : forall a b, cu_eqb a b = cu_eqb b a).
    destruct (cu_eqb c (ch ".")); cbn [andb].
    + destruct t as [|x t']; cbn [andb].
      * reflexivity.
      * destruct (no_slash (x :: t')); [reflexivity|].
        rewrite replace_first_no_dot by exact Hd. reflexivity.
    + rewrite replace_first_no_dot by exact Hd. reflexivity.
Qed.

Lemma in_range_single k c : in_range k k c = cu_eqb c k.
Proof.
  unfold in_range, cu_eqb.
  destruct (N.eqb_spec c k) as [->|H].
  - rewrite N.leb_refl. reflexivity.
  - destruct (k <=? c)%N eqn:E1; destruct (c <=? k)%N eqn:E2;
      try reflexivity.
    apply N.leb_le in E1. apply N.leb_le in E2. lia.
Qed.

Lemma unsafe_class_spec c :
  in_class false true
    [CRange (ch "a") (ch "z"); CRange (ch "A") (ch "Z");
     CRange (ch "0") (ch "9"); CRange (ch "_") (ch "_");
     CRange (ch "-") (ch "-")] c = negb (id_char c).
Proof.
  unfold in_class, in_item_ic, in_item, id_char.
  cbn [existsb andb orb xorb]. rewrite !orb_false_r, !in_range_single.
  rewrite !orb_assoc. reflexivity.
Qed.

(** The second replacement maps every code unit by [sanitize]. *)
Lemma replace_unsafe s :
  replace_all false Sprite.re_unsafe (const (str "_")) s = map sanitize s.
Proof.
  rewrite (@replace_one_char false Sprite.re_unsafe _ _ s eq_refl).
  induction s as [|c t IH]; [reflexivity|].
  cbn [flat_map map]. rewrite IH. unfold Sprite.re_unsafe.
  rewrite unsafe_class_spec. unfold sanitize, const.
  destruct (id_char c); reflexivity.
Qed.

(** C9 (idFromFilename, second part of
    src/ultra_optimized_svg_bundler.js): for every file name the symbol id
    is [e_] followed by the name without its extension (what follows the
    last dot, when that is not empty and has no slash), with every code unit
    outside [a-zA-Z0-9_-] replaced by [_]. *)
Theorem C9_symbol_id_of_file_name :
  forall name : jsstring,
    Sprite.idFromFilename name =
    str "e_" ++ map sanitize (remove_extension name).
Proof.
  intros name. unfold Sprite.idFromFilename.
  rewrite replace_first_extension, replace_unsafe. reflexivity.
Qed.

(** ** Decoding the payload of part_000 *)

Lemma run_suffixes_head p s :
  exists r l, run_suffixes p s = r :: l /\ length r <= length s.
Proof.
  induction s as [|c t (r & l & E & Hl)]; cbn [run_suffixes].
  - exists [], []. auto.
  - destruct (p c).
    + rewrite E. exists r, (l ++ [c :: t]). split; [reflexivity|].
      simpl. lia.
    + exists (c :: t), []. auto.
Qed.

(** /\s+/ matches at every white-space code unit. *)
Lemma exec_spaces_at_ws c t :
  is_ws c = true ->
  exists n cs, exec_at false re_spaces (c :: t) = Some (S n, cs).
Proof.
  intros Hc. unfold exec_at, re_spaces, Plus, space.
  rewrite (rmatch_seq_one_char false (Cls false [CSpace]) _
             (in_class false false [CSpace]) (c :: t) [] eq_refl).
  assert (Hin : in_class false false [CSpace] c = true).
  { unfold in_class, in_item_ic. cbn [existsb in_item andb orb xorb].
    rewrite Hc. reflexivity. }
  rewrite Hin.
  rewrite (star_one_char false (Cls false [CSpace])
             (in_class false false [CSpace]) t [] eq_refl).
  destruct (run_suffixes_head (in_class false false [CSpace]) t)
    as (r & l & E & Hl).
  rewrite E. cbn [map].
  exists (length t - length r), []. f_equal. f_equal.
  cbn [length]. lia.
Qed.

Lemma plain_space_str_early : Forall plain_space (str " ").
Proof. constructor; [intros _; reflexivity|constructor]. Qed.

Lemma collapse_spaces_plain s : Forall plain_space (collapse_spaces s).
Proof.
  unfold collapse_spaces, replace_all.
  apply replace_go_Forall_unmatched.
  - intros m cs. unfold const. apply plain_space_str_early.
  - intros c t H Hc.
    destruct (exec_spaces_at_ws c t Hc) as (n & cs & E).
    exfalso. exact (H n cs E).
Qed.

Lemma plain_space_not_ws c : is_ws c = false -> plain_space c.
Proof. intros H H'. congruence. Qed.

Lemma plain_space_str (w : jsstring) :
  forallb (fun c => negb (is_ws c)) w = true -> Forall plain_space w.
Proof.
  intros H. apply Forall_forall. intros x Hx.
  rewrite forallb_forall in H. specialize (H x Hx).
  apply negb_true_iff in H. apply plain_space_not_ws; exact H.
Qed.

Lemma const_plain ic r (w : jsstring) s :
  forallb (fun c => negb (is_ws c)) w = true ->
  Forall plain_space s -> Forall plain_space (replace_all ic r (const w) s).
Proof.
  intros Hw Hs. apply replace_all_Forall; [|exact Hs].
  intros m cs _ _. apply plain_space_str; exact Hw.
Qed.

(** Digits are not white space. *)
Lemma digit_char_not_ws d : (0 <= d < 36)%Z -> is_ws (digit_char d) = false.
Proof.
  intros Hd. unfold digit_char.
  assert (H : (d = 0 \/ d = 1 \/ d = 2 \/ d = 3 \/ d = 4 \/ d = 5 \/ d = 6 \/
               d = 7 \/ d = 8 \/ d = 9 \/ d = 10 \/ d = 11 \/ d = 12 \/
               d = 13 \/ d = 14 \/ d = 15 \/ d = 16 \/ d = 17 \/ d = 18 \/
               d = 19 \/ d = 20 \/ d = 21 \/ d = 22 \/ d = 23 \/ d = 24 \/
               d = 25 \/ d = 26 \/ d = 27 \/ d = 28 \/ d = 29 \/ d = 30 \/
               d = 31 \/ d = 32 \/ d = 33 \/ d = 34 \/ d = 35)%Z) by lia.
  repeat (destruct H as [->|H]; [reflexivity|]). subst; reflexivity.
Qed.

Lemma to_digits_Forall (P : cu -> Prop) radix :
  (forall d, (0 <= d < radix)%Z -> P (digit_char d)) ->
  (0 < radix)%Z ->
  forall fuel n acc, Forall P acc -> Forall P (to_digits radix fuel n acc).
Proof.
  intros Hd Hr. induction fuel as [|f IH]; intros n acc Hacc; simpl; auto.
  assert (Hc : Forall P (digit_char (n mod radix) :: acc)).
  { constructor; auto. apply Hd. apply Z.mod_pos_bound. exact Hr. }
  destruct (n <? radix)%Z; auto.
Qed.

Lemma digits_of_Forall (P : cu -> Prop) radix n :
  (forall d, (0 <= d < radix)%Z -> P (digit_char d)) ->
  (0 < radix)%Z -> Forall P (digits_of radix n).
Proof. intros. apply to_digits_Forall; auto. Qed.

Lemma repeat_cu_Forall (P : cu -> Prop) c n : P c -> Forall P (repeat_cu c n).
Proof. intros H. induction n; simpl; constructor; auto. Qed.

Lemma hex2_value_plain x : Forall plain_space (hex2_value x).
Proof.
  unfold hex2_value, padStart0. apply Forall_app. split.
  - apply repeat_cu_Forall. apply plain_space_not_ws. reflexivity.
  - unfold radix_digits. destruct (parseInt x).
    + apply digits_of_Forall; [|lia]. intros d Hd.
      apply plain_space_not_ws, digit_char_not_ws. lia.
    + apply plain_space_str. reflexivity.
    + apply plain_space_str. reflexivity.
Qed.

Lemma rgb_plain s :
  Forall plain_space s ->
  Forall plain_space (replace_all true re_rgb rgb_to_hex_value s).
Proof.
  intros Hs. apply replace_all_Forall; [|exact Hs].
  intros m cs _ _. unfold rgb_to_hex_value.
  constructor; [apply plain_space_not_ws; reflexivity|].
  repeat (apply Forall_app; split; [apply hex2_value_plain|]). constructor.
Qed.

Lemma shorten_hex_Forall (P : cu -> Prop) s :
  P (ch "#") -> Forall P s -> Forall P (shorten_hex s).
Proof.
  intros Hh Hs. unfold shorten_hex. apply replace_all_Forall; [|exact Hs].
  intros m cs _ Hcs. unfold short_hex. constructor; [exact Hh|].
  repeat (apply Forall_app; split; [apply capd_ok; exact Hcs|]).
  apply capd_ok; exact Hcs.
Qed.

(** After the white space was collapsed, the optimizer of part_000 never
    brings back a white-space code unit other than the space. *)
Lemma ultraOptimizeSVG_plain s out :
  Part0.ultraOptimizeSVG s = Some out -> Forall plain_space out.
Proof.
  rewrite Part0_ultraOptimizeSVG_value. intros [= <-].
  apply step10_Forall. unfold Part0.step9. apply Forall_trim.
  unfold Part0.step8. apply const_plain; [reflexivity|].
  unfold Part0.step7. repeat apply remove_Forall.
  apply shorten_hex_Forall; [apply plain_space_not_ws; reflexivity|].
  apply rgb_plain. unfold Part0.step5, tighten_equals, join_tags.
  apply const_plain; [reflexivity|]. apply const_plain; [reflexivity|].
  apply collapse_spaces_plain.
Qed.

Local Open Scope N_scope.

Lemma decode_go_plain f c rest :
  c <> 37 ->
  URI.decode_go (S f) (c :: rest) = option_map (cons c) (URI.decode_go f rest).
Proof.
  intros Hc. cbn [URI.decode_go]. change (ch "%") with 37.
  unfold cu_eqb. destruct (N.eqb_spec c 37); [contradiction|]. reflexivity.
Qed.

Lemma decode_go_ascii_escape f h1 h2 a b rest :
  URI.hexval h1 = Some a -> URI.hexval h2 = Some b ->
  (16 * a + b <? 128) = true ->
  URI.decode_go (S f) (37 :: h1 :: h2 :: rest) =
  option_map (cons (16 * a + b)) (URI.decode_go f rest).
Proof.
  intros H1 H2 H3. cbn [URI.decode_go]. change (ch "%") with 37.
  change (cu_eqb 37 37) with true. cbn [negb].
  unfold URI.read_pct. change (cu_eqb 37 (ch "%")) with true. cbn iota.
  rewrite H1, H2, H3. reflexivity.
Qed.

(** Decoding what [escape1] wrote gives every code unit back, white space
    as the plain space. *)
Lemma decode_go_escaped t : forall fuel,
  (length (flat_map escape1 t) <= fuel)%nat ->
  URI.decode_go fuel (flat_map escape1 t) = Some (map unescaped t).
Proof.
  induction t as [|c t IH]; intros fuel Hl.
  - destruct fuel; reflexivity.
  - cbn [flat_map map] in *. rewrite length_app in Hl.
    assert (Hesc : forall h1 h2 a b,
               escape1 c = [37; h1; h2] ->
               URI.hexval h1 = Some a -> URI.hexval h2 = Some b ->
               (16 * a + b <? 128) = true -> 16 * a + b = unescaped c ->
               URI.decode_go fuel (escape1 c ++ flat_map escape1 t) =
               Some (unescaped c :: map unescaped t)).
    { intros h1 h2 a b He H1 H2 H3 H4. rewrite He in *. cbn [length app] in *.
      destruct fuel as [|f]; [lia|].
      rewrite (decode_go_ascii_escape f h1 h2 a b _ H1 H2 H3).
      rewrite IH by lia. rewrite H4. reflexivity. }
    unfold escape1 in *. unfold cu_eqb in *. change sq with 39 in *.
    change (ch "%") with 37 in *. change (ch "#") with 35 in *.
    change (ch "<") with 60 in *. change (ch ">") with 62 in *.
    destruct (N.eqb_spec c 37) as [->|H37];
      [apply (Hesc 50 53 2 5); reflexivity|].
    destruct (N.eqb_spec c 39) as [->|H39];
      [apply (Hesc 50 55 2 7); reflexivity|].
    destruct (N.eqb_spec c 35) as [->|H35];
      [apply (Hesc 50 51 2 3); reflexivity|].
    destruct (N.eqb_spec c 60) as [->|H60];
      [apply (Hesc 51 67 3 12); reflexivity|].
    destruct (N.eqb_spec c 62) as [->|H62];
      [apply (Hesc 51 69 3 14); reflexivity|].
    destruct (is_ws c) eqn:Ews.
    + apply (Hesc 50 48 2 0); try reflexivity.
      unfold unescaped. rewrite Ews. reflexivity.
    + cbn [length app] in *. destruct fuel as [|f]; [lia|].
      rewrite decode_go_plain by exact H37.
      rewrite IH by lia. unfold unescaped. rewrite Ews. reflexivity.
Qed.

Local Close Scope N_scope.

Lemma map_unescaped_plain t : Forall plain_space t -> map unescaped t = t.
Proof.
  induction 1 as [|c t Hc Ht IH]; [reflexivity|].
  cbn [map]. rewrite IH. f_equal. unfold unescaped.
  destruct (is_ws c) eqn:E; [symmetry; apply Hc; exact E|reflexivity].
Qed.

Lemma decode_encode t :
  Forall plain_space t -> URI.decode (Part0.prefix ++ Part0.encode t) = Some t.
Proof.
  intros Ht. unfold URI.decode.
  change (starts_with Part0.prefix (Part0.prefix ++ Part0.encode t)) with true.
  cbn iota. rewrite payload_prefix_app, encode_flat_map.
  unfold URI.decodeURIComponent.
  rewrite decode_go_escaped by apply Nat.le_refl.
  rewrite map_unescaped_plain by exact Ht. reflexivity.
Qed.

(** ** Decoding what encodeURIComponent wrote *)

Section PercentOctets.

Local Open Scope N_scope.

Local Ltac div_mod := Z.to_euclidean_division_equations.
Local Ltac arith := zify; div_mod; lia.

Lemma hexval_hex_upper d : d < 16 -> URI.hexval (URI.hex_upper d) = Some d.
Proof.
  intros Hd.
  assert (H : d = 0 \/ d = 1 \/ d = 2 \/ d = 3 \/ d = 4 \/ d = 5 \/ d = 6 \/
              d = 7 \/ d = 8 \/ d = 9 \/ d = 10 \/ d = 11 \/ d = 12 \/
              d = 13 \/ d = 14 \/ d = 15) by lia.
  repeat (destruct H as [->|H]; [reflexivity|]). subst; reflexivity.
Qed.

Lemma read_pct_pct b rest :
  b < 256 -> URI.read_pct (URI.pct b ++ rest) = Some (b, rest).
Proof.
  intros Hb. unfold URI.pct, URI.read_pct. cbn [app].
  change (cu_eqb (ch "%") (ch "%")) with true. cbn iota.
  rewrite !hexval_hex_upper by arith.
  f_equal. f_equal. arith.
Qed.

Lemma read_cont_pct x rest :
  x < 64 -> URI.read_cont (URI.pct (128 + x) ++ rest) = Some (x, rest).
Proof.
  intros Hx. unfold URI.read_cont. rewrite read_pct_pct by lia.
  unfold in_range.
  assert (H1 : (128 <=? 128 + x) = true) by (apply N.leb_le; lia).
  assert (H2 : (128 + x <=? 191) = true) by (apply N.leb_le; lia).
  rewrite H1, H2. cbn [andb]. f_equal. f_equal. lia.
Qed.

Lemma decode_go_pct f b rest :
  URI.decode_go (S f) (URI.pct b ++ rest) =
  URI.decode_go (S f) (37 :: URI.hex_upper (b / 16)
                          :: URI.hex_upper (b mod 16) :: rest).
Proof. reflexivity. Qed.

Lemma length_pct b : length (URI.pct b) = 3%nat.
Proof. reflexivity. Qed.

Lemma decode_go_head f b rest :
  b < 256 ->
  URI.decode_go (S f) (URI.pct b ++ rest) =
  if b <? 128 then option_map (cons b) (URI.decode_go f rest)
  else if in_range 194 223 b then
    match URI.read_cont rest with
    | Some (x, t2) =>
        option_map (app (URI.utf16 ((b - 192) * 64 + x))) (URI.decode_go f t2)
    | None => None
    end
  else if in_range 224 239 b then
    match URI.read_cont rest with
    | Some (x, t2) =>
        match URI.read_cont t2 with
        | Some (y, t3) =>
            let cp := (b - 224) * 4096 + x * 64 + y in
            if (cp <? 2048) || in_range 55296 57343 cp then None
            else option_map (app (URI.utf16 cp)) (URI.decode_go f t3)
        | None => None
        end
    | None => None
    end
  else if in_range 240 244 b then
    match URI.read_cont rest with
    | Some (x, t2) =>
        match URI.read_cont t2 with
        | Some (y, t3) =>
            match URI.read_cont t3 with
            | Some (z, t4) =>
                let cp := (b - 240) * 262144 + x * 4096 + y * 64 + z in
                if (cp <? 65536) || (1114111 <? cp) then None
                else option_map (app (URI.utf16 cp)) (URI.decode_go f t4)
            | None => None
            end
        | None => None
        end
    | None => None
    end
  else None.
Proof.
  intros Hb. pose proof (read_pct_pct b rest Hb) as Hr.
  unfold URI.pct in *. cbn [app] in *. cbn [URI.decode_go].
  change (cu_eqb (ch "%") (ch "%")) with true. cbn [negb].
  rewrite Hr. reflexivity.
Qed.

Lemma leb_true a b : a <= b -> (a <=? b) = true.
Proof. apply N.leb_le. Qed.
Lemma leb_false a b : b < a -> (a <=? b) = false.
Proof. apply N.leb_gt. Qed.
Lemma ltb_true a b : a < b -> (a <? b) = true.
Proof. apply N.ltb_lt. Qed.
Lemma ltb_false a b : b <= a -> (a <? b) = false.
Proof. apply N.ltb_ge. Qed.

(** One octet. *)
Lemma decode_utf8_1 f c rest :
  c < 128 ->
  URI.decode_go (S f) (flat_map URI.pct (URI.utf8 c) ++ rest) =
  option_map (cons c) (URI.decode_go f rest).
Proof.
  intros Hc. unfold URI.utf8. rewrite (ltb_true c 128) by lia.
  cbn [flat_map]. rewrite app_nil_r.
  rewrite decode_go_head by lia. rewrite (ltb_true c 128) by lia.
  reflexivity.
Qed.

(** Two octets. *)
Lemma decode_utf8_2 f c rest :
  128 <= c < 2048 ->
  URI.decode_go (S f) (flat_map URI.pct (URI.utf8 c) ++ rest) =
  option_map (cons c) (URI.decode_go f rest).
Proof.
  intros Hc. unfold URI.utf8.
  rewrite (ltb_false c 128), (ltb_true c 2048) by lia.
  cbn [flat_map]. rewrite app_nil_r, <- app_assoc.
  rewrite decode_go_head by arith.
  rewrite (ltb_false (192 + c / 64) 128) by arith.
  unfold in_range at 1.
  rewrite (leb_true 194 (192 + c / 64)), (leb_true (192 + c / 64) 223)
    by arith.
  cbn [andb]. rewrite read_cont_pct by arith.
  replace ((192 + c / 64 - 192) * 64 + c mod 64) with c by arith.
  unfold URI.utf16. rewrite (ltb_true c 65536) by lia. reflexivity.
Qed.

(** Three octets. *)
Lemma decode_utf8_3 f c rest :
  2048 <= c < 65536 -> in_range 55296 57343 c = false ->
  URI.decode_go (S f) (flat_map URI.pct (URI.utf8 c) ++ rest) =
  option_map (cons c) (URI.decode_go f rest).
Proof.
  intros Hc Hs. unfold URI.utf8.
  rewrite (ltb_false c 128), (ltb_false c 2048), (ltb_true c 65536) by lia.
  cbn [flat_map]. rewrite app_nil_r, <- !app_assoc.
  rewrite decode_go_head by arith.
  rewrite (ltb_false (224 + c / 4096) 128) by arith.
  unfold in_range at 1.
  rewrite (leb_false (224 + c / 4096) 223) by arith.
  rewrite andb_false_r.
  unfold in_range at 1.
  rewrite (leb_true 224 (224 + c / 4096)), (leb_true (224 + c / 4096) 239)
    by arith.
  cbn [andb]. rewrite !read_cont_pct by arith.
  replace ((224 + c / 4096 - 224) * 4096 + (c / 64) mod 64 * 64 + c mod 64)
    with c by arith.
  cbv zeta. rewrite (ltb_false c 2048) by lia. rewrite Hs. cbn [orb].
  unfold URI.utf16. rewrite (ltb_true c 65536) by lia. reflexivity.
Qed.

(** Four octets: a surrogate pair. *)
Lemma decode_utf8_4 f hi lo rest :
  URI.is_high_surrogate hi = true -> URI.is_low_surrogate lo = true ->
  URI.decode_go (S f)
    (flat_map URI.pct (URI.utf8 (URI.pair_to_cp hi lo)) ++ rest) =
  option_map (app [hi; lo]) (URI.decode_go f rest).
Proof.
  unfold URI.is_high_surrogate, URI.is_low_surrogate, in_range.
  intros Hh Hl. apply andb_prop in Hh. apply andb_prop in Hl.
  destruct Hh as [Hh1 Hh2], Hl as [Hl1 Hl2].
  apply N.leb_le in Hh1, Hh2, Hl1, Hl2.
  set (cp := URI.pair_to_cp hi lo).
  assert (Hcp : cp = (hi - 55296) * 1024 + (lo - 56320) + 65536)
    by reflexivity.
  assert (Hr : 65536 <= cp <= 1114111) by lia.
  clearbody cp. unfold URI.utf8.
  rewrite (ltb_false cp 128), (ltb_false cp 2048), (ltb_false cp 65536)
    by lia.
  cbn [flat_map]. rewrite app_nil_r, <- !app_assoc.
  rewrite decode_go_head by arith.
  rewrite (ltb_false (240 + cp / 262144) 128) by arith.
  unfold in_range at 1.
  rewrite (leb_false (240 + cp / 262144) 223) by arith.
  rewrite andb_false_r.
  unfold in_range at 1.
  rewrite (leb_false (240 + cp / 262144) 239) by arith.
  rewrite andb_false_r.
  unfold in_range at 1.
  rewrite (leb_true 240 (240 + cp / 262144)),
    (leb_true (240 + cp / 262144) 244) by arith.
  cbn [andb]. rewrite !read_cont_pct by arith.
  replace ((240 + cp / 262144 - 240) * 262144 + (cp / 4096) mod 64 * 4096
           + (cp / 64) mod 64 * 64 + cp mod 64) with cp by arith.
  cbv zeta. rewrite (ltb_false cp 65536), (ltb_false 1114111 cp) by lia.
  cbn [orb]. unfold URI.utf16. rewrite (ltb_false cp 65536) by lia.
  replace (55296 + (cp - 65536) / 1024) with hi by arith.
  replace (56320 + (cp - 65536) mod 1024) with lo by arith.
  reflexivity.
Qed.

Lemma unreserved_not_percent c : URI.is_unreserved c = true -> c <> 37.
Proof. intros H ->. discriminate H. Qed.

End PercentOctets.

(** ** What the replacement functions write *)

Section Visible.

(** A property of code units that holds for the space and the visible
    ASCII characters, for instance being a code unit at all. *)
Variable P : cu -> Prop.
Hypothesis P_visible : forall c, (32 <= c < 127)%N -> P c.

Lemma P_str (w : jsstring) :
  forallb (fun c => (32 <=? c)%N && (c <? 127)%N) w = true -> Forall P w.
Proof.
  intros H. apply Forall_forall. intros x Hx.
  rewrite forallb_forall in H. specialize (H x Hx).
  apply andb_prop in H. destruct H as [H1 H2].
  apply N.leb_le in H1. apply N.ltb_lt in H2. apply P_visible. lia.
Qed.

Lemma P_digit_char d : (0 <= d < 36)%Z -> P (digit_char d).
Proof.
  intros Hd. apply P_visible. unfold digit_char.
  destruct (d <? 10)%Z eqn:E; [apply Z.ltb_lt in E|apply Z.ltb_ge in E]; lia.
Qed.

Lemma P_digits_of radix n :
  (0 < radix <= 36)%Z -> Forall P (digits_of radix n).
Proof.
  intros Hr. apply digits_of_Forall; [|lia].
  intros d Hd. apply P_digit_char. lia.
Qed.

Lemma P_dropWhile p (s : jsstring) : Forall P s -> Forall P (dropWhile p s).
Proof.
  induction 1 as [|c t Hc Ht IH]; simpl; [constructor|].
  destruct (p c); [exact IH|constructor; auto].
Qed.

Lemma P_strip_zeros s : Forall P s -> Forall P (strip_zeros s).
Proof.
  intros H. unfold strip_zeros.
  apply Forall_rev, P_dropWhile, Forall_rev, H.
Qed.

Lemma P_toString_large X : Forall P (toString_large X).
Proof.
  unfold toString_large.
  destruct (shortest X _ 17 1) as [s k].
  assert (Hs : Forall P (strip_zeros (dec_string s)))
    by (apply P_strip_zeros, P_digits_of; lia).
  assert (He : forall n, Forall P (str "e+" ++ dec_string n)).
  { intros n. apply Forall_app. split; [apply P_str; reflexivity|].
    apply P_digits_of; lia. }
  destruct (strip_zeros (dec_string s)) as [|d [|d' ds]].
  - apply P_str; reflexivity.
  - inversion Hs; subst. constructor; [assumption|apply He].
  - inversion Hs as [|? ? Hd Hds]; subst.
    constructor; [assumption|].
    constructor; [apply P_visible; cbv; split; congruence|].
    apply Forall_app. split; [assumption|apply He].
Qed.

Lemma P_padStart0 n s : Forall P s -> Forall P (padStart0 n s).
Proof.
  intros H. unfold padStart0. apply Forall_app. split; [|exact H].
  apply repeat_cu_Forall. apply P_visible. cbv; split; congruence.
Qed.

Lemma P_fixed f x : Forall P (fixed f x).
Proof.
  unfold fixed. destruct x as [m e| |]; try (apply P_str; reflexivity).
  destruct (ge_int m e _); [apply P_toString_large|].
  assert (H : Forall P (padStart0 (S (Z.to_nat f))
                          (dec_string (nearest_scaled f m e))))
    by (apply P_padStart0, P_digits_of; lia).
  cbv zeta. destruct (f =? 0)%Z; [exact H|].
  apply Forall_app. split; [apply Forall_firstn_P; exact H|].
  constructor; [apply P_visible; cbv; split; congruence|].
  apply Forall_skipn_P; exact H.
Qed.

Lemma P_hex2_value x : Forall P (hex2_value x).
Proof.
  unfold hex2_value. apply P_padStart0. unfold radix_digits.
  destruct (parseInt x); try (apply P_str; reflexivity).
  apply P_digits_of; lia.
Qed.

Lemma P_const ic r (w : jsstring) s :
  forallb (fun c => (32 <=? c)%N && (c <? 127)%N) w = true ->
  Forall P s -> Forall P (replace_all ic r (const w) s).
Proof.
  intros Hw Hs. apply replace_all_Forall; [|exact Hs].
  intros m cs _ _. apply P_str; exact Hw.
Qed.

Lemma P_reduce_precision s :
  Forall P s -> Forall P (replace_all false re_decimal round_decimal_value s).
Proof.
  intros Hs. apply replace_all_Forall; [|exact Hs].
  intros m cs _ _. apply P_fixed.
Qed.

Lemma P_rgb s :
  Forall P s -> Forall P (replace_all true re_rgb rgb_to_hex_value s).
Proof.
  intros Hs. apply replace_all_Forall; [|exact Hs].
  intros m cs _ _. unfold rgb_to_hex_value.
  constructor; [apply P_visible; cbv; split; congruence|].
  repeat (apply Forall_app; split; [apply P_hex2_value|]). constructor.
Qed.

Lemma P_colors s :
  Forall P s ->
  Forall P (shorten_hex (replace_all true re_rgb rgb_to_hex_value s)).
Proof.
  intros Hs. apply shorten_hex_Forall; [|apply P_rgb; exact Hs].
  apply P_visible. cbv; split; congruence.
Qed.

(** The optimizers only copy code units of their input and write the space
    and visible ASCII characters. *)
Lemma P_Ultra_optimizeSVG s out :
  Forall P s -> Ultra.optimizeSVG s = Some out -> Forall P out.
Proof.
  intros Hs. rewrite Ultra_optimizeSVG_value. intros [= <-].
  unfold Ultra.step6. repeat apply remove_Forall.
  apply P_colors. unfold Ultra.step4. apply Forall_trim.
  unfold tighten_equals, join_tags, collapse_spaces.
  repeat (apply P_const; [reflexivity|]).
  apply P_reduce_precision.
  unfold Ultra.step2, Ultra.step1. repeat apply remove_Forall. exact Hs.
Qed.

Lemma P_Part0_ultraOptimizeSVG s out :
  Forall P s -> Part0.ultraOptimizeSVG s = Some out -> Forall P out.
Proof.
  intros Hs. rewrite Part0_ultraOptimizeSVG_value. intros [= <-].
  apply step10_Forall. unfold Part0.step9. apply Forall_trim.
  unfold Part0.step8. apply P_const; [reflexivity|].
  unfold Part0.step7. repeat apply remove_Forall.
  apply P_colors. unfold Part0.step5.
  unfold tighten_equals, join_tags, collapse_spaces.
  repeat (apply P_const; [reflexivity|]).
  apply replace_all_Forall.
  - intros m cs _ Hcs. apply capd_ok; exact Hcs.
  - apply P_reduce_precision.
    unfold Part0.step3, Part0.step2, Part0.step1.
    repeat apply remove_Forall. exact Hs.
Qed.

End Visible.

Lemma option_map_Some (A B : Type) (f : A -> B) (x : option A) (y : B) :
  option_map f x = Some y -> exists a, x = Some a /\ y = f a.
Proof. destruct x; simpl; [intros [= <-]; eauto|discriminate]. Qed.

Lemma length_utf8_pct cp : 1 <= length (flat_map URI.pct (URI.utf8 cp)).
Proof.
  unfold URI.utf8.
  destruct (cp <? 128)%N, (cp <? 2048)%N, (cp <? 65536)%N; simpl; lia.
Qed.

(** decodeURIComponent gives back what encodeURIComponent was given. *)
Lemma decode_go_encoded : forall n t,
  length t <= n -> code_units t ->
  forall e fuel,
    URI.encodeURIComponent t = Some e -> length e <= fuel ->
    URI.decode_go fuel e = Some t.
Proof.
  induction n as [|n IH]; intros t Hn Hcu e fuel He Hf.
  - destruct t; [|simpl in Hn; lia]. simpl in He. inversion He; subst.
    destruct fuel; reflexivity.
  - destruct t as [|c t]; [simpl in He; inversion He; subst;
                           destruct fuel; reflexivity|].
    inversion Hcu as [|? ? Hc Hcu']; subst.
    cbn [URI.encodeURIComponent] in He. simpl in Hn.
    destruct (URI.is_unreserved c) eqn:Eu.
    { apply option_map_Some in He. destruct He as (e' & He' & ->).
      destruct fuel as [|f]; [simpl in Hf; lia|]. simpl in Hf.
      rewrite decode_go_plain by (apply unreserved_not_percent; exact Eu).
      rewrite (IH t) with (e := e'); auto; lia. }
    destruct (URI.is_low_surrogate c) eqn:El; [discriminate|].
    destruct (URI.is_high_surrogate c) eqn:Eh.
    { destruct t as [|d t']; [discriminate|].
      destruct (URI.is_low_surrogate d) eqn:Ed; [|discriminate].
      apply option_map_Some in He. destruct He as (e' & He' & ->).
      inversion Hcu' as [|? ? Hd Hcu'']; subst.
      rewrite length_app in Hf.
      pose proof (length_utf8_pct (URI.pair_to_cp c d)) as Hlen.
      destruct fuel as [|f]; [lia|].
      rewrite decode_utf8_4 by assumption.
      rewrite (IH t') with (e := e'); auto; simpl in Hn; lia. }
    apply option_map_Some in He. destruct He as (e' & He' & ->).
    rewrite length_app in Hf.
    pose proof (length_utf8_pct c) as Hlen.
    destruct fuel as [|f]; [lia|].
    assert (Hrest : URI.decode_go f e' = Some t).
    { apply (IH t); auto; lia. }
    assert (Hns : in_range 55296 57343 c = false).
    { unfold URI.is_low_surrogate, URI.is_high_surrogate, in_range in *.
      destruct (55296 <=? c)%N eqn:E1; destruct (c <=? 57343)%N eqn:E2;
        try reflexivity.
      destruct (c <=? 56319)%N eqn:E3; destruct (56320 <=? c)%N eqn:E4;
        try discriminate.
      apply N.leb_gt in E3. apply N.leb_gt in E4. lia. }
    destruct (N.lt_ge_cases c 128) as [H1|H1].
    { rewrite decode_utf8_1, Hrest by exact H1. reflexivity. }
    destruct (N.lt_ge_cases c 2048) as [H2|H2].
    { rewrite decode_utf8_2, Hrest by lia. reflexivity. }
    rewrite decode_utf8_3, Hrest by (try lia; exact Hns). reflexivity.
Qed.

Lemma decodeURIComponent_encodeURIComponent t e :
  code_units t ->
  URI.encodeURIComponent t = Some e -> URI.decodeURIComponent e = Some t.
Proof.
  intros Hcu He. unfold URI.decodeURIComponent.
  apply (decode_go_encoded (length t) t (Nat.le_refl _) Hcu e _ He).
  apply Nat.le_refl.
Qed.

(** ** Decimal precision *)

Lemma run_suffixes_app p w post :
  forallb p w = true -> head_is p post = false ->
  exists tl, run_suffixes p (w ++ post) = post :: tl /\
             Forall (fun r => head_is p r = true) tl.
Proof.
  intros Hw Hp. induction w as [|c w IH].
  - exists []. split; [|constructor]. destruct post as [|x t]; [reflexivity|].
    simpl in *. rewrite Hp. reflexivity.
  - cbn [forallb] in Hw. apply andb_prop in Hw. destruct Hw as [Hc Hw].
    destruct (IH Hw) as (tl & E & Htl).
    exists (tl ++ [c :: w ++ post]). cbn [app run_suffixes].
    rewrite Hc, E. split; [reflexivity|].
    apply Forall_app. split; [exact Htl|]. repeat constructor. exact Hc.
Qed.

Lemma flat_map_all_nil (A B : Type) (f : A -> list B) l :
  Forall (fun x => f x = []) l -> flat_map f l = [].
Proof. induction 1 as [|x l Hx Hl IH]; simpl; [|rewrite Hx, IH]; reflexivity. Qed.

Lemma digit_is_not_dot c : is_digit c = true -> cu_eqb (ch ".") c = false.
Proof.
  unfold is_digit, in_range, cu_eqb. change (ch ".") with 46%N. intros H.
  apply andb_prop in H. destruct H as [H _]. apply N.leb_le in H.
  apply N.eqb_neq. lia.
Qed.

Lemma digit_class c : in_class false false [CDigit] c = is_digit c.
Proof.
  unfold in_class, in_item_ic. cbn [existsb in_item andb orb xorb].
  rewrite !orb_false_r. reflexivity.
Qed.

Lemma forallb_digit_class s :
  forallb (in_class false false [CDigit]) s = all_digits s.
Proof.
  induction s as [|c t IH]; [reflexivity|].
  cbn [forallb all_digits]. fold (all_digits t). rewrite IH, digit_class.
  reflexivity.
Qed.

Lemma head_digit_class s :
  head_is (in_class false false [CDigit]) s = starts_with_digit s.
Proof. destruct s; [reflexivity|apply digit_class]. Qed.

Lemma rmatch_group ic i a st :
  rmatch ic (Group i a) st =
  map (fun st' =>
         (fst st',
          (i, firstn (length (fst st) - length (fst st')) (fst st)) :: snd st'))
      (rmatch ic a st).
Proof. reflexivity. Qed.

Lemma firstn_app_minus (A : Type) (w post : list A) :
  firstn (length (w ++ post) - length post) (w ++ post) = w.
Proof.
  rewrite length_app, Nat.add_sub, firstn_app, Nat.sub_diag, firstn_all.
  cbn [firstn]. apply app_nil_r.
Qed.

(** \d+\.\d{3,} at the head of a literal: the first way to match takes the
    whole literal, up to the first code unit that is not a digit. *)
Lemma rmatch_decimal ip fp post :
  ip <> [] -> all_digits ip = true -> all_digits fp = true ->
  3 <= length fp -> starts_with_digit post = false ->
  exists tl,
    rmatch false (Seqs [Plus true digit; C "."; AtLeast3 digit])
           ((ip ++ ch "." :: fp) ++ post, []) = (post, []) :: tl.
Proof.
  intros Hne Hip Hfp Hlen Hpost.
  set (dcls := in_class false false [CDigit]).
  assert (Hd : one_char false digit = Some dcls) by reflexivity.
  assert (Hdot : one_char false (C ".") =
                 Some (fun x => cu_eqb (ch ".") x)) by reflexivity.
  destruct ip as [|i0 ip]; [congruence|].
  cbn [all_digits forallb] in Hip. apply andb_prop in Hip.
  destruct Hip as [Hi0 Hip].
  destruct fp as [|f0 [|f1 [|f2 fp]]]; try (simpl in Hlen; lia).
  cbn [all_digits forallb] in Hfp.
  apply andb_prop in Hfp. destruct Hfp as [Hf0 Hfp].
  apply andb_prop in Hfp. destruct Hfp as [Hf1 Hfp].
  apply andb_prop in Hfp. destruct Hfp as [Hf2 Hfp].
  unfold Seqs, Plus, AtLeast3.
  rewrite <- app_assoc. cbn [app].
  rewrite rmatch_seq_assoc.
  rewrite (rmatch_seq_one_char _ _ _ _ _ _ Hd).
  unfold dcls at 1. rewrite digit_class, Hi0.
  rewrite (rmatch_seq_star_one_char _ _ _ _ _ _ Hd).
  destruct (run_suffixes_app dcls ip (ch "." :: f0 :: f1 :: f2 :: fp ++ post))
    as (tl & E & Htl).
  { unfold dcls. rewrite forallb_digit_class. exact Hip. }
  { reflexivity. }
  rewrite E. cbn [flat_map].
  rewrite (flat_map_all_nil _ _ _ tl).
  2:{ eapply Forall_impl; [|exact Htl]. intros r Hr.
      rewrite (rmatch_seq_one_char _ _ _ _ _ _ Hdot).
      destruct r as [|x r]; [reflexivity|]. cbn [head_is] in Hr.
      unfold dcls in Hr. rewrite digit_class in Hr.
      rewrite (digit_is_not_dot _ Hr). reflexivity. }
  rewrite app_nil_r.
  rewrite (rmatch_seq_one_char _ _ _ _ _ _ Hdot).
  change (cu_eqb (ch ".") (ch ".")) with true. cbn iota.
  rewrite (rmatch_seq_one_char _ _ _ _ _ _ Hd).
  unfold dcls at 1. rewrite digit_class, Hf0.
  rewrite (rmatch_seq_one_char _ _ _ _ _ _ Hd).
  unfold dcls at 1. rewrite digit_class, Hf1.
  rewrite (rmatch_seq_one_char _ _ _ _ _ _ Hd).
  unfold dcls at 1. rewrite digit_class, Hf2.
  rewrite (star_one_char _ _ _ _ _ Hd).
  destruct (run_suffixes_app dcls fp post) as (tl2 & E2 & _).
  { unfold dcls. rewrite forallb_digit_class. exact Hfp. }
  { unfold dcls. rewrite head_digit_class. exact Hpost. }
  rewrite E2. cbn [map]. eexists. reflexivity.
Qed.

(** /(\d+\.\d{3,})/ matches the whole literal and captures it. *)
Lemma exec_decimal ip fp post :
  ip <> [] -> all_digits ip = true -> all_digits fp = true ->
  3 <= length fp -> starts_with_digit post = false ->
  exec_at false re_decimal ((ip ++ ch "." :: fp) ++ post) =
  Some (length (ip ++ ch "." :: fp), [(1, ip ++ ch "." :: fp)]).
Proof.
  intros Hne Hip Hfp Hlen Hpost.
  destruct (rmatch_decimal ip fp post Hne Hip Hfp Hlen Hpost) as (tl & E).
  unfold exec_at, re_decimal. rewrite rmatch_group, E.
  cbn [map fst snd]. rewrite firstn_app_minus.
  rewrite length_app, Nat.add_sub. reflexivity.
Qed.

Lemma replace_go_skip ic r f w post :
  replace_go ic r f (w ++ post) (length w) = replace_go ic r f post 0.
Proof. induction w as [|c w IH]; [reflexivity|]. cbn [app length replace_go]. exact IH. Qed.

(** At a match the replacement is written and the scan resumes after it. *)
Lemma replace_go_match ic r f w post cs :
  w <> [] ->
  exec_at ic r (w ++ post) = Some (length w, cs) ->
  replace_go ic r f (w ++ post) 0 = f w cs ++ replace_go ic r f post 0.
Proof.
  intros Hne He. destruct w as [|c w]; [congruence|].
  cbn [app length] in *. cbn [replace_go]. rewrite He.
  cbn [firstn]. rewrite firstn_app, Nat.sub_diag, firstn_all.
  cbn [firstn]. rewrite app_nil_r. f_equal. apply replace_go_skip.
Qed.

Lemma reduce_precision_literal ip fp post :
  ip <> [] -> all_digits ip = true -> all_digits fp = true ->
  3 <= length fp -> starts_with_digit post = false ->
  replace_all false re_decimal round_decimal_value
              ((ip ++ ch "." :: fp) ++ post) =
  fixed PRECISION (parseFloat (ip ++ ch "." :: fp))
  ++ replace_all false re_decimal round_decimal_value post.
Proof.
  intros Hne Hip Hfp Hlen Hpost. unfold replace_all.
  rewrite (replace_go_match false re_decimal round_decimal_value
             (ip ++ ch "." :: fp) post [(1, ip ++ ch "." :: fp)]).
  - reflexivity.
  - destruct ip; [congruence|discriminate].
  - apply exec_decimal; assumption.
Qed.

Lemma run_suffixes_Forall (Q : cu -> Prop) p s :
  Forall Q s -> Forall (Forall Q) (run_suffixes p s).
Proof.
  induction 1 as [|c t Hc Ht IH]; cbn [run_suffixes].
  - repeat constructor.
  - destruct (p c).
    + apply Forall_app. split; [exact IH|]. repeat constructor; assumption.
    + repeat constructor; assumption.
Qed.

(** Without a dot there is no match. *)
Lemma exec_decimal_no_dot s :
  no_dot s = true -> exec_at false re_decimal s = None.
Proof.
  intros Hs.
  assert (Hd : one_char false digit =
               Some (in_class false false [CDigit])) by reflexivity.
  assert (Hdot : one_char false (C ".") =
                 Some (fun x => cu_eqb (ch ".") x)) by reflexivity.
  unfold exec_at, re_decimal. rewrite rmatch_group.
  unfold Seqs, Plus. rewrite rmatch_seq_assoc.
  rewrite (rmatch_seq_one_char _ _ _ _ _ _ Hd).
  destruct s as [|c t]; [reflexivity|].
  destruct (in_class false false [CDigit] c); [|reflexivity].
  rewrite (rmatch_seq_star_one_char _ _ _ _ _ _ Hd).
  rewrite flat_map_all_nil; [reflexivity|].
  cbn [no_dot forallb] in Hs. apply andb_prop in Hs. destruct Hs as [_ Ht].
  assert (Hq : Forall (fun x => cu_eqb (ch ".") x = false) t).
  { apply Forall_forall. intros x Hx. unfold no_dot in Ht.
    rewrite forallb_forall in Ht. specialize (Ht x Hx).
    apply negb_true_iff in Ht.
    rewrite (N.eqb_sym : forall a b, cu_eqb a b = cu_eqb b a). exact Ht. }
  eapply Forall_impl; [|exact (run_suffixes_Forall _ _ t Hq)].
  intros r Hr. rewrite (rmatch_seq_one_char _ _ _ _ _ _ Hdot).
  destruct r as [|x r]; [reflexivity|]. inversion Hr; subst.
  rewrite H1. reflexivity.
Qed.

Lemma reduce_precision_no_dot s :
  no_dot s = true ->
  replace_all false re_decimal round_decimal_value s = s.
Proof.
  unfold replace_all. induction s as [|c t IH]; intros Hs.
  - cbn [replace_go]. rewrite (exec_decimal_no_dot [] Hs). reflexivity.
  - cbn [replace_go]. rewrite (exec_decimal_no_dot _ Hs).
    cbn [no_dot forallb] in Hs. apply andb_prop in Hs.
    destruct Hs as [_ Ht]. rewrite IH by exact Ht. reflexivity.
Qed.

Lemma all_digits_no_dot s : all_digits s = true -> no_dot s = true.
Proof.
  unfold all_digits, no_dot. rewrite !forallb_forall. intros H x Hx.
  specialize (H x Hx). apply negb_true_iff.
  rewrite (N.eqb_sym : forall a b, cu_eqb a b = cu_eqb b a).
  apply digit_is_not_dot. exact H.
Qed.

(** *** Digits and their values *)

Local Open Scope Z_scope.

Lemma fold_dec_value l : forall acc,
  fold_left (fun a c => 10 * a + digit_val c) l acc =
  acc * 10 ^ Z.of_nat (length l) + dec_value l.
Proof.
  unfold dec_value. induction l as [|c l IH]; intros acc.
  - simpl. lia.
  - cbn [fold_left length]. rewrite IH, (IH (10 * 0 + digit_val c)).
    rewrite Nat2Z.inj_succ, Z.pow_succ_r by lia. ring.
Qed.

Lemma dec_value_cons c l :
  dec_value (c :: l) = digit_val c * 10 ^ Z.of_nat (length l) + dec_value l.
Proof.
  unfold dec_value at 1. cbn [fold_left]. rewrite fold_dec_value. ring.
Qed.

Lemma dec_value_app a b :
  dec_value (a ++ b) = dec_value a * 10 ^ Z.of_nat (length b) + dec_value b.
Proof.
  unfold dec_value at 1 2. rewrite fold_left_app, fold_dec_value.
  reflexivity.
Qed.

Lemma digit_val_digit c : is_digit c = true -> 0 <= digit_val c <= 9.
Proof.
  unfold is_digit, in_range, digit_val. intros H. apply andb_prop in H.
  destruct H as [H1 H2]. apply N.leb_le in H1. apply N.leb_le in H2. lia.
Qed.

Lemma dec_value_nonneg s : all_digits s = true -> 0 <= dec_value s.
Proof.
  induction s as [|c t IH]; intros H; [unfold dec_value; simpl; lia|].
  cbn [all_digits forallb] in H. apply andb_prop in H. destruct H as [Hc Ht].
  rewrite dec_value_cons. pose proof (digit_val_digit c Hc).
  specialize (IH Ht).
  assert (0 <= 10 ^ Z.of_nat (length t)) by (apply Z.pow_nonneg; lia). nia.
Qed.

Lemma digit_char_decimal d :
  0 <= d < 10 -> is_digit (digit_char d) = true /\ digit_val (digit_char d) = d.
Proof.
  intros Hd. unfold digit_char, is_digit, in_range, digit_val.
  destruct (d <? 10) eqn:E; [|apply Z.ltb_ge in E; lia].
  split; [|lia]. apply andb_true_intro. split; apply N.leb_le; lia.
Qed.

Lemma to_digits_decimal fuel : forall n acc,
  0 <= n < 10 ^ Z.of_nat fuel ->
  all_digits acc = true ->
  all_digits (to_digits 10 fuel n acc) = true /\
  dec_value (to_digits 10 fuel n acc) =
  n * 10 ^ Z.of_nat (length acc) + dec_value acc.
Proof.
  induction fuel as [|f IH]; intros n acc Hn Hacc.
  - simpl in *. split; [exact Hacc|]. assert (n = 0) by lia. subst. lia.
  - cbn [to_digits].
    assert (Hm : 0 <= n mod 10 < 10) by (apply Z.mod_pos_bound; lia).
    destruct (digit_char_decimal _ Hm) as [Hd1 Hd2].
    assert (Hacc' : all_digits (digit_char (n mod 10) :: acc) = true).
    { cbn [all_digits forallb]. rewrite Hd1. exact Hacc. }
    destruct (n <? 10) eqn:E.
    + apply Z.ltb_lt in E. split; [exact Hacc'|].
      rewrite dec_value_cons, Hd2. rewrite Z.mod_small by lia. reflexivity.
    + apply Z.ltb_ge in E.
      assert (Hq : 0 <= n / 10 < 10 ^ Z.of_nat f).
      { rewrite Nat2Z.inj_succ, Z.pow_succ_r in Hn by lia.
        split; [apply Z.div_pos; lia|].
        apply Z.div_lt_upper_bound; lia. }
      destruct (IH (n / 10) _ Hq Hacc') as [H1 H2].
      split; [exact H1|]. rewrite H2, dec_value_cons, Hd2.
      cbn [length]. rewrite Nat2Z.inj_succ, Z.pow_succ_r by lia.
      pose proof (Z.div_mod n 10 ltac:(lia)) as Hdm.
      set (p := 10 ^ Z.of_nat (length acc)) in *. nia.
Qed.

Lemma dec_string_spec n :
  0 <= n -> all_digits (dec_string n) = true /\ dec_value (dec_string n) = n.
Proof.
  intros Hn. unfold dec_string, digits_of.
  assert (Hb : 0 <= n < 10 ^ Z.of_nat (S (Z.to_nat (Z.log2 n)))).
  { split; [exact Hn|].
    rewrite Nat2Z.inj_succ, Z2Nat.id by apply Z.log2_nonneg.
    destruct (Z.eq_dec n 0) as [->|Hz]; [simpl; lia|].
    pose proof (Z.log2_spec n ltac:(lia)) as [_ H2].
    eapply Z.lt_le_trans; [exact H2|].
    apply Z.pow_le_mono_l. pose proof (Z.log2_nonneg n). lia. }
  destruct (to_digits_decimal _ n [] Hb eq_refl) as [H1 H2].
  split; [exact H1|]. rewrite H2. unfold dec_value. simpl. lia.
Qed.

Lemma length_repeat_cu c n : length (repeat_cu c n) = n.
Proof. induction n; simpl; congruence. Qed.

Lemma padStart0_spec k s :
  all_digits s = true ->
  all_digits (padStart0 k s) = true /\
  dec_value (padStart0 k s) = dec_value s /\
  (k <= length (padStart0 k s))%nat.
Proof.
  intros Hs. unfold padStart0.
  assert (Hz : forall n, all_digits (repeat_cu (ch "0") n) = true /\
                         dec_value (repeat_cu (ch "0") n) = 0).
  { induction n as [|n [IH1 IH2]]; [split; reflexivity|].
    cbn [repeat_cu]. split; [exact IH1|].
    rewrite dec_value_cons, IH2. reflexivity. }
  destruct (Hz (k - length s)%nat) as [H1 H2].
  split; [|split].
  - unfold all_digits in *. rewrite forallb_app, H1. exact Hs.
  - rewrite dec_value_app, H2. lia.
  - rewrite length_app, length_repeat_cu. lia.
Qed.

(** Below 10^21, toFixed(2) writes digits, a point and two digits, whose
    value is the integer nearest to a hundred times the number. *)
Lemma fixed2_shape m e :
  0 <= m -> ge_int m e (10 ^ 21) = false ->
  exists a b,
    fixed PRECISION (Finite m e) = a ++ ch "." :: b /\
    a <> [] /\ all_digits a = true /\ all_digits b = true /\
    length b = 2%nat /\
    dec_value (a ++ b) = nearest_scaled 2 m e.
Proof.
  intros Hm Hlt. unfold fixed, PRECISION. rewrite Hlt.
  change (Z.to_nat 2) with 2%nat. change (2 =? 0) with false. cbv zeta iota.
  assert (Hn : 0 <= nearest_scaled 2 m e).
  { unfold nearest_scaled. destruct (0 <=? e) eqn:E.
    - apply Z.leb_le in E.
      assert (0 <= 2 ^ e) by (apply Z.pow_nonneg; lia). nia.
    - apply Z.leb_gt in E.
      assert (0 < 2 ^ (- e)) by (apply Z.pow_pos_nonneg; lia).
      apply Z.div_pos; nia. }
  destruct (dec_string_spec _ Hn) as [Hd Hv].
  destruct (padStart0_spec 3 _ Hd) as (Hp1 & Hp2 & Hp3).
  set (ds := padStart0 3 (dec_string (nearest_scaled 2 m e))) in *.
  exists (firstn (length ds - 2) ds), (skipn (length ds - 2) ds).
  split; [reflexivity|].
  assert (Hall : all_digits (firstn (length ds - 2) ds ++
                             skipn (length ds - 2) ds) = true)
    by (rewrite firstn_skipn; exact Hp1).
  unfold all_digits in Hall. rewrite forallb_app in Hall.
  apply andb_prop in Hall. destruct Hall as [Ha Hb].
  split; [|split; [exact Ha|split; [exact Hb|split]]].
  - intros H0. apply (f_equal (@length N)) in H0.
    rewrite length_firstn in H0. simpl in H0. lia.
  - rewrite length_skipn. lia.
  - rewrite firstn_skipn, Hp2. exact Hv.
Qed.


Local Close Scope Z_scope.

Lemma takeWhile_app p w post :
  forallb p w = true -> head_is p post = false ->
  takeWhile p (w ++ post) = w /\ dropWhile p (w ++ post) = post.
Proof.
  intros Hw Hp. induction w as [|c w IH].
  - destruct post as [|x t]; [split; reflexivity|].
    simpl in *. rewrite Hp. split; reflexivity.
  - cbn [forallb] in Hw. apply andb_prop in Hw. destruct Hw as [Hc Hw].
    destruct (IH Hw) as [H1 H2]. cbn [app takeWhile dropWhile].
    rewrite Hc. fold (takeWhile p). fold (dropWhile p).
    rewrite H1, H2. split; reflexivity.
Qed.

(** parseFloat reads the whole literal: its value is the binary64 number
    nearest to the decimal. *)
Lemma parseFloat_literal ip fp :
  ip <> [] -> all_digits ip = true -> all_digits fp = true ->
  parseFloat (ip ++ ch "." :: fp) =
  round64 (dec_value (ip ++ fp)) (10 ^ Z.of_nat (length fp)).
Proof.
  intros Hne Hip Hfp. unfold parseFloat.
  destruct (takeWhile_app is_digit ip (ch "." :: fp) Hip eq_refl) as [H1 H2].
  rewrite H1, H2. change (cu_eqb (ch ".") (ch ".")) with true. cbn iota.
  destruct (takeWhile_app is_digit fp [] Hfp eq_refl) as [H3 _].
  rewrite app_nil_r in H3. rewrite H3.
  destruct ip as [|i0 ip]; [congruence|]. reflexivity.
Qed.

Lemma round64_nonneg n d m e :
  (0 <= n)%Z -> (0 < d)%Z -> round64 n d = Finite m e -> (0 <= m)%Z.
Proof.
  intros Hn Hd. unfold round64.
  destruct (n =? 0)%Z; [intros [= <- <-]; lia|].
  destruct (scaled_div n d _) as [[q1 r1] den1].
  set (e' := Z.max _ _).
  destruct (scaled_div n d e') as [[q r] den] eqn:E.
  assert (Hq : (0 <= q)%Z).
  { unfold scaled_div in E. inversion E; subst.
    destruct (0 <=? e')%Z eqn:Ee.
    - apply Z.leb_le in Ee. apply Z.div_pos; [lia|].
      assert (0 < 2 ^ e')%Z by (apply Z.pow_pos_nonneg; lia). nia.
    - apply Z.leb_gt in Ee. apply Z.div_pos; [|lia].
      assert (0 < 2 ^ (- e'))%Z by (apply Z.pow_pos_nonneg; lia). nia. }
  destruct (_ || _); destruct (_ && _); intros [= <- <-]; lia.
Qed.

(** ** Colors *)

Lemma rmatch_seq_star_skip ic a K p s cs :
  one_char ic a = Some p -> head_is p s = false ->
  rmatch ic (Seq (Star true a) K) (s, cs) = rmatch ic K (s, cs).
Proof.
  intros Ha Hs. rewrite (rmatch_seq_star_one_char _ _ _ _ _ _ Ha).
  destruct s as [|x t]; cbn [run_suffixes flat_map].
  - apply app_nil_r.
  - cbn [head_is] in Hs. rewrite Hs. cbn [flat_map]. apply app_nil_r.
Qed.

Lemma firstn_one (A : Type) (x : A) (t : list A) :
  firstn (length (x :: t) - length t) (x :: t) = [x].
Proof. rewrite length_cons_minus. reflexivity. Qed.

Lemma rmatch_seq_group_one ic i a K p x t cs :
  one_char ic a = Some p ->
  rmatch ic (Seq (Group i a) K) (x :: t, cs) =
  if p x then rmatch ic K (t, (i, [x]) :: cs) else [].
Proof.
  intros Ha. rewrite rmatch_seq, rmatch_group.
  rewrite (one_char_rmatch _ _ _ _ _ Ha).
  destruct (p x); [|reflexivity]. cbn [map flat_map fst snd].
  rewrite firstn_one. apply app_nil_r.
Qed.

Lemma rmatch_backref_one ic i y x t cs :
  cap i cs = Some [y] ->
  rmatch ic (Backref i) (x :: t, cs) =
  if cu_eqb (canon ic y) (canon ic x) then [(t, cs)] else [].
Proof.
  intros Hc. cbn [rmatch fst snd]. rewrite Hc. cbn [prefix_ic].
  destruct (cu_eqb _ _); reflexivity.
Qed.

Lemma rmatch_seq_backref_one ic i K y x t cs :
  cap i cs = Some [y] ->
  rmatch ic (Seq (Backref i) K) (x :: t, cs) =
  if cu_eqb (canon ic y) (canon ic x) then rmatch ic K (t, cs) else [].
Proof.
  intros Hc. rewrite rmatch_seq, (rmatch_backref_one _ _ _ _ _ _ Hc).
  destruct (cu_eqb _ _); [|reflexivity]. cbn [flat_map]. apply app_nil_r.
Qed.

Lemma replace_go_cons0 ic r f c t :
  replace_go ic r f (c :: t) 0 =
  match exec_at ic r (c :: t) with
  | Some (n, cs) =>
      f (firstn n (c :: t)) cs ++
      match n with
      | O => c :: replace_go ic r f t 0
      | S k => replace_go ic r f t k
      end
  | None => c :: replace_go ic r f t 0
  end.
Proof. reflexivity. Qed.

Lemma replace_go_nil ic r f :
  exec_at ic r [] = None -> replace_go ic r f [] 0 = [].
Proof. intros H. cbn [replace_go]. rewrite H. reflexivity. Qed.

(** Case analysis on every comparison of code units in sight. *)
Ltac split_comparisons :=
  repeat match goal with
  | |- context [(?a <=? ?b)%N] => destruct (N.leb_spec a b)
  | H : context [(?a <=? ?b)%N] |- _ => destruct (N.leb_spec a b)
  | |- context [(?a =? ?b)%N] => destruct (N.eqb_spec a b)
  | H : context [(?a =? ?b)%N] |- _ => destruct (N.eqb_spec a b)
  end;
  cbn [andb orb negb xorb] in *;
  try discriminate; try reflexivity; try lia.

Lemma hexdigit_class c :
  in_class true false [CRange (ch "0") (ch "9"); CRange (ch "a") (ch "f")] c
  = is_hex_digit c.
Proof.
  unfold in_class, in_item_ic, in_item, is_hex_digit, in_range,
    ascii_upper, ascii_lower, in_range.
  cbn [existsb andb orb xorb].
  change (ch "0") with 48%N. change (ch "9") with 57%N.
  change (ch "a") with 97%N. change (ch "f") with 102%N.
  change (ch "A") with 65%N. change (ch "F") with 70%N.
  destruct (N.leb_spec 97 c), (N.leb_spec c 122), (N.leb_spec 65 c),
    (N.leb_spec c 90); cbn [andb]; split_comparisons.
Qed.

Lemma hex_digit_not_hash x :
  is_hex_digit x = true -> cu_eqb (canon true (ch "#")) (canon true x) = false.
Proof.
  unfold is_hex_digit, in_range, canon, ascii_upper, in_range, cu_eqb.
  change (ch "0") with 48%N. change (ch "9") with 57%N.
  change (ch "a") with 97%N. change (ch "f") with 102%N.
  change (ch "A") with 65%N. change (ch "F") with 70%N.
  change (ch "#") with 35%N. intros H.
  change ((97 <=? 35)%N && (35 <=? 122)%N) with false. cbv iota.
  apply N.eqb_neq.
  destruct (N.leb_spec 97 x), (N.leb_spec x 122); cbn [andb] in *;
    split_comparisons.
Qed.

(** The shorthand regex does not match where there is no [#]. *)
Lemma exec_hex6_not_hash x t :
  cu_eqb (canon true (ch "#")) (canon true x) = false ->
  exec_at true re_hex6 (x :: t) = None.
Proof.
  intros H. unfold exec_at, re_hex6, Seqs, C.
  rewrite (rmatch_seq_one_char true (Chr (ch "#")) _ _ _ _ eq_refl).
  rewrite H. reflexivity.
Qed.

Lemma exec_hex6_nil : exec_at true re_hex6 [] = None.
Proof. reflexivity. Qed.

Lemma shorten_hex_digits_only s :
  forallb is_hex_digit s = true -> replace_go true re_hex6 short_hex s 0 = s.
Proof.
  induction s as [|x t IH]; intros H; [reflexivity|].
  cbn [forallb] in H. apply andb_prop in H. destruct H as [Hx Ht].
  rewrite replace_go_cons0, (exec_hex6_not_hash x t (hex_digit_not_hash x Hx)).
  rewrite IH by exact Ht. reflexivity.
Qed.

(** Where /#([0-9a-f])\1([0-9a-f])\2([0-9a-f])\3/i matches at a [#] with
    six hex digits: when each pair has the same digit. *)
Lemma exec_hex6 a b c d e f t :
  is_hex_digit a = true -> is_hex_digit c = true -> is_hex_digit e = true ->
  exec_at true re_hex6 (ch "#" :: a :: b :: c :: d :: e :: f :: t) =
  if same_digit a b && same_digit c d && same_digit e f
  then Some (7, [(3, [e]); (2, [c]); (1, [a])]) else None.
Proof.
  intros Ha Hc He. unfold exec_at, re_hex6, Seqs, C.
  assert (Hh : one_char true hexdigit =
               Some (in_class true false [CRange (ch "0") (ch "9");
                                          CRange (ch "a") (ch "f")]))
    by reflexivity.
  rewrite (rmatch_seq_one_char true (Chr (ch "#")) _ _ _ _ eq_refl).
  change (cu_eqb (canon true (ch "#")) (canon true (ch "#"))) with true.
  cbv iota.
  rewrite (rmatch_seq_group_one _ _ _ _ _ _ _ _ Hh), hexdigit_class, Ha.
  rewrite (rmatch_seq_backref_one true 1 _ a b _ [(1, [a])] eq_refl).
  change (cu_eqb (canon true a) (canon true b)) with (same_digit a b). destruct (same_digit a b); [|reflexivity].
  rewrite (rmatch_seq_group_one _ _ _ _ _ _ _ _ Hh), hexdigit_class, Hc.
  rewrite (rmatch_seq_backref_one true 2 _ c d _ [(2, [c]); (1, [a])] eq_refl).
  change (cu_eqb (canon true c) (canon true d)) with (same_digit c d). destruct (same_digit c d); [|reflexivity].
  rewrite (rmatch_seq_group_one _ _ _ _ _ _ _ _ Hh), hexdigit_class, He.
  rewrite (rmatch_backref_one true 3 e f _ [(3, [e]); (2, [c]); (1, [a])] eq_refl).
  change (cu_eqb (canon true e) (canon true f)) with (same_digit e f). destruct (same_digit e f); [|reflexivity].
  cbn [andb length]. f_equal. f_equal.
  destruct (length t); [reflexivity|]. lia.
Qed.

(** A [#] with six hex digits collapses exactly when each pair has the same
    digit. *)
Lemma shorten_hex_six a b c d e f :
  forallb is_hex_digit [a; b; c; d; e; f] = true ->
  shorten_hex [ch "#"; a; b; c; d; e; f] =
  if same_digit a b && same_digit c d && same_digit e f
  then [ch "#"; a; c; e] else [ch "#"; a; b; c; d; e; f].
Proof.
  intros H. pose proof H as H'. cbn [forallb] in H'.
  repeat (apply andb_prop in H'; destruct H' as [? H']).
  unfold shorten_hex, replace_all.
  rewrite replace_go_cons0, exec_hex6 by assumption.
  destruct (same_digit a b && same_digit c d && same_digit e f).
  - change (replace_go true re_hex6 short_hex [a; b; c; d; e; f] 6)
      with (replace_go true re_hex6 short_hex ([a; b; c; d; e; f] ++ [])
                       (length [a; b; c; d; e; f])).
    rewrite (replace_go_skip true re_hex6 short_hex [a; b; c; d; e; f] []).
    reflexivity.
  - f_equal. apply shorten_hex_digits_only. exact H.
Qed.

Lemma digit_class_ic c : in_class true false [CDigit] c = is_digit c.
Proof.
  unfold in_class, in_item_ic, in_item, is_digit, in_range,
    ascii_upper, ascii_lower, in_range.
  cbn [existsb andb orb xorb].
  destruct (N.leb_spec 48 c), (N.leb_spec c 57), (N.leb_spec 97 c),
    (N.leb_spec c 122), (N.leb_spec 65 c), (N.leb_spec c 90);
    cbn [andb orb];
    repeat match goal with
    | |- context [(?a <=? ?b)%N] => destruct (N.leb_spec a b)
    end; cbn [andb orb]; try reflexivity; lia.
Qed.

Lemma is_ws_letter_free c :
  (65 <= c <= 122)%N -> is_ws c = false.
Proof.
  intros H. unfold is_ws, in_range, cu_eqb.
  repeat match goal with
  | |- context [(?a <=? ?b)%N] => destruct (N.leb_spec a b); try lia
  | |- context [(?a =? ?b)%N] => destruct (N.eqb_spec a b); try lia
  end; reflexivity.
Qed.

Lemma space_class_ic c : in_class true false [CSpace] c = is_ws c.
Proof.
  unfold in_class, in_item_ic, in_item. cbn [existsb andb orb xorb].
  rewrite !orb_false_r. unfold ascii_upper, ascii_lower, in_range.
  destruct (N.leb_spec 97 c), (N.leb_spec c 122); cbn [andb];
    destruct (N.leb_spec 65 c), (N.leb_spec c 90); cbn [andb];
    try (rewrite !orb_diag; reflexivity);
    try (rewrite (is_ws_letter_free (c - 32)) by lia);
    try (rewrite (is_ws_letter_free (c + 32)) by lia);
    try (rewrite (is_ws_letter_free c) by lia);
    rewrite ?orb_false_r, ?orb_diag; try reflexivity; lia.
Qed.

Lemma digit_not_ws c : is_digit c = true -> is_ws c = false.
Proof.
  unfold is_digit, in_range. intros H. apply andb_prop in H.
  destruct H as [H1 H2]. apply N.leb_le in H1. apply N.leb_le in H2.
  unfold is_ws, in_range, cu_eqb.
  repeat match goal with
  | |- context [(?a <=? ?b)%N] => destruct (N.leb_spec a b); try lia
  | |- context [(?a =? ?b)%N] => destruct (N.eqb_spec a b); try lia
  end; reflexivity.
Qed.

Lemma digit_not_char c k :
  is_digit c = true -> (k < 48 \/ 57 < k)%N ->
  cu_eqb (canon true k) (canon true c) = false.
Proof.
  unfold is_digit, in_range. intros H Hk. apply andb_prop in H.
  destruct H as [H1 H2]. apply N.leb_le in H1. apply N.leb_le in H2.
  unfold canon, ascii_upper, in_range, cu_eqb. apply N.eqb_neq.
  destruct (N.leb_spec 97 k), (N.leb_spec k 122), (N.leb_spec 97 c),
    (N.leb_spec c 122); cbn [andb]; lia.
Qed.

(** (\d+) followed by something that cannot start at a digit: the group
    takes all the digits. *)
Lemma rmatch_seq_group_digits i K w post cs :
  w <> [] -> all_digits w = true -> starts_with_digit post = false ->
  (forall r cs', starts_with_digit r = true -> rmatch true K (r, cs') = []) ->
  rmatch true (Seq (Group i (Plus true digit)) K) (w ++ post, cs) =
  rmatch true K (post, (i, w) :: cs).
Proof.
  intros Hne Hw Hpost HK.
  set (dcls := in_class true false [CDigit]).
  assert (Hd : one_char true digit = Some dcls) by reflexivity.
  assert (Hdc : forall s, forallb dcls s = all_digits s).
  { induction s as [|c s IH]; [reflexivity|].
    cbn [forallb all_digits]. fold (all_digits s).
    rewrite IH. unfold dcls. rewrite digit_class_ic. reflexivity. }
  assert (Hdh : forall s, head_is dcls s = starts_with_digit s).
  { destruct s; [reflexivity|]. apply digit_class_ic. }
  destruct w as [|w0 w]; [congruence|].
  cbn [all_digits forallb] in Hw. apply andb_prop in Hw.
  destruct Hw as [Hw0 Hw].
  rewrite rmatch_seq, rmatch_group. unfold Plus.
  cbn [app]. rewrite (rmatch_seq_one_char _ _ _ _ _ _ Hd).
  unfold dcls at 1. rewrite digit_class_ic, Hw0.
  rewrite (star_one_char _ _ _ _ _ Hd).
  destruct (run_suffixes_app dcls w post) as (tl & E & Htl).
  { rewrite Hdc. exact Hw. }
  { rewrite Hdh. exact Hpost. }
  rewrite E. cbn [map flat_map fst snd].
  rewrite flat_map_all_nil.
  - rewrite app_nil_r.
    change (w0 :: w ++ post) with ((w0 :: w) ++ post).
    rewrite firstn_app_minus. reflexivity.
  - rewrite Forall_map, Forall_map. eapply Forall_impl; [|exact Htl].
    intros r Hr. cbn [fst snd]. apply HK. rewrite <- Hdh. exact Hr.
Qed.

Lemma rmatch_chr_head ic c x t cs :
  rmatch ic (Chr c) (x :: t, cs) =
  if cu_eqb (canon ic c) (canon ic x) then [(t, cs)] else [].
Proof. reflexivity. Qed.

(** White space followed by a comma or by a closing parenthesis cannot
    start at a digit. *)
Lemma comma_fails_at_digit K r cs :
  starts_with_digit r = true ->
  rmatch true (Seq (Star true space) (Seq (C ",") K)) (r, cs) = [].
Proof.
  intros Hr. destruct r as [|d r]; [discriminate|]. cbn [starts_with_digit] in Hr.
  rewrite (rmatch_seq_star_skip true space _ (in_class true false [CSpace])
             _ _ eq_refl).
  - rewrite (rmatch_seq_one_char true (C ",") _ _ _ _ eq_refl).
    rewrite (digit_not_char d (ch ",") Hr); [reflexivity|].
    left. reflexivity.
  - cbn [head_is]. rewrite space_class_ic. apply digit_not_ws; exact Hr.
Qed.

Lemma paren_fails_at_digit r cs :
  starts_with_digit r = true ->
  rmatch true (Seq (Star true space) (C ")")) (r, cs) = [].
Proof.
  intros Hr. destruct r as [|d r]; [discriminate|]. cbn [starts_with_digit] in Hr.
  rewrite (rmatch_seq_star_skip true space _ (in_class true false [CSpace])
             _ _ eq_refl).
  - unfold C. rewrite rmatch_chr_head.
    rewrite (digit_not_char d (ch ")") Hr); [reflexivity|].
    left. reflexivity.
  - cbn [head_is]. rewrite space_class_ic. apply digit_not_ws; exact Hr.
Qed.

(** One literal character of the pattern against the same character. *)
Ltac step_chr c :=
  rewrite ?rmatch_seq_assoc;
  rewrite (rmatch_seq_one_char true (Chr c) _ _ _ _ eq_refl);
  change (cu_eqb (canon true c) (canon true c)) with true;
  cbv iota.

(** The rgb regex on a literal without spaces: it matches the whole literal
    and captures the three channels. *)
Lemma exec_rgb rs gs bs :
  rs <> [] -> all_digits rs = true ->
  gs <> [] -> all_digits gs = true ->
  bs <> [] -> all_digits bs = true ->
  exec_at true re_rgb (rgb_literal rs gs bs ++ []) =
  Some (length (rgb_literal rs gs bs), [(3, bs); (2, gs); (1, rs)]).
Proof.
  intros Hr1 Hr2 Hg1 Hg2 Hb1 Hb2.
  assert (Hsp : one_char true space = Some (in_class true false [CSpace]))
    by reflexivity.
  assert (Hskip : forall K s cs,
             head_is is_ws s = false ->
             rmatch true (Seq (Star true space) K) (s, cs) =
             rmatch true K (s, cs)).
  { intros K s cs Hs. apply (rmatch_seq_star_skip _ _ _ _ _ _ Hsp).
    destruct s; [reflexivity|]. cbn [head_is] in *.
    rewrite space_class_ic. exact Hs. }
  assert (Hhd : forall w post, w <> [] -> all_digits w = true ->
                               head_is is_ws (w ++ post) = false).
  { intros w post Hne Hw. destruct w as [|c w]; [congruence|].
    cbn [all_digits forallb] in Hw. apply andb_prop in Hw.
    cbn [app head_is]. apply digit_not_ws. tauto. }
  unfold exec_at, re_rgb, rgb_literal, Seqs, L.
  rewrite app_nil_r.
  change (str "rgb(") with [ch "r"; ch "g"; ch "b"; ch "("]. cbn [Lit app].
  step_chr (ch "r"). step_chr (ch "g"). step_chr (ch "b"). step_chr (ch "(").
  rewrite Hskip by (apply Hhd; assumption).
  rewrite rmatch_seq_group_digits;
    [|assumption|assumption|reflexivity|intros; apply comma_fails_at_digit;
                                         assumption].
  rewrite Hskip by reflexivity.
  unfold C at 1. step_chr (ch ",").
  rewrite Hskip by (apply Hhd; assumption).
  rewrite rmatch_seq_group_digits;
    [|assumption|assumption|reflexivity|intros; apply comma_fails_at_digit;
                                         assumption].
  rewrite Hskip by reflexivity.
  unfold C at 1. step_chr (ch ",").
  rewrite Hskip by (apply Hhd; assumption).
  rewrite rmatch_seq_group_digits;
    [|assumption|assumption|reflexivity|intros; apply paren_fails_at_digit;
                                         assumption].
  rewrite Hskip by reflexivity.
  unfold C. change (str ")") with [ch ")"]. rewrite rmatch_chr_head.
  change (cu_eqb (canon true (ch ")")) (canon true (ch ")"))) with true.
  cbv iota. cbn [length]. rewrite Nat.sub_0_r. reflexivity.
Qed.




Lemma exec_rgb_nil : exec_at true re_rgb [] = None.
Proof. reflexivity. Qed.
(* ================================================================== *)
(** ** Further properties of the bundler runs *)
(* ================================================================== *)

(** X1 (the loops of bundleEmojis in src/ultra_optimized_svg_bundler.js and
    of bundleSVGEmojis in src/svg_utf8_bundler.js): the batches only group
    the files.  Whatever the positive batch size, a run ends in the same
    way, with the same bundle and the same counters. *)
Theorem batch_size_is_immaterial :
  forall (size1 size2 : nat) (svgToDataUri : jsstring -> option jsstring)
         (fsys : filesystem),
    0 < size1 -> 0 < size2 ->
    run size1 svgToDataUri fsys = run size2 svgToDataUri fsys.
Proof.
  intros size1 size2 enc fsys H1 H2. unfold run.
  destruct (dir_exists fsys); [|reflexivity]. cbn [negb].
  destruct (dir_entries fsys) as [entries|]; [|reflexivity].
  destruct (svg_files entries) as [|f files] eqn:E; [reflexivity|].
  rewrite (@process_all_fold size1 enc fsys (f :: files) H1).
  rewrite (@process_all_fold size2 enc fsys (f :: files) H2).
  reflexivity.
Qed.

(** Three files, in batches of two and of one. *)
Lemma batch_size_is_immaterial_witness :
  let fsys := directory [(str "a.svg", Some (str "<svg/>"));
                         (str "b.svg", None);
                         (str "c.svg", Some (str "<svg> </svg>"))] in
  let enc := fun svgContent => Some (Utf8.svgToDataUri svgContent) in
  run 2 enc fsys = run 1 enc fsys.
Proof.
  intros fsys enc. apply (batch_size_is_immaterial 2 1 enc fsys); lia.
Defined.

(** X2 (bundleEmojis and bundleSVGEmojis, the checks before the loop and
    the [catch] of the call): a run has exit status 0 or 1; it is 0 exactly
    when the directory exists, could be listed, has a file whose name ends
    in [.svg] and the output file could be written, whatever happened to
    the single files; and the output file is written exactly in the runs
    with status 0. *)
Theorem run_exit_status :
  forall (size : nat) (svgToDataUri : jsstring -> option jsstring)
         (fsys : filesystem),
    (exit_status (run size svgToDataUri fsys) = 0%Z \/
     exit_status (run size svgToDataUri fsys) = 1%Z) /\
    (exit_status (run size svgToDataUri fsys) = 0%Z <->
     dir_exists fsys = true /\
     (exists entries, dir_entries fsys = Some entries /\
                      exists file, In file entries /\ is_svg file = true) /\
     can_write fsys = true) /\
    (output_file (run size svgToDataUri fsys) <> None <->
     exit_status (run size svgToDataUri fsys) = 0%Z).
Proof.
  intros size enc fsys. unfold run.
  destruct (dir_exists fsys) eqn:Ee; cbn [negb].
  2:{ cbn. repeat split; try (right; reflexivity); try discriminate;
      try congruence; intros (H & _); discriminate. }
  destruct (dir_entries fsys) as [entries|] eqn:Ed.
  2:{ cbn. repeat split; try (right; reflexivity); try discriminate;
      try congruence; intros (_ & (e & H & _) & _); discriminate. }
  destruct (svg_files entries) as [|f files] eqn:Ef.
  { cbn. repeat split; try (right; reflexivity); try discriminate;
      try congruence.
    intros (_ & (e & H & file & Hin & Hs) & _). exfalso.
    injection H as <-. unfold svg_files in Ef.
    assert (Hf : In file (filter is_svg entries))
      by (apply filter_In; auto).
    destruct (filter is_svg entries) as [|x l] eqn:El; [exact Hf|].
    cbn [sort fold_right] in Ef.
    destruct (fold_right insert_sorted [] l) as [|y t]; cbn in Ef;
      [discriminate|]. destruct (str_leb x y); discriminate. }
  destruct (can_write fsys) eqn:Ew.
  2:{ cbn. repeat split; try (right; reflexivity); try discriminate;
      try congruence; intros (_ & _ & H); discriminate. }
  cbn. repeat split; try (left; reflexivity); try discriminate.
  exists entries. split; [reflexivity|].
  assert (Hin : In f (svg_files entries)) by (rewrite Ef; left; reflexivity).
  unfold svg_files in Hin. exists f.
  assert (Hs : forall l x, In x (sort l) -> In x l).
  { induction l as [|y l IH]; cbn [sort fold_right]; intros x Hx; [exact Hx|].
    assert (Hi : forall (x y : jsstring) l,
               In x (insert_sorted y l) -> x = y \/ In x l).
    { clear. intros x y l. induction l as [|z l IH]; cbn [insert_sorted].
      - intros [<-|[]]; auto.
      - destruct (str_leb y z); cbn [In].
        + intros [<-|[<-|H]]; auto.
        + intros [<-|H]; auto. apply IH in H. tauto. }
    apply Hi in Hx. destruct Hx as [->|Hx]; [left; reflexivity|].
    right. apply IH. exact Hx. }
  apply Hs in Hin. apply filter_In in Hin. exact Hin.
Qed.

(** *** Reading a key back *)

Lemma str_eqb_sym_false a b : str_eqb a b = false -> str_eqb b a = false.
Proof.
  intros H. apply str_eqb_neq. apply str_eqb_neq in H. congruence.
Qed.

Lemma obj_get_update k k' v o :
  obj_get k (obj_update k' v o) =
  if str_eqb k' k then Some v else obj_get k o.
Proof.
  unfold obj_get. induction o as [|[k0 w] t IH]; cbn [obj_update find fst].
  - destruct (str_eqb k' k); reflexivity.
  - destruct (str_eqb k0 k') eqn:E0; cbn [find fst].
    + apply str_eqb_eq in E0. subst k0.
      destruct (str_eqb k' k); reflexivity.
    + destruct (str_eqb k0 k) eqn:E1.
      * apply str_eqb_eq in E1. subst k0. rewrite str_eqb_sym_false; auto.
      * exact IH.
Qed.

Section Lookup.

Variable svgToDataUri : jsstring -> option jsstring.
Variable fsys : filesystem.

Let step := process_file svgToDataUri fsys.

Let pick (k : jsstring) (acc : option jsstring) (file : jsstring) :=
  match file_content fsys file with
  | Some content =>
      match svgToDataUri content with
      | Some dataUri => if str_eqb (key_of file) k then Some dataUri else acc
      | None => acc
      end
  | None => acc
  end.

Lemma loop_get k :
  str_eqb k (str "__proto__") = false ->
  forall files o st o' st',
    fold_left step files (o, st) = (o', st') ->
    obj_get k o' = fold_left (pick k) files (obj_get k o).
Proof.
  intros Hk. induction files as [|f files IH]; intros o st o' st' H;
    cbn [fold_left] in *.
  - inversion H; subst. reflexivity.
  - unfold step at 2 in H. unfold process_file in H.
    unfold pick at 2.
    destruct (file_content fsys f) as [c|]; [|exact (IH _ _ _ _ H)].
    destruct (svgToDataUri c) as [u|]; [|exact (IH _ _ _ _ H)].
    rewrite (IH _ _ _ _ H). f_equal. unfold obj_set.
    fold (key_of f).
    destruct (str_eqb (key_of f) (str "__proto__")) eqn:Ep.
    + apply str_eqb_eq in Ep. rewrite Ep.
      rewrite str_eqb_sym_false; [reflexivity|exact Hk].
    + apply obj_get_update.
Qed.

Lemma loop_get_proto :
  forall files o st o' st',
    fold_left step files (o, st) = (o', st') ->
    obj_get (str "__proto__") o' = obj_get (str "__proto__") o.
Proof.
  induction files as [|f files IH]; intros o st o' st' H;
    cbn [fold_left] in *.
  - inversion H; subst. reflexivity.
  - unfold step at 2 in H. unfold process_file in H.
    destruct (file_content fsys f) as [c|]; [|exact (IH _ _ _ _ H)].
    destruct (svgToDataUri c) as [u|]; [|exact (IH _ _ _ _ H)].
    rewrite (IH _ _ _ _ H). unfold obj_set. fold (key_of f).
    destruct (str_eqb (key_of f) (str "__proto__")) eqn:Ep; [reflexivity|].
    rewrite obj_get_update, Ep. reflexivity.
Qed.

Lemma loop_sizes :
  forall files o st o' st',
    fold_left step files (o, st) = (o', st') ->
    originalSize st' =
      originalSize st
      + sum (map (fun f => fst (sizes_of svgToDataUri fsys f)) files) /\
    optimizedSize st' =
      optimizedSize st
      + sum (map (fun f => snd (sizes_of svgToDataUri fsys f)) files).
Proof.
  induction files as [|f files IH]; intros o st o' st' H;
    cbn [fold_left map sum fold_right] in *.
  - inversion H; subst. lia.
  - unfold step at 2 in H. unfold process_file in H. unfold sizes_of at 1 3.
    fold (sum (map (fun f => fst (sizes_of svgToDataUri fsys f)) files)).
    fold (sum (map (fun f => snd (sizes_of svgToDataUri fsys f)) files)).
    destruct (file_content fsys f) as [c|].
    + destruct (svgToDataUri c) as [u|]; apply IH in H;
        cbn [originalSize optimizedSize fst snd] in *; lia.
    + apply IH in H. cbn [originalSize optimizedSize fst snd] in *. lia.
Qed.

(** What a run that writes its output file has done. *)
Lemma run_written size entries result :
  0 < size ->
  dir_entries fsys = Some entries ->
  output_file (run size svgToDataUri fsys) = Some result ->
  fold_left step (svg_files entries)
            ([], {| processed := 0; errors := 0; originalSize := 0;
                    optimizedSize := 0 |}) = result.
Proof.
  intros Hs Hd. unfold run. rewrite Hd.
  destruct (dir_exists fsys); cbn [negb]; [|discriminate].
  destruct (svg_files entries) as [|f files] eqn:Ef; [discriminate|].
  destruct (can_write fsys); [|discriminate].
  cbn [output_file]. intros [= <-]. symmetry.
  apply (@process_all_fold size svgToDataUri fsys (f :: files) Hs).
Qed.

End Lookup.

(** X3 (the assignment [emojiData[key] = dataUri] in the loops of
    bundleEmojis and bundleSVGEmojis): in the bundle that a run writes, the
    value of a key is the data URI of the last file, in sorted order, that
    has this key and was read and encoded; a key that no such file has is
    absent, and so is the key [__proto__]. *)
Theorem last_file_of_a_key_wins :
  forall (size : nat) (svgToDataUri : jsstring -> option jsstring)
         (fsys : filesystem) (entries : list jsstring)
         (bundle : object) (st : stats),
    0 < size ->
    dir_entries fsys = Some entries ->
    output_file (run size svgToDataUri fsys) = Some (bundle, st) ->
    forall k,
      obj_get k bundle =
      if str_eqb k (str "__proto__") then None
      else last_uri svgToDataUri fsys k (svg_files entries).
Proof.
  intros size enc fsys entries bundle st Hs Hd Ho k.
  pose proof (run_written enc fsys size entries (bundle, st) Hs Hd Ho) as Hf.
  destruct (str_eqb k (str "__proto__")) eqn:Ek.
  - apply str_eqb_eq in Ek. subst k.
    rewrite (loop_get_proto enc fsys _ _ _ _ _ Hf). reflexivity.
  - rewrite (loop_get enc fsys k Ek _ _ _ _ _ Hf). reflexivity.
Qed.

(** [a.SVG] keeps its name as key and [a.SVG.svg] loses its extension: the
    second one, later in sorted order, is what the key [a.SVG] holds. *)
Lemma last_file_of_a_key_wins_witness :
  let entries := [str "a.SVG.svg"; str "a.SVG"; str "__proto__.svg"] in
  let fsys := directory [(str "a.SVG.svg", Some (str "<svg>2</svg>"));
                         (str "a.SVG", Some (str "<svg>1</svg>"));
                         (str "__proto__.svg", Some (str "<svg/>"))] in
  let enc := fun svgContent => Some (Utf8.svgToDataUri svgContent) in
  let k := str "a.SVG" in
  obj_get k (fst (process_all 100 enc fsys (svg_files entries))) =
  if str_eqb k (str "__proto__") then None
  else last_uri enc fsys k (svg_files entries).
Proof.
  intros entries fsys enc k.
  apply (last_file_of_a_key_wins 100 enc fsys entries
           (fst (process_all 100 enc fsys (svg_files entries)))
           (snd (process_all 100 enc fsys (svg_files entries)))).
  - lia.
  - reflexivity.
  - vm_compute. reflexivity.
Defined.

(** X4 (the counters [originalSize] and [optimizedSize] of bundleEmojis,
    [totalOriginalSize] and [totalEncodedSize] of bundleSVGEmojis): in a
    run that writes its output, the first is the sum of the lengths of the
    contents, the second the sum of the lengths of the data URIs, prefix
    included, over the files that were read and encoded; a file that fails
    adds to neither. *)
Theorem size_counters_are_sums :
  forall (size : nat) (svgToDataUri : jsstring -> option jsstring)
         (fsys : filesystem) (entries : list jsstring)
         (bundle : object) (st : stats),
    0 < size ->
    dir_entries fsys = Some entries ->
    output_file (run size svgToDataUri fsys) = Some (bundle, st) ->
    originalSize st =
      sum (map (fun f => fst (sizes_of svgToDataUri fsys f))
               (svg_files entries)) /\
    optimizedSize st =
      sum (map (fun f => snd (sizes_of svgToDataUri fsys f))
               (svg_files entries)).
Proof.
  intros size enc fsys entries bundle st Hs Hd Ho.
  pose proof (run_written enc fsys size entries (bundle, st) Hs Hd Ho) as Hf.
  apply (loop_sizes enc fsys) in Hf. cbn [originalSize optimizedSize] in Hf.
  exact Hf.
Qed.

Lemma size_counters_are_sums_witness :
  let entries := [str "b.svg"; str "a.svg"; str "c.svg"] in
  let fsys := directory [(str "b.svg", Some (str "<svg> </svg>"));
                         (str "a.svg", Some (str "<svg/>"));
                         (str "c.svg", None)] in
  let st := snd (process_all 200 Ultra_svgToDataUri fsys (svg_files entries)) in
  originalSize st =
    sum (map (fun f => fst (sizes_of Ultra_svgToDataUri fsys f))
             (svg_files entries)) /\
  optimizedSize st =
    sum (map (fun f => snd (sizes_of Ultra_svgToDataUri fsys f))
             (svg_files entries)).
Proof.
  intros entries fsys st.
  apply (size_counters_are_sums 200 Ultra_svgToDataUri fsys entries
           (fst (process_all 200 Ultra_svgToDataUri fsys (svg_files entries)))
           st).
  - lia.
  - reflexivity.
  - vm_compute. reflexivity.
Defined.
(* ================================================================== *)
(** ** Escaping for the generated file, and the other encoders *)
(* ================================================================== *)

(** The three replacements of escapeForJS escape each code unit on its
    own. *)
Lemma escapeForJS_flat_map s : escapeForJS s = flat_map escape_js1 s.
Proof.
  unfold escapeForJS.
  repeat match goal with
  | |- context [replace_all false (Chr ?c) ?f ?t] =>
      rewrite (@replace_one_char false (Chr c) _ f t eq_refl)
  end.
  rewrite !flat_map_flat_map.
  apply flat_map_ext. intros c. unfold const, canon, escape_js1.
  unfold backslash, backtick, dollar, cu_eqb.
  rewrite (N.eqb_sym 92 c).
  destruct (N.eqb_spec c 92) as [->|H92]; [reflexivity|].
  rewrite flat_map_single. rewrite (N.eqb_sym 96 c).
  destruct (N.eqb_spec c 96) as [->|H96]; [reflexivity|].
  rewrite flat_map_single. rewrite (N.eqb_sym 36 c).
  destruct (N.eqb_spec c 36) as [->|H36]; reflexivity.
Qed.

Lemma template_value_escaped s :
  Forall (fun c => c <> 13%N) s ->
  template_value (flat_map escape_js1 s) = Some s.
Proof.
  induction 1 as [|c s Hc Hs IH]; [reflexivity|].
  cbn [flat_map]. unfold escape_js1 at 1.
  destruct (cu_eqb c backslash || cu_eqb c backtick || cu_eqb c dollar)
    eqn:E.
  - cbn [app template_value]. change (cu_eqb backslash backslash) with true.
    cbn iota. rewrite E, IH. reflexivity.
  - apply orb_false_elim in E. destruct E as [E E3].
    apply orb_false_elim in E. destruct E as [E1 E2].
    cbn [app template_value]. rewrite E1, E2, E3.
    unfold cu_eqb at 1. destruct (N.eqb_spec c 13) as [->|_];
      [contradiction Hc; reflexivity|].
    rewrite IH. reflexivity.
Qed.

(** X5 (escapeForJS of src/ultra_optimized_svg_bundler.js, with the
    template literal that generateOutput writes around its result): for
    every string without a carriage return, the text that escapeForJS
    returns is the body of one template literal without substitution, and
    the value of that literal is the string itself.  (A raw carriage
    return is not escaped, and a template literal reads it as a line
    feed.) *)
Theorem escapeForJS_is_read_back :
  forall s : jsstring,
    Forall (fun c => c <> 13%N) s ->
    template_value (escapeForJS s) = Some s.
Proof.
  intros s Hs. rewrite escapeForJS_flat_map.
  apply template_value_escaped. exact Hs.
Qed.

Lemma escapeForJS_is_read_back_witness :
  let s := str "a`b${c}" ++ [backslash; ch "n"; 10%N; backslash] in
  template_value (escapeForJS s) = Some s.
Proof.
  intros s. apply (escapeForJS_is_read_back s).
  unfold s. repeat (constructor; [discriminate|]). constructor.
Defined.

(** *** The alphabet of encodeURIComponent *)

Local Open Scope N_scope.

Lemma hex_upper_unreserved d :
  d < 16 -> URI.is_unreserved (URI.hex_upper d) = true.
Proof.
  intros H.
  assert (Hall : forallb (fun k => URI.is_unreserved
                                     (URI.hex_upper (N.of_nat k)))
                         (seq 0 16) = true) by (vm_compute; reflexivity).
  rewrite forallb_forall in Hall. specialize (Hall (N.to_nat d)).
  rewrite N2Nat.id in Hall. apply Hall. apply in_seq. lia.
Qed.

Lemma pct_uri_char b :
  b < 256 -> Forall (fun c => uri_char c = true) (URI.pct b).
Proof.
  intros Hb. unfold URI.pct, uri_char.
  constructor; [reflexivity|].
  constructor.
  { rewrite hex_upper_unreserved; [reflexivity|].
    apply N.Div0.div_lt_upper_bound. lia. }
  constructor; [|constructor].
  rewrite hex_upper_unreserved; [reflexivity|]. apply N.mod_lt. lia.
Qed.

Lemma utf8_octets cp :
  cp < 1114112 -> Forall (fun b => b < 256) (URI.utf8 cp).
Proof.
  intros H. unfold URI.utf8.
  destruct (N.ltb_spec cp 128); [repeat constructor; lia|].
  destruct (N.ltb_spec cp 2048).
  { repeat constructor; zify; Z.to_euclidean_division_equations; lia. }
  destruct (N.ltb_spec cp 65536).
  { repeat constructor; zify; Z.to_euclidean_division_equations; lia. }
  repeat constructor; zify; Z.to_euclidean_division_equations; lia.
Qed.

Lemma utf8_pct_uri_char cp :
  cp < 1114112 ->
  Forall (fun c => uri_char c = true) (flat_map URI.pct (URI.utf8 cp)).
Proof.
  intros H. apply Forall_flat_map. 
  eapply Forall_impl; [|apply utf8_octets; exact H].
  intros b Hb. apply pct_uri_char. exact Hb.
Qed.

Lemma pair_to_cp_bound hi lo :
  URI.is_high_surrogate hi = true -> URI.is_low_surrogate lo = true ->
  URI.pair_to_cp hi lo < 1114112.
Proof.
  unfold URI.is_high_surrogate, URI.is_low_surrogate, in_range,
    URI.pair_to_cp.
  intros H1 H2. apply andb_prop in H1. apply andb_prop in H2.
  destruct H1 as [H1 H1']. destruct H2 as [H2 H2'].
  apply N.leb_le in H1, H1', H2, H2'. lia.
Qed.

(** encodeURIComponent writes unreserved characters and percent signs
    only. *)
Lemma encodeURIComponent_chars : forall n t,
  (length t <= n)%nat -> code_units t ->
  forall e, URI.encodeURIComponent t = Some e ->
            Forall (fun c => uri_char c = true) e.
Proof.
  induction n as [|n IH]; intros t Hn Hcu e He.
  - destruct t; [|simpl in Hn; lia]. simpl in He. inversion He. constructor.
  - destruct t as [|c t]; [simpl in He; inversion He; constructor|].
    inversion Hcu as [|? ? Hc Hcu']; subst.
    cbn [URI.encodeURIComponent] in He. simpl in Hn.
    destruct (URI.is_unreserved c) eqn:Eu.
    { apply option_map_Some in He. destruct He as (e' & He' & ->).
      constructor; [unfold uri_char; rewrite Eu; reflexivity|].
      apply (IH t); auto. lia. }
    destruct (URI.is_low_surrogate c) eqn:El; [discriminate|].
    destruct (URI.is_high_surrogate c) eqn:Eh.
    { destruct t as [|d t']; [discriminate|].
      destruct (URI.is_low_surrogate d) eqn:Ed; [|discriminate].
      apply option_map_Some in He. destruct He as (e' & He' & ->).
      inversion Hcu' as [|? ? Hd Hcu'']; subst.
      apply Forall_app. split.
      - apply utf8_pct_uri_char. apply pair_to_cp_bound; assumption.
      - apply (IH t'); auto. simpl in Hn. lia. }
    apply option_map_Some in He. destruct He as (e' & He' & ->).
    apply Forall_app. split.
    + apply utf8_pct_uri_char. lia.
    + apply (IH t); auto. lia.
Qed.

Local Close Scope N_scope.

Lemma data_uri_char_plain c :
  data_uri_char c = true -> escape_js1 c = [c] /\ c <> 13%N.
Proof.
  intros H. unfold escape_js1, backslash, backtick, dollar, cu_eqb.
  destruct (N.eqb_spec c 92) as [->|_]; [vm_compute in H; discriminate|].
  destruct (N.eqb_spec c 96) as [->|_]; [vm_compute in H; discriminate|].
  destruct (N.eqb_spec c 36) as [->|_]; [vm_compute in H; discriminate|].
  split; [reflexivity|]. intros ->. vm_compute in H. discriminate.
Qed.

Lemma flat_map_escape_js1_plain u :
  Forall (fun c => data_uri_char c = true) u -> flat_map escape_js1 u = u.
Proof.
  induction 1 as [|c u Hc Hu IH]; [reflexivity|].
  cbn [flat_map]. rewrite IH.
  destruct (data_uri_char_plain c Hc) as [-> _]. reflexivity.
Qed.

(** X6 (svgToDataUri and escapeForJS of
    src/ultra_optimized_svg_bundler.js): every data URI that svgToDataUri
    returns is made of letters, digits, the characters [-_.!~*'()], the
    percent sign and the [:/+;=,] of the prefix; it has no backslash,
    backtick or dollar sign, so escapeForJS returns it unchanged, and the
    template literal written by generateOutput has the URI as its value. *)
Theorem ultra_data_uri_needs_no_escape :
  forall s uri : jsstring,
    code_units s ->
    Ultra_svgToDataUri s = Some uri ->
    Forall (fun c => data_uri_char c = true) uri /\
    escapeForJS uri = uri /\
    template_value (escapeForJS uri) = Some uri.
Proof.
  intros s uri Hs Hu. unfold Ultra_svgToDataUri, andThen in Hu.
  destruct (Ultra.optimizeSVG s) as [out|] eqn:E; [|discriminate].
  apply option_map_Some in Hu. destruct Hu as (e & He & ->).
  assert (Hv : forall c, (32 <= c < 127)%N -> (c < 65536)%N)
    by (intros; lia).
  pose proof (P_Ultra_optimizeSVG _ Hv s out Hs E) as Hout.
  assert (Hall : Forall (fun c => data_uri_char c = true) (Part0.prefix ++ e)).
  { apply Forall_app. split.
    - apply Forall_forall. intros x Hx.
      assert (Hp : forallb data_uri_char Part0.prefix = true)
        by (vm_compute; reflexivity).
      rewrite forallb_forall in Hp. apply Hp. exact Hx.
    - eapply Forall_impl;
        [|exact (encodeURIComponent_chars (length out) out
                   (Nat.le_refl _) Hout e He)].
      intros c Hc. unfold data_uri_char. rewrite Hc. reflexivity. }
  split; [exact Hall|].
  assert (Hesc : escapeForJS (Part0.prefix ++ e) = Part0.prefix ++ e).
  { rewrite escapeForJS_flat_map. apply flat_map_escape_js1_plain.
    exact Hall. }
  split; [exact Hesc|].
  rewrite escapeForJS_flat_map. apply template_value_escaped.
  eapply Forall_impl; [|exact Hall].
  intros c Hc. exact (proj2 (data_uri_char_plain c Hc)).
Qed.

Lemma ultra_data_uri_needs_no_escape_witness :
  let s := str "<svg a=`$1\` >" ++ [233%N; 55357%N; 56832%N] in
  exists uri,
    Ultra_svgToDataUri s = Some uri /\
    Forall (fun c => data_uri_char c = true) uri /\
    escapeForJS uri = uri /\
    template_value (escapeForJS uri) = Some uri.
Proof.
  intros s.
  exists (Part0.prefix ++
          str "%3Csvg%20a%3D%60%241%5C%60%20%3E%C3%A9%F0%9F%98%80").
  split; [vm_compute; reflexivity|].
  apply (ultra_data_uri_needs_no_escape s).
  - unfold code_units, s. repeat constructor.
  - vm_compute. reflexivity.
Defined.

(** *** svgToDataUriEncoded *)

Lemma clean_Forall (P : cu -> Prop) s :
  (forall c, (32 <= c < 127)%N -> P c) ->
  Forall P s -> Forall P (Utf8.clean s).
Proof.
  intros Hv Hs. unfold Utf8.clean, join_tags, collapse_spaces.
  apply (P_const P Hv); [reflexivity|].
  apply remove_Forall.
  apply (P_const P Hv); [reflexivity|].
  apply Forall_trim. exact Hs.
Qed.

(** X7 (svgToDataUriEncoded of src/svg_utf8_bundler.js): whenever it
    returns a data URI (encodeURIComponent throws for a surrogate without
    its partner), stripping the prefix and decoding the percent escapes
    gives the cleaned markup back: the input trimmed, with white space
    collapsed and one-line comments removed. *)
Theorem svgToDataUriEncoded_round_trip :
  forall s uri : jsstring,
    code_units s ->
    Utf8_svgToDataUriEncoded s = Some uri ->
    URI.decode uri = Some (Utf8.clean s).
Proof.
  intros s uri Hs Hu. unfold Utf8_svgToDataUriEncoded in Hu.
  apply option_map_Some in Hu. destruct Hu as (e & He & ->).
  unfold URI.decode.
  change (starts_with Part0.prefix (Part0.prefix ++ e)) with true.
  cbn iota. rewrite payload_prefix_app.
  apply decodeURIComponent_encodeURIComponent; [|exact He].
  apply clean_Forall; [intros; lia|exact Hs].
Qed.

Lemma svgToDataUriEncoded_round_trip_witness :
  let s := str "  <svg>  <!-- 100% # -->" ++ [dq; 233%N] ++ str " </svg> " in
  exists uri,
    Utf8_svgToDataUriEncoded s = Some uri /\
    URI.decode uri = Some (Utf8.clean s).
Proof.
  intros s.
  exists (Part0.prefix ++ str "%3Csvg%3E%20%22%C3%A9%20%3C%2Fsvg%3E").
  split; [vm_compute; reflexivity|].
  apply (svgToDataUriEncoded_round_trip s).
  - unfold code_units, s. repeat constructor.
  - vm_compute. reflexivity.
Defined.

(** *** svgToDataUri of src/svg_utf8_bundler.js *)

(** The five replacements escape each code unit on its own; the percent
    sign is escaped last, also where an earlier replacement wrote it. *)
Lemma utf8_encode_flat_map s : Utf8.encode s = flat_map utf8_escape1 s.
Proof.
  unfold Utf8.encode, Part0.escape, C.
  repeat match goal with
  | |- context [replace_all false (Chr ?c) ?f ?t] =>
      rewrite (@replace_one_char false (Chr c) _ f t eq_refl)
  end.
  rewrite !flat_map_flat_map.
  apply flat_map_ext. intros c. unfold const, canon, utf8_escape1.
  change dq with 34%N. change (ch "%") with 37%N. change (ch "#") with 35%N.
  unfold cu_eqb.
  rewrite (N.eqb_sym 35 c).
  destruct (N.eqb_spec c 35) as [->|H35]; [reflexivity|].
  rewrite flat_map_single. rewrite (N.eqb_sym 34 c).
  destruct (N.eqb_spec c 34) as [->|H34]; [reflexivity|].
  rewrite flat_map_single. rewrite (N.eqb_sym 10 c).
  destruct (N.eqb_spec c 10) as [->|H10]; [reflexivity|].
  rewrite flat_map_single. rewrite (N.eqb_sym 13 c).
  destruct (N.eqb_spec c 13) as [->|H13]; [reflexivity|].
  rewrite flat_map_single. rewrite (N.eqb_sym 37 c).
  destruct (N.eqb_spec c 37) as [->|H37]; reflexivity.
Qed.

Local Open Scope N_scope.

Lemma decode_go_percent_25 f a b rest :
  a <> 37 -> b <> 37 ->
  URI.decode_go (S (S (S f))) (37 :: 50 :: 53 :: a :: b :: rest) =
  option_map (fun r => 37 :: a :: b :: r) (URI.decode_go f rest).
Proof.
  intros Ha Hb.
  rewrite (decode_go_ascii_escape (S (S f)) 50 53 2 5 (a :: b :: rest)
             eq_refl eq_refl eq_refl).
  rewrite (decode_go_plain (S f) a (b :: rest) Ha).
  rewrite (decode_go_plain f b rest Hb).
  destruct (URI.decode_go f rest); reflexivity.
Qed.

Lemma decode_go_utf8_escaped t : forall fuel,
  (length (flat_map utf8_escape1 t) <= fuel)%nat ->
  URI.decode_go fuel (flat_map utf8_escape1 t) =
  Some (flat_map utf8_residue t).
Proof.
  induction t as [|c t IH]; intros fuel Hl.
  - destruct fuel; reflexivity.
  - cbn [flat_map] in *. rewrite length_app in Hl.
    assert (Hesc : forall a b,
               a <> 37 -> b <> 37 ->
               utf8_escape1 c = [37; 50; 53; a; b] ->
               utf8_residue c = [37; a; b] ->
               URI.decode_go fuel (utf8_escape1 c ++ flat_map utf8_escape1 t) =
               Some (utf8_residue c ++ flat_map utf8_residue t)).
    { intros a b Ha Hb He Hr. rewrite He, Hr in *. cbn [length app] in *.
      destruct fuel as [|[|[|f]]]; try lia.
      rewrite (decode_go_percent_25 f a b _ Ha Hb).
      rewrite IH by lia. reflexivity. }
    unfold utf8_escape1, utf8_residue in *. unfold cu_eqb in *.
    change dq with 34 in *. change (ch "%") with 37 in *.
    change (ch "#") with 35 in *.
    destruct (N.eqb_spec c 35) as [->|H35];
      [apply (Hesc 50 51); try reflexivity; discriminate|].
    destruct (N.eqb_spec c 34) as [->|H34].
    { cbn [length app] in *. destruct fuel as [|f]; [lia|].
      rewrite decode_go_plain by discriminate.
      rewrite IH by lia. reflexivity. }
    destruct (N.eqb_spec c 10) as [->|H10];
      [apply (Hesc 48 65); try reflexivity; discriminate|].
    destruct (N.eqb_spec c 13) as [->|H13];
      [apply (Hesc 48 68); try reflexivity; discriminate|].
    destruct (N.eqb_spec c 37) as [->|H37].
    { change (str "%25") with [37; 50; 53] in *. cbn [length app] in *.
      destruct fuel as [|f]; [lia|].
      rewrite (decode_go_ascii_escape f 50 53 2 5 _ eq_refl eq_refl eq_refl).
      rewrite IH by lia. reflexivity. }
    cbn [length app] in *. destruct fuel as [|f]; [lia|].
    rewrite decode_go_plain by exact H37.
    rewrite IH by lia. reflexivity.
Qed.

Local Close Scope N_scope.

(** X8 (svgToDataUri of src/svg_utf8_bundler.js): the percent sign is
    escaped after the other characters, so the [%23], [%0A] and [%0D]
    written for [#], line feed and carriage return become [%2523], [%250A]
    and [%250D].  For every input, decoding the data URI gives the cleaned
    markup with every double quote turned into a single quote and with
    [%23] where the markup has [#] (and [%0A], [%0D] for a line feed or
    carriage return); every other code unit comes back as it was. *)
Theorem utf8_data_uri_decodes_to_residue :
  forall s : jsstring,
    Utf8.svgToDataUri s = Part0.prefix ++ flat_map utf8_escape1 (Utf8.clean s)
    /\ URI.decode (Utf8.svgToDataUri s) =
       Some (flat_map utf8_residue (Utf8.clean s)).
Proof.
  intros s. unfold Utf8.svgToDataUri. rewrite utf8_encode_flat_map.
  split; [reflexivity|]. unfold URI.decode.
  change (starts_with Part0.prefix
            (Part0.prefix ++ flat_map utf8_escape1 (Utf8.clean s)))
    with true.
  cbn iota. rewrite payload_prefix_app. unfold URI.decodeURIComponent.
  apply decode_go_utf8_escaped. apply Nat.le_refl.
Qed.
(* ================================================================== *)
(** ** Further properties of the optimizers and of the symbol ids *)
(* ================================================================== *)

Lemma sanitize_id_char c : id_char (sanitize c) = true.
Proof. unfold sanitize. destruct (id_char c) eqn:E; [exact E|reflexivity]. Qed.

Lemma length_remove_extension name :
  length (remove_extension name) <= length name.
Proof.
  unfold remove_extension.
  destruct (split_last_dot name) as [[b e]|] eqn:E; [|apply Nat.le_refl].
  destruct (split_last_dot_Some _ _ _ E) as [-> _].
  destruct e as [|x e]; [apply Nat.le_refl|].
  destruct (no_slash (x :: e)); [|apply Nat.le_refl].
  rewrite length_app. lia.
Qed.

(** X9 (idFromFilename, second part of
    src/ultra_optimized_svg_bundler.js): whatever the file name, the symbol
    id starts with [e_], has only characters of [a-zA-Z0-9_-], and is at
    most two characters longer than the name. *)
Theorem symbol_id_is_well_formed :
  forall name : jsstring,
    starts_with (str "e_") (Sprite.idFromFilename name) = true /\
    forallb id_char (Sprite.idFromFilename name) = true /\
    length (Sprite.idFromFilename name) <= 2 + length name.
Proof.
  intros name. unfold Sprite.idFromFilename.
  rewrite replace_first_extension, replace_unsafe.
  split; [reflexivity|]. split.
  - change (str "e_" ++ map sanitize (remove_extension name))
      with (ch "e" :: ch "_" :: map sanitize (remove_extension name)).
    cbn [forallb]. change (id_char (ch "e")) with true.
    change (id_char (ch "_")) with true. cbn [andb].
    apply forallb_forall. intros x Hx. apply in_map_iff in Hx.
    destruct Hx as (c & <- & _). apply sanitize_id_char.
  - rewrite length_app, length_map.
    pose proof (length_remove_extension name). simpl. lia.
Qed.

(** *** A second pass over a rounded literal *)

(** Where no digit is followed by a point and three digits, the regex has
    no match. *)
Lemma exec_decimal_fails w rest :
  all_digits w = true -> starts_with_digit rest = false ->
  decimal_tail rest = false ->
  exec_at false re_decimal (w ++ rest) = None.
Proof.
  intros Hw Hr Ht.
  set (dcls := in_class false false [CDigit]).
  assert (Hd : one_char false digit = Some dcls) by reflexivity.
  assert (Hdot : one_char false (C ".") =
                 Some (fun x => cu_eqb (ch ".") x)) by reflexivity.
  unfold exec_at, re_decimal. rewrite rmatch_group.
  unfold Seqs, Plus, AtLeast3. rewrite rmatch_seq_assoc.
  rewrite (rmatch_seq_one_char _ _ _ _ _ _ Hd).
  destruct w as [|w0 w].
  { cbn [app]. destruct rest as [|c t]; [reflexivity|].
    cbn [starts_with_digit] in Hr. unfold dcls. rewrite digit_class, Hr.
    reflexivity. }
  cbn [app]. cbn [all_digits forallb] in Hw. apply andb_prop in Hw.
  destruct Hw as [Hw0 Hw]. unfold dcls at 1. rewrite digit_class, Hw0.
  rewrite (rmatch_seq_star_one_char _ _ _ _ _ _ Hd).
  destruct (run_suffixes_app dcls w rest) as (tl & E & Htl).
  { unfold dcls. rewrite forallb_digit_class. exact Hw. }
  { unfold dcls. rewrite head_digit_class. exact Hr. }
  rewrite E. cbn [flat_map].
  rewrite (flat_map_all_nil _ _ _ tl).
  2:{ eapply Forall_impl; [|exact Htl]. intros r Hr'.
      rewrite (rmatch_seq_one_char _ _ _ _ _ _ Hdot).
      destruct r as [|x r]; [reflexivity|]. cbn [head_is] in Hr'.
      unfold dcls in Hr'. rewrite digit_class in Hr'.
      rewrite (digit_is_not_dot _ Hr'). reflexivity. }
  rewrite app_nil_r.
  rewrite (rmatch_seq_one_char _ _ _ _ _ _ Hdot).
  destruct rest as [|c [|d1 [|d2 [|d3 t]]]]; try reflexivity;
    cbn [decimal_tail] in Ht.
  - destruct (cu_eqb (ch ".") c); [|reflexivity].
    rewrite (rmatch_seq_one_char _ _ _ _ _ _ Hd). reflexivity.
  - destruct (cu_eqb (ch ".") c); [|reflexivity].
    rewrite (rmatch_seq_one_char _ _ _ _ _ _ Hd).
    destruct (dcls d1); [|reflexivity].
    rewrite (rmatch_seq_one_char _ _ _ _ _ _ Hd). reflexivity.
  - destruct (cu_eqb (ch ".") c); [|reflexivity].
    rewrite (rmatch_seq_one_char _ _ _ _ _ _ Hd).
    destruct (dcls d1); [|reflexivity].
    rewrite (rmatch_seq_one_char _ _ _ _ _ _ Hd).
    destruct (dcls d2); [|reflexivity].
    rewrite (rmatch_seq_one_char _ _ _ _ _ _ Hd). reflexivity.
  - destruct (cu_eqb (ch ".") c); [|reflexivity]. cbn [andb] in Ht.
    rewrite (rmatch_seq_one_char _ _ _ _ _ _ Hd).
    unfold dcls at 1. rewrite digit_class.
    destruct (is_digit d1); [|reflexivity].
    rewrite (rmatch_seq_one_char _ _ _ _ _ _ Hd).
    unfold dcls at 1. rewrite digit_class.
    destruct (is_digit d2); [|reflexivity].
    rewrite (rmatch_seq_one_char _ _ _ _ _ _ Hd).
    unfold dcls at 1. rewrite digit_class.
    cbn [andb] in Ht. rewrite Ht. reflexivity.
Qed.

(** Code units at which no match starts are copied. *)
Lemma replace_go_unmatched ic r f x rest :
  (forall w1 w2, x = w1 ++ w2 -> w2 <> [] ->
                 exec_at ic r (w2 ++ rest) = None) ->
  replace_go ic r f (x ++ rest) 0 = x ++ replace_go ic r f rest 0.
Proof.
  induction x as [|c x IH]; intros H; [reflexivity|].
  pose proof (H [] (c :: x) eq_refl ltac:(discriminate)) as H0.
  cbn [app] in *. rewrite replace_go_cons0, H0.
  f_equal. apply IH. intros w1 w2 E Hne.
  apply (H (c :: w1) w2); [rewrite E; reflexivity|exact Hne].
Qed.

Lemma suffix_of_literal (a b w1 w2 : jsstring) :
  a ++ ch "." :: b = w1 ++ w2 ->
  (exists a1 a2, a = a1 ++ a2 /\ w2 = a2 ++ ch "." :: b) \/
  (exists b1, b = b1 ++ w2).
Proof.
  revert w1. induction a as [|c a IH]; intros w1 E.
  - destruct w1 as [|x w1].
    + left. exists [], []. split; [reflexivity|]. symmetry. exact E.
    + right. injection E as _ E. exists w1. exact E.
  - destruct w1 as [|x w1].
    + left. exists [], (c :: a). split; [reflexivity|]. symmetry. exact E.
    + injection E as _ E. destruct (IH w1 E) as [(a1 & a2 & -> & ->)|(b1 & ->)].
      * left. exists (c :: a1), a2. split; reflexivity.
      * right. exists b1. reflexivity.
Qed.

Lemma all_digits_app a b :
  all_digits (a ++ b) = all_digits a && all_digits b.
Proof. apply forallb_app. Qed.

Lemma no_match_in_rounded a b rest :
  all_digits a = true -> all_digits b = true -> length b = 2 ->
  starts_numeric rest = false ->
  forall w1 w2, a ++ ch "." :: b = w1 ++ w2 -> w2 <> [] ->
                exec_at false re_decimal (w2 ++ rest) = None.
Proof.
  intros Ha Hb Hlen Hrest w1 w2 E Hne.
  assert (Hr1 : starts_with_digit rest = false /\ decimal_tail rest = false).
  { destruct rest as [|c t]; [split; reflexivity|].
    unfold starts_numeric in Hrest. cbn [head_is] in Hrest.
    apply orb_false_elim in Hrest. destruct Hrest as [H1 H2].
    split; [exact H1|]. cbn [decimal_tail].
    destruct t as [|d1 [|d2 [|d3 t]]]; try reflexivity.
    rewrite H2. reflexivity. }
  destruct Hr1 as [Hr1 Hr2].
  destruct (suffix_of_literal a b w1 w2 E) as [(a1 & a2 & -> & ->)|(b1 & ->)].
  - rewrite all_digits_app in Ha. apply andb_prop in Ha.
    destruct Ha as [_ Ha2]. rewrite <- app_assoc.
    apply exec_decimal_fails; [exact Ha2|reflexivity|].
    destruct b as [|x [|y [|z b]]]; try (simpl in Hlen; lia).
    cbn [app decimal_tail].
    destruct rest as [|c t]; [reflexivity|].
    cbn [starts_with_digit] in Hr1. rewrite Hr1.
    rewrite !andb_false_r. reflexivity.
  - rewrite all_digits_app in Hb. apply andb_prop in Hb.
    destruct Hb as [_ Hb2].
    apply exec_decimal_fails; assumption.
Qed.

Lemma replace_decimal_head post :
  starts_numeric post = false ->
  starts_numeric (replace_all false re_decimal round_decimal_value post)
  = false.
Proof.
  intros H. destruct post as [|c t]; [reflexivity|].
  unfold replace_all. rewrite replace_go_cons0.
  assert (Hc : is_digit c = false).
  { unfold starts_numeric in H. cbn [head_is] in H.
    apply orb_false_elim in H. tauto. }
  assert (Ht : decimal_tail (c :: t) = false).
  { cbn [decimal_tail]. destruct t as [|d1 [|d2 [|d3 t]]]; try reflexivity.
    unfold starts_numeric in H. cbn [head_is] in H.
    apply orb_false_elim in H. destruct H as [_ H]. rewrite H. reflexivity. }
  pose proof (exec_decimal_fails [] (c :: t) eq_refl Hc Ht) as He.
  cbn [app] in He. rewrite He. exact H.
Qed.

(** X10 (the decimal step of optimizeSVG in
    src/ultra_optimized_svg_bundler.js and of ultraOptimizeSVG in
    src/unnamed/part_000): a second pass leaves a rounded literal alone.
    For a literal below 10^21 with three or more fractional digits,
    followed by text that does not start with a digit or a point and that
    a pass leaves as [r]: if another pass does not change [r], it does not
    change the result for the literal with that text either. *)
Theorem rounding_twice_is_rounding_once :
  forall (ip fp post r : jsstring) (m e : Z),
    ip <> [] -> all_digits ip = true -> all_digits fp = true ->
    3 <= length fp ->
    starts_numeric post = false ->
    parseFloat (ip ++ ch "." :: fp) = Finite m e ->
    ge_int m e (10 ^ 21) = false ->
    reduce_precision post = Some r ->
    reduce_precision r = Some r ->
    exists out,
      reduce_precision ((ip ++ ch "." :: fp) ++ post) = Some out /\
      reduce_precision out = Some out.
Proof.
  intros ip fp post r m e Hne Hip Hfp Hlen Hpost Hpf Hlt Hr Hrr.
  rewrite reduce_precision_value in Hr, Hrr. injection Hr as Hr.
  injection Hrr as Hrr.
  assert (Hsd : starts_with_digit post = false).
  { destruct post as [|c t]; [reflexivity|].
    unfold starts_numeric in Hpost. cbn [head_is] in Hpost.
    apply orb_false_elim in Hpost. tauto. }
  assert (Hm : (0 <= m)%Z).
  { rewrite parseFloat_literal in Hpf by assumption.
    apply (round64_nonneg _ _ _ _ ) in Hpf; [exact Hpf| |].
    - apply dec_value_nonneg. rewrite all_digits_app, Hip, Hfp. reflexivity.
    - apply Z.pow_pos_nonneg; lia. }
  destruct (fixed2_shape m e Hm Hlt) as (a & b & H1 & H2 & H3 & H4 & H5 & _).
  exists ((a ++ ch "." :: b) ++ r).
  rewrite !reduce_precision_value.
  rewrite (reduce_precision_literal ip fp post Hne Hip Hfp Hlen Hsd).
  rewrite Hpf, H1, Hr. split; [reflexivity|]. f_equal.
  unfold replace_all.
  rewrite (replace_go_unmatched false re_decimal round_decimal_value
             (a ++ ch "." :: b) r).
  - f_equal. exact Hrr.
  - apply no_match_in_rounded; try assumption.
    rewrite <- Hr. apply replace_decimal_head. exact Hpost.
Qed.

Lemma rounding_twice_is_rounding_once_witness :
  exists out,
    reduce_precision ((str "12" ++ ch "." :: str "34567") ++ str " 0.9999z")
      = Some out /\
    reduce_precision out = Some out.
Proof.
  assert (Hpf : parseFloat (str "12" ++ ch "." :: str "34567") =
                Finite 6949994351454889 (-49)) by (vm_compute; reflexivity).
  assert (Hr : reduce_precision (str " 0.9999z") = Some (str " 1.00z"))
    by (vm_compute; reflexivity).
  assert (Hrr : reduce_precision (str " 1.00z") = Some (str " 1.00z"))
    by (vm_compute; reflexivity).
  assert (Hlt : ge_int 6949994351454889 (-49) (10 ^ 21) = false)
    by (vm_compute; reflexivity).
  apply (rounding_twice_is_rounding_once
           (str "12") (str "34567") (str " 0.9999z") (str " 1.00z")
           6949994351454889 (-49)).
  - discriminate.
  - reflexivity.
  - reflexivity.
  - simpl. lia.
  - reflexivity.
  - exact Hpf.
  - exact Hlt.
  - exact Hr.
  - exact Hrr.
Defined.

(** *** White space in the results *)

Lemma Ultra_optimizeSVG_plain s out :
  Ultra.optimizeSVG s = Some out -> Forall plain_space out.
Proof.
  rewrite Ultra_optimizeSVG_value. intros [= <-].
  unfold Ultra.step6. repeat apply remove_Forall.
  apply shorten_hex_Forall; [apply plain_space_not_ws; reflexivity|].
  apply rgb_plain. unfold Ultra.step4. apply Forall_trim.
  unfold tighten_equals, join_tags.
  apply const_plain; [reflexivity|]. apply const_plain; [reflexivity|].
  apply collapse_spaces_plain.
Qed.

Lemma clean_plain s : Forall plain_space (Utf8.clean s).
Proof.
  unfold Utf8.clean, join_tags.
  apply const_plain; [reflexivity|]. apply remove_Forall.
  apply collapse_spaces_plain.
Qed.

(** X11 (optimizeSVG of src/ultra_optimized_svg_bundler.js,
    ultraOptimizeSVG of src/unnamed/part_000, the cleaning in svgToDataUri
    of src/svg_utf8_bundler.js): the optimizers return a string for every
    input (their replacement functions never throw, toFixed being called
    with 2 and toString with 16), and once /\s+/g has been replaced by a
    space no later step writes white space: in the result of each of the
    three functions every white-space code unit is the space U+0020, no
    tab, line feed, carriage return or no-break space is left. *)
Theorem only_plain_spaces_remain :
  forall s : jsstring,
    (exists out, Ultra.optimizeSVG s = Some out /\ Forall plain_space out) /\
    (exists out,
        Part0.ultraOptimizeSVG s = Some out /\ Forall plain_space out) /\
    Forall plain_space (Utf8.clean s).
Proof.
  intros s. split; [|split].
  - destruct (Ultra.optimizeSVG s) as [out|] eqn:E.
    + exists out. split; [reflexivity|].
      exact (Ultra_optimizeSVG_plain s out E).
    + rewrite Ultra_optimizeSVG_value in E. discriminate.
  - destruct (Part0.ultraOptimizeSVG s) as [out|] eqn:E.
    + exists out. split; [reflexivity|].
      exact (ultraOptimizeSVG_plain s out E).
    + rewrite Part0_ultraOptimizeSVG_value in E. discriminate.
  - apply clean_plain.
Qed.
(* ================================================================== *)
(** ** The key that getEmojiDataUrl looks up *)
(* ================================================================== *)

Lemma starts_with_spec p s :
  starts_with p s = true <-> exists post, s = p ++ post.
Proof.
  revert s. induction p as [|a p IH]; intros s; cbn [starts_with].
  - split; [intros _; exists s; reflexivity|reflexivity].
  - destruct s as [|b s].
    + split; [discriminate|]. intros (post & H). discriminate.
    + rewrite andb_true_iff, IH, cu_eqb_eq. split.
      * intros (-> & post & ->). exists post. reflexivity.
      * intros (post & H). injection H as -> ->. split; [reflexivity|].
        exists post. reflexivity.
Qed.

Lemma endsWith_spec s p :
  endsWith s p = true <-> exists pre, s = pre ++ p.
Proof.
  unfold endsWith. rewrite starts_with_spec. split.
  - intros (post & H). exists (rev post).
    apply (f_equal (@rev N)) in H. rewrite rev_involutive in H.
    rewrite H, rev_app_distr, rev_involutive. reflexivity.
  - intros (pre & ->). exists (rev pre). apply rev_app_distr.
Qed.

Lemma endsWith_cons c t ext :
  c :: t <> ext -> endsWith (c :: t) ext = endsWith t ext.
Proof.
  intros Hne. apply eq_true_iff_eq. rewrite !endsWith_spec. split.
  - intros ([|x pre] & H); [exfalso; apply Hne; exact H|].
    injection H as _ ->. exists pre. reflexivity.
  - intros (pre & ->). exists (c :: pre). reflexivity.
Qed.

Lemma endsWith_length s ext :
  endsWith s ext = true -> length ext <= length s.
Proof.
  intros H. apply endsWith_spec in H. destruct H as (pre & ->).
  rewrite length_app. lia.
Qed.

Lemma strip_suffix_cons ext c t :
  strip_suffix ext (c :: t) =
  if str_eqb (c :: t) ext then [] else c :: strip_suffix ext t.
Proof.
  unfold strip_suffix. destruct (str_eqb (c :: t) ext) eqn:E.
  - apply str_eqb_eq in E. rewrite E.
    assert (H : endsWith ext ext = true)
      by (apply endsWith_spec; exists []; reflexivity).
    rewrite H, Nat.sub_diag. reflexivity.
  - apply str_eqb_neq in E. rewrite (endsWith_cons c t ext E).
    destruct (endsWith t ext) eqn:Et; [|reflexivity].
    apply endsWith_length in Et. cbn [length].
    replace (S (length t) - length ext) with (S (length t - length ext))
      by lia.
    reflexivity.
Qed.

Lemma canon_false_eqb c x :
  cu_eqb (canon false c) (canon false x) = cu_eqb x c.
Proof. unfold canon, cu_eqb. apply N.eqb_sym. Qed.

(** /\.svg$/ and its like match a string that is the suffix itself. *)
Lemma exec_suffix4 c1 c2 c3 c4 s :
  exec_at false (Seq (Lit [c1; c2; c3; c4]) Eol) s =
  if str_eqb s [c1; c2; c3; c4] then Some (4, []) else None.
Proof.
  unfold exec_at. cbn [Lit]. rewrite !rmatch_seq_assoc.
  rewrite (rmatch_seq_one_char false (Chr c1) _ _ s [] eq_refl).
  destruct s as [|x1 s]; [reflexivity|].
  rewrite canon_false_eqb. cbn [str_eqb].
  destruct (cu_eqb x1 c1); [|reflexivity]. cbn [andb].
  rewrite ?rmatch_seq_assoc.
  rewrite (rmatch_seq_one_char false (Chr c2) _ _ s [] eq_refl).
  destruct s as [|x2 s]; [reflexivity|].
  rewrite canon_false_eqb. cbn [str_eqb].
  destruct (cu_eqb x2 c2); [|reflexivity]. cbn [andb].
  rewrite ?rmatch_seq_assoc.
  rewrite (rmatch_seq_one_char false (Chr c3) _ _ s [] eq_refl).
  destruct s as [|x3 s]; [reflexivity|].
  rewrite canon_false_eqb. cbn [str_eqb].
  destruct (cu_eqb x3 c3); [|reflexivity]. cbn [andb].
  rewrite ?rmatch_seq_assoc.
  rewrite (rmatch_seq_one_char false (Chr c4) _ _ s [] eq_refl).
  destruct s as [|x4 s]; [reflexivity|].
  rewrite canon_false_eqb. cbn [str_eqb].
  destruct (cu_eqb x4 c4); [|reflexivity]. cbn [andb].
  destruct s as [|x5 s]; reflexivity.
Qed.

(** Removing the first match of such a regex strips the suffix. *)
Lemma replace_first_suffix4 c1 c2 c3 c4 s :
  replace_first false (Seq (Lit [c1; c2; c3; c4]) Eol) (const []) s =
  strip_suffix [c1; c2; c3; c4] s.
Proof.
  induction s as [|c t IH].
  - cbn [replace_first]. rewrite exec_suffix4. reflexivity.
  - rewrite strip_suffix_cons. cbn [replace_first]. rewrite exec_suffix4.
    destruct (str_eqb (c :: t) [c1; c2; c3; c4]) eqn:E.
    + apply str_eqb_eq in E. rewrite E. reflexivity.
    + rewrite IH. reflexivity.
Qed.

Lemma basename_strip_suffix file ext :
  basename file ext = strip_suffix ext file.
Proof.
  unfold basename, strip_suffix. destruct (str_eqb file ext) eqn:E;
    [|reflexivity].
  apply str_eqb_eq in E. subst file.
  assert (H : endsWith ext ext = true)
    by (apply endsWith_spec; exists []; reflexivity).
  rewrite H, Nat.sub_diag. reflexivity.
Qed.

(** Both forms of the first regex match the prefix [sprite/]. *)
Lemma exec_sprite_prefix file :
  exec_at false re_sprite_class (str "sprite/" ++ file) = Some (7, []) /\
  exec_at false re_sprite_slash (str "sprite/" ++ file) = Some (7, []).
Proof.
  change (str "sprite/" ++ file)
    with (ch "s" :: ch "p" :: ch "r" :: ch "i" :: ch "t" :: ch "e"
          :: ch "/" :: file).
  assert (Hl : length (ch "s" :: ch "p" :: ch "r" :: ch "i" :: ch "t"
                       :: ch "e" :: ch "/" :: file) - length file = 7).
  { cbn [length]. lia. }
  unfold exec_at, re_sprite_class, re_sprite_slash, L.
  split.
  - change (rmatch false
              (Seq (Lit (str "sprite"))
                   (Cls false [CRange (ch "/") (ch "/")]))
              (ch "s" :: ch "p" :: ch "r" :: ch "i" :: ch "t" :: ch "e"
               :: ch "/" :: file, []))
      with [(file, @nil (nat * list N))].
    cbv beta iota. rewrite Hl. reflexivity.
  - change (rmatch false (Lit (str "sprite/"))
              (ch "s" :: ch "p" :: ch "r" :: ch "i" :: ch "t" :: ch "e"
               :: ch "/" :: file, []))
      with [(file, @nil (nat * list N))].
    cbv beta iota. rewrite Hl. reflexivity.
Qed.

Lemma emoji_key_of_path re file :
  exec_at false re (str "sprite/" ++ file) = Some (7, []) ->
  emoji_key re (str "sprite/" ++ file) =
  strip_suffix (str ".png") (strip_suffix (str ".svg") file).
Proof.
  intros He. unfold emoji_key, replace_at_start. rewrite He.
  change (skipn 7 (str "sprite/" ++ file)) with file.
  unfold const. cbn [app]. unfold re_suffix, L.
  change (str ".svg") with [ch "."; ch "s"; ch "v"; ch "g"].
  change (str ".png") with [ch "."; ch "p"; ch "n"; ch "g"].
  rewrite !replace_first_suffix4. reflexivity.
Qed.

(** X12 (the helper getEmojiDataUrl in the files written by generateOutput
    of src/ultra_optimized_svg_bundler.js and generateOutputFile of
    src/unnamed/part_000, against the key computed in bundleEmojis): for a
    file of the sprite directory whose bundle key (its name without a final
    [.svg]) does not end in [.png], the key that the helper computes from
    the path [sprite/] + file name is the key under which bundleEmojis
    stored the file. *)
Theorem helper_key_is_bundle_key :
  forall file : jsstring,
    endsWith (key_of file) (str ".png") = false ->
    emoji_key re_sprite_class (str "sprite/" ++ file) = key_of file /\
    emoji_key re_sprite_slash (str "sprite/" ++ file) = key_of file.
Proof.
  intros file Hpng. destruct (exec_sprite_prefix file) as [H1 H2].
  rewrite (emoji_key_of_path _ file H1), (emoji_key_of_path _ file H2).
  unfold key_of in *. rewrite basename_strip_suffix in *.
  assert (H : strip_suffix (str ".png") (strip_suffix (str ".svg") file)
              = strip_suffix (str ".svg") file).
  { unfold strip_suffix at 1. rewrite Hpng. reflexivity. }
  rewrite H. split; reflexivity.
Qed.

Lemma helper_key_is_bundle_key_witness :
  let file := str "emoji_smile.SVG.svg" in
  emoji_key re_sprite_class (str "sprite/" ++ file) = key_of file /\
  emoji_key re_sprite_slash (str "sprite/" ++ file) = key_of file.
Proof.
  intros file. apply (helper_key_is_bundle_key file). reflexivity.
Defined.
(* ================================================================== *)
(** ** Collapsing white space *)
(* ================================================================== *)

Lemma takeWhile_dropWhile p (s : jsstring) :
  takeWhile p s ++ dropWhile p s = s /\
  forallb p (takeWhile p s) = true /\
  head_is p (dropWhile p s) = false.
Proof.
  induction s as [|c t (H1 & H2 & H3)]; [repeat split|].
  cbn [takeWhile dropWhile]. fold (takeWhile p). fold (dropWhile p).
  destruct (p c) eqn:E.
  - cbn [app forallb]. rewrite H1, H2, E. repeat split. exact H3.
  - cbn [app forallb head_is]. repeat split. exact E.
Qed.

Lemma space_class c : in_class false false [CSpace] c = is_ws c.
Proof.
  unfold in_class, in_item_ic. cbn [existsb in_item andb orb xorb].
  rewrite !orb_false_r. reflexivity.
Qed.

Lemma forallb_space_class s :
  forallb (in_class false false [CSpace]) s = forallb is_ws s.
Proof.
  induction s as [|c t IH]; [reflexivity|].
  cbn [forallb]. rewrite IH, space_class. reflexivity.
Qed.

Lemma head_space_class s :
  head_is (in_class false false [CSpace]) s = head_is is_ws s.
Proof. destruct s; [reflexivity|apply space_class]. Qed.

(** /\s+/ at a white-space code unit takes the whole run. *)
Lemma exec_spaces_run c w rest :
  is_ws c = true -> forallb is_ws w = true -> head_is is_ws rest = false ->
  exec_at false re_spaces ((c :: w) ++ rest) = Some (length (c :: w), []).
Proof.
  intros Hc Hw Hr. unfold exec_at, re_spaces, Plus, space. cbn [app].
  rewrite (rmatch_seq_one_char false (Cls false [CSpace]) _
             (in_class false false [CSpace]) (c :: w ++ rest) [] eq_refl).
  rewrite space_class, Hc.
  rewrite (star_one_char false (Cls false [CSpace])
             (in_class false false [CSpace]) (w ++ rest) [] eq_refl).
  destruct (run_suffixes_app (in_class false false [CSpace]) w rest)
    as (tl & E & _).
  { rewrite forallb_space_class. exact Hw. }
  { rewrite head_space_class. exact Hr. }
  rewrite E. cbn [map]. f_equal. f_equal.
  cbn [length]. rewrite length_app. lia.
Qed.

Lemma exec_spaces_none s :
  head_is is_ws s = false -> exec_at false re_spaces s = None.
Proof.
  intros H. unfold exec_at, re_spaces, Plus, space.
  rewrite (rmatch_seq_one_char false (Cls false [CSpace]) _
             (in_class false false [CSpace]) s [] eq_refl).
  destruct s as [|c t]; [reflexivity|].
  cbn [head_is] in H. rewrite space_class, H. reflexivity.
Qed.

Lemma squeeze_after_run w rest :
  forallb is_ws w = true -> head_is is_ws rest = false ->
  squeeze true (w ++ rest) = squeeze false rest.
Proof.
  intros Hw Hr. induction w as [|x w IH].
  - destruct rest as [|c t]; [reflexivity|].
    cbn [app squeeze]. cbn [head_is] in Hr. rewrite Hr. reflexivity.
  - cbn [forallb] in Hw. apply andb_prop in Hw. destruct Hw as [Hx Hw].
    cbn [app squeeze]. rewrite Hx. apply IH. exact Hw.
Qed.

(** The replacement of /\s+/g by a space, run through the matcher, is the
    direct recursion. *)
Lemma collapse_spaces_squeeze : forall n s,
  length s <= n ->
  replace_go false re_spaces (const (str " ")) s 0 = squeeze false s.
Proof.
  induction n as [|n IH]; intros s Hn.
  - destruct s; [|simpl in Hn; lia].
    apply replace_go_nil. apply exec_spaces_none. reflexivity.
  - destruct s as [|c t].
    { apply replace_go_nil. apply exec_spaces_none. reflexivity. }
    cbn [length] in Hn. destruct (is_ws c) eqn:Hc.
    + destruct (takeWhile_dropWhile is_ws t) as (Ht & Hw & Hr).
      set (w := takeWhile is_ws t) in *. set (rest := dropWhile is_ws t) in *.
      rewrite <- Ht.
      change (c :: w ++ rest) with ((c :: w) ++ rest).
      rewrite (replace_go_match false re_spaces (const (str " "))
                 (c :: w) rest []).
      * rewrite IH.
        2:{ apply (f_equal (@length N)) in Ht. rewrite length_app in Ht. lia. }
        cbn [app squeeze]. rewrite Hc.
        rewrite (squeeze_after_run w rest Hw Hr). reflexivity.
      * discriminate.
      * apply exec_spaces_run; assumption.
    + rewrite replace_go_cons0.
      rewrite (exec_spaces_none (c :: t)) by exact Hc.
      cbn [squeeze]. rewrite Hc. f_equal. apply IH. lia.
Qed.

Lemma squeeze_single_spaced s :
  single_spaced (squeeze false s) = true /\
  single_spaced (squeeze true s) = true /\
  head_is is_ws (squeeze true s) = false.
Proof.
  induction s as [|c t (H1 & H2 & H3)]; [repeat split|].
  cbn [squeeze]. destruct (is_ws c) eqn:Hc.
  - cbn [single_spaced]. rewrite H2, H3, andb_false_r. repeat split.
  - cbn [single_spaced head_is]. rewrite Hc, H1. repeat split.
Qed.

Lemma squeeze_fixed s :
  single_spaced s = true -> Forall plain_space s -> squeeze false s = s.
Proof.
  intros Hs Hp. induction Hp as [|c t Hc Ht IH]; [reflexivity|].
  cbn [single_spaced] in Hs. apply andb_prop in Hs. destruct Hs as [Hh Hs].
  cbn [squeeze]. destruct (is_ws c) eqn:Ec.
  - rewrite (Hc Ec). f_equal. cbn [andb] in Hh. apply negb_true_iff in Hh.
    rewrite <- (IH Hs) at 2.
    destruct t as [|x t]; [reflexivity|].
    cbn [head_is] in Hh. cbn [squeeze]. rewrite Hh. reflexivity.
  - f_equal. apply IH. exact Hs.
Qed.

(** X13 (the replacement of /\s+/g by a space in optimizeSVG,
    ultraOptimizeSVG and both svgToDataUri of src/svg_utf8_bundler.js):
    the result is the input with every run of white space replaced by one
    space, so it has no two white-space code units in a row, and
    collapsing it again changes nothing. *)
Theorem collapsing_spaces_is_idempotent :
  forall s : jsstring,
    collapse_spaces s = squeeze false s /\
    single_spaced (collapse_spaces s) = true /\
    collapse_spaces (collapse_spaces s) = collapse_spaces s.
Proof.
  intros s.
  assert (H : forall x, collapse_spaces x = squeeze false x).
  { intros x. unfold collapse_spaces, replace_all. 
    apply (collapse_spaces_squeeze (length x)). apply Nat.le_refl. }
  split; [apply H|]. 
  assert (Hs : single_spaced (collapse_spaces s) = true).
  { rewrite H. apply squeeze_single_spaced. }
  split; [exact Hs|].
  rewrite (H (collapse_spaces s)). apply squeeze_fixed; [exact Hs|].
  apply collapse_spaces_plain.
Qed.
(* ================================================================== *)
(** ** bundleEmojis of src/unnamed/part_000 *)
(* ================================================================== *)

Section Part0Loop.

Variable fsys : filesystem.

Let step := Part0Run.process_file fsys.

Lemma part0_process_all files :
  Part0Run.process_all fsys files = fold_left step files Part0Run.initial.
Proof.
  unfold Part0Run.process_all. rewrite fold_left_concat.
  rewrite batches_concat; [reflexivity|unfold Part0Run.BATCH_SIZE; lia|].
  apply Nat.le_refl.
Qed.

Lemma part0_written entries result :
  dir_entries fsys = Some entries ->
  Part0Run.output_file (Part0Run.bundleEmojis fsys) = Some result ->
  fold_left step (svg_files entries) Part0Run.initial = result /\
  Part0Run.exit_status (Part0Run.bundleEmojis fsys) = 0%Z /\
  svg_files entries <> [] /\ dir_exists fsys = true /\ can_write fsys = true.
Proof.
  intros Hd. unfold Part0Run.bundleEmojis. rewrite Hd.
  destruct (dir_exists fsys); cbn [negb]; [|discriminate].
  destruct (svg_files entries) as [|f files] eqn:Ef; [discriminate|].
  destruct (can_write fsys); [|discriminate].
  cbn [Part0Run.output_file Part0Run.exit_status]. intros [= <-].
  rewrite part0_process_all. repeat split. discriminate.
Qed.

Lemma best_of_step seen o st f :
  best_of fsys seen (Part0Run.largestReduction st) ->
  best_of fsys (fun x => seen x \/ x = f)
          (Part0Run.largestReduction (snd (step (o, st) f))).
Proof.
  intros (H0 & Hmax & Hpos & Hzero).
  unfold step, Part0Run.process_file.
  assert (Hkeep : (forall s, Part0Run.savings_of fsys f = Some s ->
                             (s <= Part0Run.savings
                                     (Part0Run.largestReduction st))%Z) ->
                  best_of fsys (fun x => seen x \/ x = f)
                          (Part0Run.largestReduction st)).
  { intros Hf. split; [exact H0|]. split; [|split].
    - intros x s [Hx| ->] Hs; [exact (Hmax x s Hx Hs)|exact (Hf s Hs)].
    - intros Hp. destruct (Hpos Hp) as [H1 H2]. auto.
    - exact Hzero. }
  unfold Part0Run.savings_of in Hkeep.
  destruct (file_content fsys f) as [c|] eqn:Ec;
    [|cbn [snd Part0Run.largestReduction]; apply Hkeep; discriminate].
  destruct (Part0.svgToDataUri c) as [u|] eqn:Eu;
    [|cbn [snd Part0Run.largestReduction]; apply Hkeep; discriminate].
  cbn [snd Part0Run.largestReduction].
  change (Z.of_nat (length (str "data:image/svg+xml;charset=utf-8,")))
    with 33%Z.
  set (sv := (Z.of_nat (length c) - (Z.of_nat (length u) - 33))%Z) in *.
  destruct (sv >? Part0Run.savings (Part0Run.largestReduction st))%Z eqn:E.
  - apply Z.gtb_lt in E. unfold best_of.
    cbn [Part0Run.savings Part0Run.file Part0Run.percent].
    split; [lia|]. split; [|split].
    + intros x s [Hx| ->] Hs.
      * specialize (Hmax x s Hx Hs). lia.
      * unfold Part0Run.savings_of in Hs. rewrite Ec, Eu in Hs.
        injection Hs as <-. fold sv. lia.
    + intros _. split; [right; reflexivity|].
      unfold Part0Run.savings_of. rewrite Ec, Eu. reflexivity.
    + intros Hz. lia.
  - apply Hkeep. intros s [= <-].
    destruct (Z.gtb_spec sv (Part0Run.savings (Part0Run.largestReduction st)));
      [discriminate|lia].
Qed.

Lemma best_of_ext (P Q : jsstring -> Prop) best :
  (forall x, P x <-> Q x) -> best_of fsys P best -> best_of fsys Q best.
Proof.
  intros Hpq (H0 & Hmax & Hpos & Hzero). split; [exact H0|].
  split; [|split].
  - intros f s Hf. apply Hmax. apply Hpq. exact Hf.
  - intros Hp. destruct (Hpos Hp) as [H1 H2]. split; [|exact H2].
    apply Hpq. exact H1.
  - exact Hzero.
Qed.

Lemma best_of_loop files : forall seen o st,
  best_of fsys (fun x => In x seen) (Part0Run.largestReduction st) ->
  best_of fsys (fun x => In x (seen ++ files))
          (Part0Run.largestReduction (snd (fold_left step files (o, st)))).
Proof.
  induction files as [|f files IH]; intros seen o st H.
  - rewrite app_nil_r. exact H.
  - cbn [fold_left].
    destruct (step (o, st) f) as [o1 st1] eqn:E.
    apply (best_of_ext (fun x => In x ((seen ++ [f]) ++ files))).
    { intros x. rewrite <- app_assoc. reflexivity. }
    apply IH.
    apply (best_of_ext (fun x => In x seen \/ x = f)).
    { intros x. rewrite in_app_iff. simpl. intuition. }
    pose proof (best_of_step (fun x => In x seen) o st f H) as Hs.
    rewrite E in Hs. exact Hs.
Qed.

(** The loop of part_000 and the loop of the other scripts, run with the
    encoder of part_000, differ in the statistics only. *)
Lemma part0_step_simulates o st st' f :
  same_counters st st' ->
  fst (step (o, st) f) = fst (process_file Part0.svgToDataUri fsys (o, st') f)
  /\ same_counters (snd (step (o, st) f))
                   (snd (process_file Part0.svgToDataUri fsys (o, st') f)).
Proof.
  intros (H1 & H2 & H3 & H4).
  unfold step, Part0Run.process_file, process_file, same_counters.
  destruct (file_content fsys f) as [c|].
  - destruct (Part0.svgToDataUri c) as [u|];
      cbn [fst snd Part0Run.processed Part0Run.errors
           Part0Run.originalSize Part0Run.optimizedSize
           processed errors originalSize optimizedSize].
    + change (Z.of_nat (length (str "data:image/svg+xml;charset=utf-8,")))
        with 33%Z.
      repeat split; try congruence; lia.
    + repeat split; try congruence; lia.
  - cbn [fst snd Part0Run.processed Part0Run.errors
         Part0Run.originalSize Part0Run.optimizedSize
         processed errors originalSize optimizedSize].
    repeat split; try congruence; lia.
Qed.

Lemma part0_loop_simulates files : forall o st st',
  same_counters st st' ->
  fst (fold_left step files (o, st)) =
  fst (fold_left (process_file Part0.svgToDataUri fsys) files (o, st')) /\
  same_counters
    (snd (fold_left step files (o, st)))
    (snd (fold_left (process_file Part0.svgToDataUri fsys) files (o, st'))).
Proof.
  induction files as [|f files IH]; intros o st st' H; cbn [fold_left].
  - cbn [fst snd]. auto.
  - destruct (part0_step_simulates o st st' f H) as [Ho Hs].
    destruct (step (o, st) f) as [o1 st1].
    destruct (process_file Part0.svgToDataUri fsys (o, st') f) as [o1' st1'].
    cbn [fst snd] in Ho, Hs. subst o1'. apply IH. exact Hs.
Qed.

End Part0Loop.

(** X14 ([stats.largestReduction] in bundleEmojis of src/unnamed/part_000):
    in a run that writes its output, the reduction reported as the best
    one is not negative and is at least what any file that was read and
    encoded saves (the length of its content less that of its payload);
    when it is positive it is what the reported file saves, and when it is
    zero no file is reported. *)
Theorem largest_reduction_is_maximal :
  forall (fsys : filesystem) (entries : list jsstring)
         (bundle : object) (st : Part0Run.stats),
    dir_entries fsys = Some entries ->
    Part0Run.output_file (Part0Run.bundleEmojis fsys) = Some (bundle, st) ->
    (0 <= Part0Run.savings (Part0Run.largestReduction st))%Z /\
    (forall f s,
        In f (svg_files entries) ->
        Part0Run.savings_of fsys f = Some s ->
        (s <= Part0Run.savings (Part0Run.largestReduction st))%Z) /\
    ((0 < Part0Run.savings (Part0Run.largestReduction st))%Z ->
     In (Part0Run.file (Part0Run.largestReduction st)) (svg_files entries) /\
     Part0Run.savings_of fsys (Part0Run.file (Part0Run.largestReduction st))
     = Some (Part0Run.savings (Part0Run.largestReduction st))) /\
    (Part0Run.savings (Part0Run.largestReduction st) = 0%Z ->
     Part0Run.file (Part0Run.largestReduction st) = [] /\
     Part0Run.percent (Part0Run.largestReduction st) = None).
Proof.
  intros fsys entries bundle st Hd Ho.
  destruct (part0_written fsys entries (bundle, st) Hd Ho) as (Hf & _).
  pose proof (best_of_loop fsys (svg_files entries) []
                (fst Part0Run.initial) (snd Part0Run.initial)) as H.
  change (fst Part0Run.initial, snd Part0Run.initial)
    with Part0Run.initial in H.
  rewrite Hf in H. cbn [snd app] in H. apply H.
  unfold best_of. cbn. repeat split; try lia; try tauto; try discriminate.
Qed.

(** Three files: one that grows when encoded, one that shrinks, one that
    cannot be read. *)
Lemma largest_reduction_is_maximal_witness :
  let entries := [str "a.svg"; str "b.svg"; str "c.svg"] in
  let fsys :=
    directory [(str "a.svg", Some (str "<svg/>"));
               (str "b.svg", Some (str "<svg>   <!-- note -->   </svg>"));
               (str "c.svg", None)] in
  let st := snd (Part0Run.process_all fsys (svg_files entries)) in
  (0 <= Part0Run.savings (Part0Run.largestReduction st))%Z /\
  (forall f s,
      In f (svg_files entries) ->
      Part0Run.savings_of fsys f = Some s ->
      (s <= Part0Run.savings (Part0Run.largestReduction st))%Z) /\
  ((0 < Part0Run.savings (Part0Run.largestReduction st))%Z ->
   In (Part0Run.file (Part0Run.largestReduction st)) (svg_files entries) /\
   Part0Run.savings_of fsys (Part0Run.file (Part0Run.largestReduction st))
   = Some (Part0Run.savings (Part0Run.largestReduction st))) /\
  (Part0Run.savings (Part0Run.largestReduction st) = 0%Z ->
   Part0Run.file (Part0Run.largestReduction st) = [] /\
   Part0Run.percent (Part0Run.largestReduction st) = None).
Proof.
  intros entries fsys st.
  apply (largest_reduction_is_maximal fsys entries
           (fst (Part0Run.process_all fsys (svg_files entries))) st).
  - reflexivity.
  - vm_compute. reflexivity.
Defined.

(** X15 (bundleEmojis of src/unnamed/part_000 against the loop shared by
    src/ultra_optimized_svg_bundler.js and src/svg_utf8_bundler.js): a run
    of part_000 that writes its output builds the bundle that the shared
    loop builds with the encoder of part_000, with the same [processed],
    [errors] and [originalSize]; its [optimizedSize] leaves out the 33
    characters of the prefix of every data URI.  Since this encoder never
    throws, [errors] is the number of files that could not be read. *)
Theorem part0_run_differs_in_statistics_only :
  forall (fsys : filesystem) (entries : list jsstring)
         (bundle : object) (st : Part0Run.stats),
    dir_entries fsys = Some entries ->
    Part0Run.output_file (Part0Run.bundleEmojis fsys) = Some (bundle, st) ->
    Part0Run.exit_status (Part0Run.bundleEmojis fsys) = 0%Z /\
    (exists st',
        run 200 Part0.svgToDataUri fsys =
          {| exit_status := 0; output_file := Some (bundle, st') |} /\
        Part0Run.processed st = processed st' /\
        Part0Run.errors st = errors st' /\
        Part0Run.originalSize st = Z.of_nat (originalSize st') /\
        (Part0Run.optimizedSize st =
         Z.of_nat (optimizedSize st') - 33 * Z.of_nat (processed st'))%Z) /\
    Part0Run.errors st =
      length (filter (fun f => match file_content fsys f with
                               | Some _ => false
                               | None => true
                               end) (svg_files entries)).
Proof.
  intros fsys entries bundle st Hd Ho.
  destruct (part0_written fsys entries (bundle, st) Hd Ho)
    as (Hf & He & Hne & Hex & Hw).
  split; [exact He|].
  set (init' := {| processed := 0; errors := 0; originalSize := 0;
                   optimizedSize := 0 |}).
  assert (H0 : same_counters (snd Part0Run.initial) init')
    by (repeat split).
  pose proof (part0_loop_simulates fsys (svg_files entries) []
                (snd Part0Run.initial) init' H0) as Hsim.
  change ([], snd Part0Run.initial) with Part0Run.initial in Hsim.
  rewrite Hf in Hsim. cbn [fst snd] in Hsim.
  destruct Hsim as (Hb & Hc).
  match type of Hb with
  | _ = fst ?R => remember R as r' eqn:E in *
  end.
  destruct r' as [bundle' st']. cbn [fst snd] in Hb, Hc. subst bundle'.
  symmetry in E. destruct Hc as (H1 & H2 & H3 & H4). split.
  - exists st'. split; [|auto].
    unfold run. rewrite Hex, Hd, Hw. cbn [negb].
    destruct (svg_files entries) as [|f0 files0] eqn:Ef; [congruence|].
    rewrite <- Ef.
    rewrite (@process_all_fold 200 Part0.svgToDataUri fsys
               (svg_files entries) ltac:(lia)).
    f_equal. f_equal. rewrite Ef. exact E.
  - rewrite H2.
    pose proof (@loop_counters Part0.svgToDataUri fsys _ _ _ _ _ E)
      as [Herr _].
    cbn [errors init'] in Herr. rewrite Herr. cbn [Nat.add].
    f_equal. apply filter_ext. intros f. unfold fails.
    destruct (file_content fsys f) as [c|]; [|reflexivity].
    unfold Part0.svgToDataUri. rewrite Part0_ultraOptimizeSVG_value.
    reflexivity.
Qed.

Lemma part0_run_differs_in_statistics_only_witness :
  let entries := [str "a.svg"; str "b.svg"; str "c.svg"] in
  let fsys :=
    directory [(str "a.svg", Some (str "<svg/>"));
               (str "b.svg", Some (str "<svg>   <!-- note -->   </svg>"));
               (str "c.svg", None)] in
  let bundle := fst (Part0Run.process_all fsys (svg_files entries)) in
  let st := snd (Part0Run.process_all fsys (svg_files entries)) in
  Part0Run.exit_status (Part0Run.bundleEmojis fsys) = 0%Z /\
  (exists st',
      run 200 Part0.svgToDataUri fsys =
        {| exit_status := 0; output_file := Some (bundle, st') |} /\
      Part0Run.processed st = processed st' /\
      Part0Run.errors st = errors st' /\
      Part0Run.originalSize st = Z.of_nat (originalSize st') /\
      (Part0Run.optimizedSize st =
       Z.of_nat (optimizedSize st') - 33 * Z.of_nat (processed st'))%Z) /\
  Part0Run.errors st =
    length (filter (fun f => match file_content fsys f with
                             | Some _ => false
                             | None => true
                             end) (svg_files entries)).
Proof.
  intros entries fsys bundle st.
  apply (part0_run_differs_in_statistics_only fsys entries bundle st).
  - reflexivity.
  - vm_compute. reflexivity.
Defined.
(* ================================================================== *)
(** ** The order of the directory listing *)
(* ================================================================== *)

Lemma str_leb_total a b : str_leb a b = false -> str_leb b a = true.
Proof.
  revert b. induction a as [|x a IH]; intros [|y b]; cbn [str_leb];
    try discriminate; try reflexivity.
  intros H. apply orb_false_elim in H. destruct H as [H1 H2].
  apply N.ltb_ge in H1.
  destruct (N.eqb_spec x y) as [->|Hne].
  - cbn [andb] in H2. rewrite N.eqb_refl, (IH b H2). apply orb_true_r.
  - assert (Hlt : (y <? x)%N = true) by (apply N.ltb_lt; lia).
    rewrite Hlt. reflexivity.
Qed.

Lemma str_leb_antisym a b :
  str_leb a b = true -> str_leb b a = true -> a = b.
Proof.
  revert b. induction a as [|x a IH]; intros [|y b]; cbn [str_leb];
    try discriminate; try reflexivity.
  intros H1 H2. apply orb_prop in H1. apply orb_prop in H2.
  destruct H1 as [H1|H1]; destruct H2 as [H2|H2];
    try apply N.ltb_lt in H1; try apply N.ltb_lt in H2;
    try (apply andb_prop in H1; destruct H1 as [E1 H1];
         apply N.eqb_eq in E1);
    try (apply andb_prop in H2; destruct H2 as [E2 H2];
         apply N.eqb_eq in E2);
    try lia.
  subst y. f_equal. apply IH; assumption.
Qed.

Lemma str_leb_trans a b c :
  str_leb a b = true -> str_leb b c = true -> str_leb a c = true.
Proof.
  revert b c. induction a as [|x a IH]; intros [|y b] [|z c];
    cbn [str_leb]; try discriminate; try reflexivity.
  intros H1 H2. apply orb_prop in H1. apply orb_prop in H2.
  apply orb_true_iff.
  destruct H1 as [H1|H1]; destruct H2 as [H2|H2];
    try apply N.ltb_lt in H1; try apply N.ltb_lt in H2;
    try (apply andb_prop in H1; destruct H1 as [E1 H1];
         apply N.eqb_eq in E1);
    try (apply andb_prop in H2; destruct H2 as [E2 H2];
         apply N.eqb_eq in E2).
  - left. apply N.ltb_lt. lia.
  - left. apply N.ltb_lt. lia.
  - left. apply N.ltb_lt. lia.
  - right. subst. rewrite N.eqb_refl. cbn [andb]. exact (IH b c H1 H2).
Qed.

(** Two insertions commute. *)
Lemma insert_sorted_comm x y l :
  insert_sorted x (insert_sorted y l) = insert_sorted y (insert_sorted x l).
Proof.
  induction l as [|z t IH]; cbn [insert_sorted].
  - destruct (str_leb x y) eqn:Exy; destruct (str_leb y x) eqn:Eyx;
      try reflexivity.
    + rewrite (str_leb_antisym x y Exy Eyx). reflexivity.
    + apply str_leb_total in Exy. congruence.
  - destruct (str_leb y z) eqn:Eyz; destruct (str_leb x z) eqn:Exz;
      cbn [insert_sorted]; rewrite ?Eyz, ?Exz.
    + destruct (str_leb x y) eqn:Exy; destruct (str_leb y x) eqn:Eyx;
        cbn [insert_sorted]; rewrite ?Eyz, ?Exz; try reflexivity.
      * rewrite (str_leb_antisym x y Exy Eyx). reflexivity.
      * apply str_leb_total in Exy. congruence.
    + destruct (str_leb x y) eqn:Exy.
      * rewrite (str_leb_trans x y z Exy Eyz) in Exz. discriminate.
      * reflexivity.
    + destruct (str_leb y x) eqn:Eyx.
      * rewrite (str_leb_trans y x z Eyx Exz) in Eyz. discriminate.
      * reflexivity.
    + rewrite IH. reflexivity.
Qed.

Lemma sort_permutation l l' : Permutation l l' -> sort l = sort l'.
Proof.
  induction 1 as [|x l l' _ IH|x y l|l l' l'' _ IH1 _ IH2];
    cbn [sort fold_right].
  - reflexivity.
  - fold (sort l). fold (sort l'). rewrite IH. reflexivity.
  - apply insert_sorted_comm.
  - congruence.
Qed.

Lemma filter_permutation (p : jsstring -> bool) l l' :
  Permutation l l' -> Permutation (filter p l) (filter p l').
Proof.
  induction 1 as [|x l l' _ IH|x y l|l l' l'' _ IH1 _ IH2]; cbn [filter].
  - constructor.
  - destruct (p x); [constructor; exact IH|exact IH].
  - destruct (p x); destruct (p y); try apply Permutation_refl.
    apply perm_swap.
  - eapply Permutation_trans; eassumption.
Qed.

Lemma svg_files_permutation l l' :
  Permutation l l' -> svg_files l = svg_files l'.
Proof.
  intros H. unfold svg_files. apply sort_permutation.
  apply filter_permutation. exact H.
Qed.

(** X16 (the call [.sort()] after readdirSync in bundleEmojis of
    src/ultra_optimized_svg_bundler.js and src/unnamed/part_000 and in
    bundleSVGEmojis of src/svg_utf8_bundler.js): a run does not depend on
    the order in which the directory is listed.  With the same names in
    another order the run ends in the same way, with the same bundle, keys
    in the same order, and the same statistics. *)
Theorem listing_order_is_immaterial :
  forall (size : nat) (svgToDataUri : jsstring -> option jsstring)
         (fsys : filesystem) (entries entries' : list jsstring),
    dir_entries fsys = Some entries ->
    Permutation entries entries' ->
    run size svgToDataUri (relist fsys entries') = run size svgToDataUri fsys
    /\ Part0Run.bundleEmojis (relist fsys entries')
       = Part0Run.bundleEmojis fsys.
Proof.
  intros size enc fsys entries entries' Hd Hp.
  unfold run, Part0Run.bundleEmojis. rewrite Hd.
  cbn [relist dir_exists dir_entries can_write].
  rewrite (svg_files_permutation entries entries' Hp).
  split; reflexivity.
Qed.

Lemma listing_order_is_immaterial_witness :
  let fsys := directory [(str "b.svg", Some (str "<svg>b</svg>"));
                         (str "a.svg", Some (str "<svg>a</svg>"))] in
  let enc := fun svgContent => Some (Utf8.svgToDataUri svgContent) in
  run 100 enc (relist fsys [str "a.svg"; str "b.svg"]) = run 100 enc fsys
  /\ Part0Run.bundleEmojis (relist fsys [str "a.svg"; str "b.svg"])
     = Part0Run.bundleEmojis fsys.
Proof.
  intros fsys enc.
  apply (listing_order_is_immaterial 100 enc fsys
           [str "b.svg"; str "a.svg"] [str "a.svg"; str "b.svg"]).
  - reflexivity.
  - apply perm_swap.
Defined.
(* ================================================================== *)
(** ** Escaping in generateOutputFile, and the helper of
       src/svg_utf8_bundler.js *)
(* ================================================================== *)

Lemma Utf8_escape_quotes_flat_map v :
  Utf8_escape_quotes v =
  flat_map (fun c => if cu_eqb c sq then [backslash; c] else [c]) v.
Proof.
  unfold Utf8_escape_quotes.
  rewrite (@replace_one_char false (Chr sq) _ _ v eq_refl).
  apply flat_map_ext. intros c. unfold const, canon.
  rewrite (N.eqb_sym : forall a b, cu_eqb a b = cu_eqb b a).
  destruct (cu_eqb c sq) eqn:E; [|reflexivity].
  apply cu_eqb_eq in E. subst c. reflexivity.
Qed.

Lemma single_quoted_value_escaped v :
  Forall (fun c => c <> backslash /\ c <> 10%N /\ c <> 13%N) v ->
  single_quoted_value
    (flat_map (fun c => if cu_eqb c sq then [backslash; c] else [c]) v)
  = Some v.
Proof.
  induction 1 as [|c v (H1 & H2 & H3) Hv IH]; [reflexivity|].
  cbn [flat_map]. destruct (cu_eqb c sq) eqn:E.
  - cbn [app single_quoted_value].
    change (cu_eqb backslash backslash) with true. cbn iota.
    rewrite E. cbn [orb]. rewrite IH. reflexivity.
  - cbn [app single_quoted_value]. rewrite E. unfold cu_eqb in *.
    destruct (N.eqb_spec c backslash); [contradiction|].
    destruct (N.eqb_spec c 10); [contradiction|].
    destruct (N.eqb_spec c 13); [contradiction|].
    cbn [orb]. rewrite IH. reflexivity.
Qed.

Lemma utf8_escape1_chars c :
  c <> backslash ->
  Forall (fun x => x <> backslash /\ x <> 10%N /\ x <> 13%N) (utf8_escape1 c).
Proof.
  intros Hc. unfold utf8_escape1, cu_eqb.
  change dq with 34%N. change (ch "%") with 37%N. change (ch "#") with 35%N.
  assert (Hok : forall l,
             forallb (fun x => negb (N.eqb x 92) && negb (N.eqb x 10)
                               && negb (N.eqb x 13)) l = true ->
             Forall (fun x => x <> backslash /\ x <> 10%N /\ x <> 13%N) l).
  { intros l Hl. apply Forall_forall. intros x Hx.
    rewrite forallb_forall in Hl. specialize (Hl x Hx).
    apply andb_prop in Hl. destruct Hl as [Hl H3].
    apply andb_prop in Hl. destruct Hl as [H1 H2].
    apply negb_true_iff in H1, H2, H3.
    apply N.eqb_neq in H1, H2, H3. unfold backslash. auto. }
  destruct (N.eqb_spec c 35); [apply Hok; reflexivity|].
  destruct (N.eqb_spec c 34); [apply Hok; reflexivity|].
  destruct (N.eqb_spec c 10); [apply Hok; reflexivity|].
  destruct (N.eqb_spec c 13); [apply Hok; reflexivity|].
  destruct (N.eqb_spec c 37); [apply Hok; reflexivity|].
  repeat constructor; assumption.
Qed.

Lemma clean_no_backslash s :
  Forall (fun c => c <> backslash) s ->
  Forall (fun c => c <> backslash) (Utf8.clean s).
Proof.
  intros Hs. unfold Utf8.clean, join_tags, collapse_spaces.
  apply replace_all_Forall.
  { intros m cs _ _. unfold const. repeat constructor; discriminate. }
  apply remove_Forall. apply replace_all_Forall.
  { intros m cs _ _. unfold const. repeat constructor; discriminate. }
  apply Forall_trim. exact Hs.
Qed.

(** X17 (svgToDataUri and the escaping in generateOutputFile of
    src/svg_utf8_bundler.js): only single quotes are escaped, not
    backslashes.  For markup without backslash, the data URI with a
    backslash put before every single quote is the text of one
    single-quoted string literal, whose value is the data URI. *)
Theorem utf8_quoted_uri_is_read_back :
  forall s : jsstring,
    Forall (fun c => c <> backslash) s ->
    single_quoted_value (Utf8_escape_quotes (Utf8.svgToDataUri s))
    = Some (Utf8.svgToDataUri s).
Proof.
  intros s Hs. rewrite Utf8_escape_quotes_flat_map.
  apply single_quoted_value_escaped.
  unfold Utf8.svgToDataUri. rewrite utf8_encode_flat_map.
  apply Forall_app. split.
  - apply Forall_forall. intros x Hx.
    assert (Hp : forallb (fun x => negb (N.eqb x 92) && negb (N.eqb x 10)
                                   && negb (N.eqb x 13)) Part0.prefix = true)
      by (vm_compute; reflexivity).
    rewrite forallb_forall in Hp. specialize (Hp x Hx).
    apply andb_prop in Hp. destruct Hp as [Hp H3].
    apply andb_prop in Hp. destruct Hp as [H1 H2].
    apply negb_true_iff in H1, H2, H3.
    apply N.eqb_neq in H1, H2, H3. unfold backslash. auto.
  - apply Forall_flat_map.
    eapply Forall_impl; [|exact (clean_no_backslash s Hs)].
    intros c Hc. apply utf8_escape1_chars. exact Hc.
Qed.

Lemma utf8_quoted_uri_is_read_back_witness :
  let s := str "<svg a='x' b=" ++ [dq; ch "#"; dq; 10%N] ++ str "/>" in
  single_quoted_value (Utf8_escape_quotes (Utf8.svgToDataUri s))
  = Some (Utf8.svgToDataUri s).
Proof.
  intros s. apply (utf8_quoted_uri_is_read_back s).
  unfold s. repeat (constructor; [discriminate|]). constructor.
Defined.

(** Replacing two backslashes by two backslashes changes nothing. *)
Lemma replace_backslashes : forall n v,
  length v <= n ->
  replace_all false (Seq (Chr backslash) (Chr backslash))
              (const [backslash; backslash]) v = v.
Proof.
  assert (Hex : forall v,
             exec_at false (Seq (Chr backslash) (Chr backslash)) v =
             match v with
             | a :: b :: _ =>
                 if cu_eqb a backslash && cu_eqb b backslash
                 then Some (2, []) else None
             | _ => None
             end).
  { intros v. unfold exec_at.
    rewrite (rmatch_seq_one_char false (Chr backslash) _ _ v [] eq_refl).
    destruct v as [|a v]; [reflexivity|]. rewrite canon_false_eqb.
    destruct (cu_eqb a backslash); [|destruct v; reflexivity]. cbn [andb].
    cbn [rmatch fst snd]. destruct v as [|b v]; [reflexivity|].
    rewrite canon_false_eqb. destruct (cu_eqb b backslash); [|reflexivity].
    f_equal. f_equal. cbn [length]. lia. }
  unfold replace_all.
  induction n as [|n IH]; intros v Hn.
  - destruct v; [|simpl in Hn; lia]. apply replace_go_nil. apply Hex.
  - destruct v as [|a v]; [apply replace_go_nil; apply Hex|].
    rewrite replace_go_cons0, Hex.
    destruct v as [|b v].
    { f_equal; try (apply replace_go_nil; apply Hex). }
    destruct (cu_eqb a backslash && cu_eqb b backslash) eqn:E.
    + apply andb_prop in E. destruct E as [Ea Eb].
      apply cu_eqb_eq in Ea, Eb. subst a b.
      unfold const. cbn [app replace_go]. f_equal. f_equal.
      apply (IH v). simpl in Hn. clear - Hn. lia.
    + f_equal. apply (IH (b :: v)). simpl in Hn. clear - Hn. simpl. lia.
Qed.

(** X18 (svgToDataUri and the escaping in generateOutputFile of
    src/unnamed/part_000): the escaping changes no data URI that
    svgToDataUri returns.  Its first replacement writes back the two
    backslashes it matched, and its second one looks for single quotes,
    which svgToDataUri has written as [%27]. *)
Theorem part0_escaping_changes_no_uri :
  forall s : jsstring,
    exists uri,
      Part0.svgToDataUri s = Some uri /\
      Part0_escape_quotes uri = uri.
Proof.
  intros s. unfold Part0.svgToDataUri.
  destruct (Part0.ultraOptimizeSVG s) as [out|] eqn:E.
  2:{ rewrite Part0_ultraOptimizeSVG_value in E. discriminate. }
  exists (Part0.prefix ++ Part0.encode out). split; [reflexivity|].
  unfold Part0_escape_quotes.
  rewrite (replace_backslashes _ _ (Nat.le_refl _)).
  rewrite (@replace_one_char false (Chr sq) _ _ _ eq_refl).
  assert (Hq : Forall (fun c => c <> sq) (Part0.prefix ++ Part0.encode out)).
  { apply Forall_app. split.
    - repeat (constructor; [discriminate|]). constructor.
    - rewrite encode_flat_map.
      assert (Hs : Forall payload_safe (flat_map escape1 out)).
      { eapply Forall_flat_map_in; [|exact (@ultraOptimizeSVG_no_dq _ _ E)].
        intros x Hx. apply escape1_safe; exact Hx. }
      eapply Forall_impl; [|exact Hs].
      intros c Hc. unfold payload_safe in Hc. tauto. }
  induction Hq as [|c t Hc Ht IH]; [reflexivity|].
  cbn [flat_map]. rewrite IH. unfold canon.
  destruct (cu_eqb sq c) eqn:Ec; [|reflexivity].
  apply cu_eqb_eq in Ec. congruence.
Qed.

(** *** The helper of src/svg_utf8_bundler.js *)

Lemma replace_string_head p w rest :
  replace_string p w (p ++ rest) = w ++ rest.
Proof.
  destruct rest as [|c t]; cbn [replace_string].
  - rewrite app_nil_r.
    assert (H : starts_with p p = true)
      by (apply starts_with_spec; exists []; symmetry; apply app_nil_r).
    destruct p as [|x p]; cbn [replace_string]; rewrite ?H;
      [reflexivity|]. rewrite skipn_all. reflexivity.
  - assert (H : starts_with p (p ++ c :: t) = true)
      by (apply starts_with_spec; exists (c :: t); reflexivity).
    destruct p as [|x p]; [reflexivity|].
    cbn [app] in *. cbn [replace_string]. rewrite H.
    change (x :: p ++ c :: t) with ((x :: p) ++ c :: t).
    rewrite skipn_app, skipn_all, Nat.sub_diag. reflexivity.
Qed.

(** A pattern that starts with a point is not found in a string without
    point. *)
Lemma replace_string_no_dot p w base rest :
  no_dot base = true ->
  replace_string (ch "." :: p) w (base ++ rest)
  = base ++ replace_string (ch "." :: p) w rest.
Proof.
  intros Hb. induction base as [|c t IH]; [reflexivity|].
  cbn [no_dot forallb] in Hb. apply andb_prop in Hb. destruct Hb as [Hc Ht].
  cbn [app replace_string starts_with].
  apply negb_true_iff in Hc.
  rewrite (N.eqb_sym : forall a b, cu_eqb a b = cu_eqb b a), Hc.
  cbn [andb]. f_equal. apply IH. exact Ht.
Qed.

(** X19 (the helper getEmojiDataUrl in the file written by
    generateOutputFile of src/svg_utf8_bundler.js, against the key computed
    in bundleSVGEmojis): the helper removes the first [sprite/], the first
    [.svg] and the first [.png] wherever they are.  For a file [base.svg]
    whose [base] has no point, the key computed from the path [sprite/] +
    file name is [base], the key under which the file was stored. *)
Theorem utf8_helper_key_is_bundle_key :
  forall base : jsstring,
    no_dot base = true ->
    Utf8_emoji_key (str "sprite/" ++ base ++ str ".svg") = base /\
    key_of (base ++ str ".svg") = base.
Proof.
  intros base Hb. split.
  - unfold Utf8_emoji_key.
    rewrite (replace_string_head (str "sprite/") [] (base ++ str ".svg")).
    cbn [app].
    change (str ".svg") with (ch "." :: str "svg").
    rewrite (replace_string_no_dot (str "svg") [] base _ Hb).
    change (replace_string (ch "." :: str "svg") [] (ch "." :: str "svg"))
      with (@nil N).
    rewrite app_nil_r.
    change (str ".png") with (ch "." :: str "png").
    rewrite <- (app_nil_r base) at 1.
    rewrite (replace_string_no_dot (str "png") [] base [] Hb).
    apply app_nil_r.
  - unfold key_of. rewrite basename_strip_suffix. unfold strip_suffix.
    assert (H : endsWith (base ++ str ".svg") (str ".svg") = true)
      by (apply endsWith_spec; exists base; reflexivity).
    rewrite H, length_app, Nat.add_sub, firstn_app, Nat.sub_diag, firstn_all.
    apply app_nil_r.
Qed.

Lemma utf8_helper_key_is_bundle_key_witness :
  Utf8_emoji_key (str "sprite/" ++ str "emoji_smile" ++ str ".svg")
  = str "emoji_smile" /\
  key_of (str "emoji_smile" ++ str ".svg") = str "emoji_smile".
Proof.
  apply (utf8_helper_key_is_bundle_key (str "emoji_smile")). reflexivity.
Defined.
(* ================================================================== *)
(** ** build_emoji_sprite.js: the symbols *)
(* ================================================================== *)

Import SpriteScript.

(** *** Literals, the first occurrence, the first match *)

Lemma rmatch_lit ic w : forall s cs,
  rmatch ic (Lit w) (s, cs) =
  match prefix_ic ic w s with
  | Some rest => [(rest, cs)]
  | None => []
  end.
Proof.
  induction w as [|c w IH]; intros s cs; [reflexivity|].
  destruct w as [|c' w'].
  - cbn [Lit rmatch fst snd prefix_ic]. destruct s as [|x t]; [reflexivity|].
    destruct (cu_eqb (canon ic c) (canon ic x)); reflexivity.
  - change (Lit (c :: c' :: w')) with (Seq (Chr c) (Lit (c' :: w'))).
    rewrite (rmatch_seq_one_char ic (Chr c) _ _ s cs eq_refl).
    destruct s as [|x t]; [reflexivity|]. cbn [prefix_ic].
    destruct (cu_eqb (canon ic c) (canon ic x)); [apply IH|reflexivity].
Qed.

Lemma rmatch_seq_lit ic w K s cs :
  rmatch ic (Seq (Lit w) K) (s, cs) =
  match prefix_ic ic w s with
  | Some rest => rmatch ic K (rest, cs)
  | None => []
  end.
Proof.
  rewrite rmatch_seq, rmatch_lit.
  destruct (prefix_ic ic w s); [|reflexivity].
  cbn [flat_map]. apply app_nil_r.
Qed.

Lemma prefix_ic_split ic w : forall s r,
  prefix_ic ic w s = Some r -> exists m, s = m ++ r /\ length m = length w.
Proof.
  induction w as [|c w IH]; intros s r H; cbn [prefix_ic] in H.
  - injection H as <-. exists []. auto.
  - destruct s as [|x t]; [discriminate|].
    destruct (cu_eqb (canon ic c) (canon ic x)); [|discriminate].
    destruct (IH t r H) as (m & -> & Hl). exists (x :: m).
    split; [reflexivity|]. simpl. rewrite Hl. reflexivity.
Qed.

Lemma prefix_ic_app ic w1 w2 : forall s,
  prefix_ic ic (w1 ++ w2) s =
  match prefix_ic ic w1 s with
  | Some r => prefix_ic ic w2 r
  | None => None
  end.
Proof.
  induction w1 as [|c w1 IH]; intros s; [reflexivity|].
  cbn [app prefix_ic]. destruct s as [|x t].
  - destruct (w1 ++ w2); reflexivity.
  - destruct (cu_eqb (canon ic c) (canon ic x)); [apply IH|reflexivity].
Qed.

Lemma app_eq_length (A : Type) (a a' b b' : list A) :
  a ++ b = a' ++ b' -> length a = length a' -> a = a' /\ b = b'.
Proof.
  revert a'. induction a as [|x a IH]; intros [|y a'] H Hl;
    try (simpl in Hl; discriminate).
  - auto.
  - injection H as -> H. injection Hl as Hl.
    destruct (IH a' H Hl) as [-> ->]. auto.
Qed.

Lemma find_ci_Some w : forall s k,
  find_ci w s = Some k ->
  exists a b r,
    s = a ++ b /\ length a = k /\ prefix_ic true w b = Some r /\
    forall a1 a2, a = a1 ++ a2 -> a2 <> [] ->
                  prefix_ic true w (a2 ++ b) = None.
Proof.
  induction s as [|c t IH]; intros k H; cbn [find_ci] in H.
  - destruct (prefix_ic true w []) as [r|] eqn:E; [|discriminate].
    injection H as <-. exists [], [], r. repeat split; auto.
    intros [|x a1] [|y a2] Ha Hne; try discriminate. congruence.
  - destruct (prefix_ic true w (c :: t)) as [r|] eqn:E.
    + injection H as <-. exists [], (c :: t), r. repeat split; auto.
      intros [|x a1] [|y a2] Ha Hne; try discriminate. congruence.
    + destruct (find_ci w t) as [k'|] eqn:Ef; [|discriminate].
      cbn [option_map] in H. injection H as <-.
      destruct (IH k' eq_refl) as (a & b & r & -> & Hl & Hp & Hn).
      exists (c :: a), b, r. repeat split; auto.
      * simpl. rewrite Hl. reflexivity.
      * intros a1 a2 Ha Hne. destruct a1 as [|x a1].
        -- cbn [app] in Ha. subst a2. exact E.
        -- injection Ha as _ Ha. exact (Hn a1 a2 Ha Hne).
Qed.

Lemma find_ci_None w : forall s,
  find_ci w s = None ->
  forall a b, s = a ++ b -> prefix_ic true w b = None.
Proof.
  induction s as [|c t IH]; intros H a b E; cbn [find_ci] in H.
  - destruct a; destruct b; try discriminate.
    destruct (prefix_ic true w []); [discriminate|reflexivity].
  - destruct (prefix_ic true w (c :: t)) as [r|] eqn:Ep; [discriminate|].
    destruct (find_ci w t) eqn:Ef; [discriminate|].
    destruct a as [|x a].
    + cbn [app] in E. subst b. exact Ep.
    + injection E as _ E. exact (IH eq_refl a b E).
Qed.

Lemma match_first_head exec s n cs :
  exec s = Some (n, cs) -> match_first exec s = Some cs.
Proof. intros H. destruct s; cbn [match_first]; rewrite H; reflexivity. Qed.

Lemma match_first_skip exec a b :
  (forall a1 a2, a = a1 ++ a2 -> a2 <> [] -> exec (a2 ++ b) = None) ->
  match_first exec (a ++ b) = match_first exec b.
Proof.
  induction a as [|c a IH]; intros H; [reflexivity|].
  pose proof (H [] (c :: a) eq_refl ltac:(discriminate)) as H0.
  cbn [app] in *. cbn [match_first]. rewrite H0. apply IH.
  intros a1 a2 E Hne. apply (H (c :: a1) a2); [rewrite E; reflexivity|].
  exact Hne.
Qed.

Lemma match_first_None exec s :
  (forall a b, s = a ++ b -> exec b = None) -> match_first exec s = None.
Proof.
  induction s as [|c t IH]; intros H; cbn [match_first].
  - rewrite (H [] [] eq_refl). reflexivity.
  - rewrite (H [] (c :: t) eq_refl). apply IH.
    intros a b E. apply (H (c :: a) b). rewrite E. reflexivity.
Qed.

Lemma match_first_Some exec : forall s cs,
  match_first exec s = Some cs ->
  exists a b n, s = a ++ b /\ exec b = Some (n, cs).
Proof.
  induction s as [|c t IH]; intros cs H; cbn [match_first] in H.
  - destruct (exec []) as [[n cs']|] eqn:E; [|discriminate].
    injection H as <-. exists [], [], n. auto.
  - destruct (exec (c :: t)) as [[n cs']|] eqn:E.
    + injection H as <-. exists [], (c :: t), n. auto.
    + destruct (IH cs H) as (a & b & n & -> & Hb).
      exists (c :: a), b, n. auto.
Qed.

(** *** Classes and groups under the [i] flag *)

Lemma notc_class_ic k c :
  (k < 65)%N -> in_class true true [CRange k k] c = negb (cu_eqb c k).
Proof.
  intros Hk.
  unfold in_class, in_item_ic, in_item, in_range, ascii_upper, ascii_lower,
    in_range, cu_eqb.
  cbn [existsb andb orb xorb].
  destruct (N.leb_spec 97 c), (N.leb_spec c 122), (N.leb_spec 65 c),
    (N.leb_spec c 90); cbn [andb]; split_comparisons.
Qed.

Lemma forallb_notc_class_ic k s :
  (k < 65)%N ->
  forallb (in_class true true [CRange k k]) s =
  forallb (fun c => negb (cu_eqb c k)) s.
Proof.
  intros Hk. induction s as [|c t IH]; [reflexivity|].
  cbn [forallb]. rewrite IH, notc_class_ic by exact Hk. reflexivity.
Qed.

Lemma any_class_ic c : in_class true false [CSpace; CNonSpace] c = true.
Proof.
  unfold in_class, in_item_ic, in_item. cbn [existsb xorb andb].
  destruct (is_ws c), (is_ws (ascii_upper c)), (is_ws (ascii_lower c));
    reflexivity.
Qed.

Lemma rmatch_seq_group_star ic i a K p s cs :
  one_char ic a = Some p ->
  rmatch ic (Seq (Group i (Star true a)) K) (s, cs) =
  flat_map (fun rest =>
              rmatch ic K
                (rest, (i, firstn (length s - length rest) s) :: cs))
           (run_suffixes p s).
Proof.
  intros Ha. rewrite rmatch_seq, rmatch_group, (star_one_char _ _ _ _ _ Ha).
  rewrite map_map, flat_map_map. reflexivity.
Qed.

Lemma rmatch_seq_group_lazy ic i a K p s cs :
  one_char ic a = Some p ->
  rmatch ic (Seq (Group i (Star false a)) K) (s, cs) =
  flat_map (fun rest =>
              rmatch ic K
                (rest, (i, firstn (length s - length rest) s) :: cs))
           (lazy_suffixes p s).
Proof.
  intros Ha. rewrite rmatch_seq, rmatch_group, (lazy_one_char _ _ _ _ _ Ha).
  rewrite map_map, flat_map_map. reflexivity.
Qed.

Lemma rmatch_seq_group_plus ic i a K p s cs :
  one_char ic a = Some p ->
  rmatch ic (Seq (Group i (Plus true a)) K) (s, cs) =
  match s with
  | x :: t =>
      if p x
      then flat_map (fun rest =>
                       rmatch ic K
                         (rest, (i, firstn (length s - length rest) s) :: cs))
                    (run_suffixes p t)
      else []
  | [] => []
  end.
Proof.
  intros Ha. rewrite rmatch_seq, rmatch_group. unfold Plus.
  rewrite (rmatch_seq_one_char _ _ _ _ _ _ Ha).
  destruct s as [|x t]; [reflexivity|].
  destruct (p x); [|reflexivity].
  rewrite (star_one_char _ _ _ _ _ Ha).
  rewrite map_map, flat_map_map. reflexivity.
Qed.

Lemma lazy_suffixes_first (p : cu -> bool) (f : jsstring -> list mstate)
      inner rest :
  forallb p inner = true ->
  (forall i1 i2, inner = i1 ++ i2 -> i2 <> [] -> f (i2 ++ rest) = []) ->
  exists tl, flat_map f (lazy_suffixes p (inner ++ rest)) = f rest ++ tl.
Proof.
  induction inner as [|c t IH]; intros Hp Hf.
  - cbn [app]. destruct rest as [|x r]; cbn [lazy_suffixes flat_map];
      eexists; reflexivity.
  - cbn [forallb] in Hp. apply andb_prop in Hp. destruct Hp as [Hc Ht].
    cbn [app lazy_suffixes flat_map]. rewrite Hc.
    pose proof (Hf [] (c :: t) eq_refl ltac:(discriminate)) as H0.
    cbn [app] in H0. rewrite H0. cbn [app].
    apply IH; [exact Ht|].
    intros i1 i2 E Hne. apply (Hf (c :: i1) i2); [rewrite E; reflexivity|].
    exact Hne.
Qed.

Lemma run_suffixes_In p : forall s rest,
  In rest (run_suffixes p s) ->
  exists w, s = w ++ rest /\ forallb p w = true.
Proof.
  induction s as [|c t IH]; intros rest H; cbn [run_suffixes] in H.
  - destruct H as [<-|[]]. exists []. auto.
  - destruct (p c) eqn:Ec.
    + apply in_app_or in H. destruct H as [H|[<-|[]]].
      * destruct (IH rest H) as (w & -> & Hw). exists (c :: w).
        split; [reflexivity|]. cbn [forallb]. rewrite Ec, Hw. reflexivity.
      * exists []. auto.
    + destruct H as [<-|[]]. exists []. auto.
Qed.

(** *** The svg element *)

Lemma exec_svg_rest attrs inner m post :
  forallb (fun c => negb (cu_eqb c (ch ">"))) attrs = true ->
  (forall i1 i2, inner = i1 ++ i2 -> i2 <> [] ->
                 prefix_ic true (str "</svg>") (i2 ++ m ++ post) = None) ->
  prefix_ic true (str "</svg>") (m ++ post) = Some post ->
  exec_at true re_svg_rest (attrs ++ ch ">" :: inner ++ m ++ post) =
  Some (length (attrs ++ ch ">" :: inner ++ m), [(2, inner); (1, attrs)]).
Proof.
  intros Hattrs Hinner Hclose.
  set (pgt := in_class true true [CRange (ch ">") (ch ">")]).
  set (pany := in_class true false [CSpace; CNonSpace]).
  assert (Hex : exists tl,
             rmatch true re_svg_rest
                    (attrs ++ ch ">" :: inner ++ m ++ post, []) =
             (post, [(2, inner); (1, attrs)]) :: tl).
  { unfold re_svg_rest, Seqs.
    rewrite (rmatch_seq_group_star true 1 (notc (ch ">")) _ pgt _ []
               eq_refl).
    destruct (run_suffixes_app pgt attrs (ch ">" :: inner ++ m ++ post))
      as (tl & E & _).
    { unfold pgt. rewrite forallb_notc_class_ic by reflexivity.
      exact Hattrs. }
    { reflexivity. }
    rewrite E. cbn [flat_map]. rewrite firstn_app_minus.
    rewrite (rmatch_seq_one_char true (C ">") _ _ _ _ eq_refl).
    change (cu_eqb (canon true (ch ">")) (canon true (ch ">"))) with true.
    cbn iota.
    rewrite (rmatch_seq_group_lazy true 2 any _ pany _ _ eq_refl).
    destruct (lazy_suffixes_first pany
                (fun rest =>
                   rmatch true (L "</svg>")
                     (rest,
                      [(2, firstn (length (inner ++ m ++ post) - length rest)
                                  (inner ++ m ++ post)); (1, attrs)]))
                inner (m ++ post)) as (tl2 & E2).
    { apply forallb_forall. intros x _. apply any_class_ic. }
    { intros i1 i2 Ei Hne. unfold L. rewrite rmatch_lit.
      rewrite (Hinner i1 i2 Ei Hne). reflexivity. }
    rewrite E2. unfold L. rewrite rmatch_lit, Hclose.
    rewrite firstn_app_minus. cbn [app]. eexists. reflexivity. }
  destruct Hex as (tl & E). unfold exec_at. rewrite E.
  f_equal. f_equal.
  change (attrs ++ ch ">" :: inner ++ m ++ post)
    with (attrs ++ [ch ">"] ++ inner ++ m ++ post).
  change (attrs ++ ch ">" :: inner ++ m)
    with (attrs ++ [ch ">"] ++ inner ++ m).
  rewrite !length_app. lia.
Qed.

Lemma firstn_length_app (A : Type) (a b : list A) :
  firstn (length a) (a ++ b) = a.
Proof.
  rewrite firstn_app, Nat.sub_diag, firstn_all. cbn [firstn].
  apply app_nil_r.
Qed.

Lemma attrs_inner_of_document pre tag attrs body k :
  length tag = 4 ->
  find_ci (str "<svg") (pre ++ tag ++ attrs ++ ch ">" :: body)
  = Some (length pre) ->
  head_is is_word attrs = false ->
  forallb (fun c => negb (cu_eqb c (ch ">"))) attrs = true ->
  find_ci (str "</svg>") body = Some k ->
  attrs_inner (pre ++ tag ++ attrs ++ ch ">" :: body)
  = (attrs, firstn k body).
Proof.
  intros Htag Hopen Hword Hattrs Hclose.
  destruct (find_ci_Some _ _ _ Hopen) as (a & b & r & E & Hl & Hp & Hn).
  destruct (app_eq_length _ _ _ _ _ (eq_sym E) Hl) as [-> ->].
  destruct (prefix_ic_split _ _ _ _ Hp) as (m0 & E0 & Hm0).
  assert (Hm0' : length m0 = length tag) by (rewrite Hm0, Htag; reflexivity).
  destruct (app_eq_length _ _ _ _ _ (eq_sym E0) Hm0') as [-> ->].
  destruct (find_ci_Some _ _ _ Hclose) as (inner & b2 & post & -> & Hk
                                           & Hp2 & Hn2).
  destruct (prefix_ic_split _ _ _ _ Hp2) as (m & -> & _).
  rewrite <- Hk, firstn_length_app.
  unfold attrs_inner.
  rewrite (match_first_skip exec_svg pre
             (tag ++ attrs ++ ch ">" :: inner ++ m ++ post)).
  2:{ intros a1 a2 Ea Hne. unfold exec_svg.
      rewrite (Hn a1 a2 Ea Hne). reflexivity. }
  rewrite (match_first_head exec_svg _
             (4 + length (attrs ++ ch ">" :: inner ++ m))
             [(2, inner); (1, attrs)]).
  { reflexivity. }
  unfold exec_svg. rewrite Hp.
  assert (Hw : head_is is_word (attrs ++ ch ">" :: inner ++ m ++ post)
               = false).
  { destruct attrs as [|x t]; [reflexivity|exact Hword]. }
  rewrite Hw.
  rewrite (exec_svg_rest attrs inner m post Hattrs Hn2 Hp2). reflexivity.
Qed.

(** X20 (the regex for the svg element in the loop of
    build_emoji_sprite.js): when the first [<svg] of the text (in any case)
    is followed by attributes without [>] that do not start with a word
    character, then [>], and a [</svg>] comes after that, the script takes
    as attributes what stands before the first [>] and as content what
    stands between that [>] and the first [</svg>]; the symbol is made of
    these. *)
Theorem sprite_symbol_of_document :
  forall (file pre tag attrs body : jsstring) (k : nat),
    length tag = 4 ->
    find_ci (str "<svg") (pre ++ tag ++ attrs ++ ch ">" :: body)
    = Some (length pre) ->
    head_is is_word attrs = false ->
    forallb (fun c => negb (cu_eqb c (ch ">"))) attrs = true ->
    find_ci (str "</svg>") body = Some k ->
    attrs_inner (pre ++ tag ++ attrs ++ ch ">" :: body)
    = (attrs, firstn k body) /\
    symbol file (pre ++ tag ++ attrs ++ ch ">" :: body) =
    str "<symbol id=" ++ dq :: Sprite.idFromFilename file
    ++ dq :: viewBoxAttr attrs
    ++ ch ">" :: firstn k body ++ str "</symbol>" ++ [10%N].
Proof.
  intros file pre tag attrs body k H1 H2 H3 H4 H5.
  pose proof (attrs_inner_of_document pre tag attrs body k H1 H2 H3 H4 H5)
    as E.
  split; [exact E|]. unfold symbol. rewrite E. reflexivity.
Qed.

Lemma sprite_symbol_of_document_witness :
  let pre := str "<?xml version='1.0'?>" ++ [10%N] in
  let attrs := str " id='a' VIEWBOX=" ++ dq :: str "0 0 36 36" ++ [dq] in
  let body := str "<path d='M0 0'/></SVG>" ++ [10%N] in
  attrs_inner (pre ++ str "<SVG" ++ attrs ++ ch ">" :: body)
  = (attrs, firstn 16 body) /\
  symbol (str "smile.svg") (pre ++ str "<SVG" ++ attrs ++ ch ">" :: body) =
  str "<symbol id=" ++ dq :: Sprite.idFromFilename (str "smile.svg")
  ++ dq :: viewBoxAttr attrs
  ++ ch ">" :: firstn 16 body ++ str "</symbol>" ++ [10%N].
Proof.
  intros pre attrs body.
  apply (sprite_symbol_of_document (str "smile.svg") pre (str "<SVG")
           attrs body 16).
  - reflexivity.
  - vm_compute. reflexivity.
  - reflexivity.
  - vm_compute. reflexivity.
  - vm_compute. reflexivity.
Defined.

(** *** The viewBox attribute *)

Lemma rmatch_viewBox_head K s cs :
  rmatch true (Seq (L "viewBox=") (Seq (Chr dq) K)) (s, cs) =
  match prefix_ic true viewBox_literal s with
  | Some r => rmatch true K (r, cs)
  | None => []
  end.
Proof.
  unfold L, viewBox_literal. rewrite rmatch_seq_lit, prefix_ic_app.
  destruct (prefix_ic true (str "viewBox=") s) as [r1|]; [|reflexivity].
  rewrite (rmatch_seq_one_char true (Chr dq) _ _ r1 cs eq_refl).
  destruct r1 as [|x t]; [reflexivity|]. cbn [prefix_ic].
  destruct (cu_eqb (canon true dq) (canon true x)); reflexivity.
Qed.

Lemma exec_viewBox_none s :
  prefix_ic true viewBox_literal s = None ->
  exec_at true re_viewBox s = None.
Proof.
  intros H. unfold exec_at, re_viewBox, Seqs.
  rewrite rmatch_viewBox_head, H. reflexivity.
Qed.

Lemma exec_viewBox_at s v rest :
  prefix_ic true viewBox_literal s = Some (v ++ dq :: rest) ->
  v <> [] -> forallb (fun c => negb (cu_eqb c dq)) v = true ->
  exists n, exec_at true re_viewBox s = Some (n, [(1, v)]).
Proof.
  intros Hp Hne Hv.
  set (pdq := in_class true true [CRange dq dq]).
  unfold exec_at, re_viewBox, Seqs. rewrite rmatch_viewBox_head, Hp.
  rewrite (rmatch_seq_group_plus true 1 (notc dq) _ pdq _ _ eq_refl).
  destruct v as [|x v]; [congruence|].
  cbn [forallb] in Hv. apply andb_prop in Hv. destruct Hv as [Hx Hv].
  cbn [app]. unfold pdq at 1. rewrite notc_class_ic by reflexivity.
  rewrite Hx.
  destruct (run_suffixes_app pdq v (dq :: rest)) as (tl & E & _).
  { unfold pdq. rewrite forallb_notc_class_ic by reflexivity. exact Hv. }
  { reflexivity. }
  rewrite E. cbn [flat_map].
  change (x :: v ++ dq :: rest) with ((x :: v) ++ dq :: rest).
  rewrite firstn_app_minus.
  rewrite (one_char_rmatch true (Chr dq) _ _ _ eq_refl).
  change (cu_eqb (canon true dq) (canon true dq)) with true. cbn iota.
  cbn [app]. eexists. reflexivity.
Qed.

(** X21 (the viewBox regex in the loop of build_emoji_sprite.js): the
    attribute is kept, with its name written [viewBox] whatever its case
    in the file.  When the first [viewBox=\x22] of the attributes, in any
    case, is followed by a value that is not empty and by a double quote,
    the symbol gets [ viewBox=\x22value\x22]. *)
Theorem sprite_keeps_viewBox :
  forall a1 lit v a2 : jsstring,
    length lit = 9 ->
    find_ci viewBox_literal (a1 ++ lit ++ v ++ dq :: a2)
    = Some (length a1) ->
    v <> [] ->
    forallb (fun c => negb (cu_eqb c dq)) v = true ->
    viewBoxAttr (a1 ++ lit ++ v ++ dq :: a2)
    = str " viewBox=" ++ dq :: v ++ [dq].
Proof.
  intros a1 lit v a2 Hlit Hfind Hne Hv.
  destruct (find_ci_Some _ _ _ Hfind) as (a & b & r & E & Hl & Hp & Hn).
  destruct (app_eq_length _ _ _ _ _ (eq_sym E) Hl) as [-> ->].
  destruct (prefix_ic_split _ _ _ _ Hp) as (m0 & E0 & Hm0).
  assert (Hm0' : length m0 = length lit) by (rewrite Hm0, Hlit; reflexivity).
  destruct (app_eq_length _ _ _ _ _ (eq_sym E0) Hm0') as [-> ->].
  unfold viewBoxAttr.
  rewrite (match_first_skip (exec_at true re_viewBox) a1
             (lit ++ v ++ dq :: a2)).
  2:{ intros x1 x2 Ea Hx. apply exec_viewBox_none.
      exact (Hn x1 x2 Ea Hx). }
  destruct (exec_viewBox_at (lit ++ v ++ dq :: a2) v a2 Hp Hne Hv)
    as (n & Hex).
  rewrite (match_first_head _ _ n [(1, v)] Hex). reflexivity.
Qed.

Lemma sprite_keeps_viewBox_witness :
  viewBoxAttr (str " id='a' " ++ str "VIEWBOX=" ++ [dq] ++ str "0 0 36 36"
               ++ dq :: str " width='36'")
  = str " viewBox=" ++ dq :: str "0 0 36 36" ++ [dq].
Proof.
  apply (sprite_keeps_viewBox (str " id='a' ") (str "VIEWBOX=" ++ [dq])
           (str "0 0 36 36") (str " width='36'")).
  - reflexivity.
  - vm_compute. reflexivity.
  - discriminate.
  - reflexivity.
Defined.

(** Every way the regex matches captures a value that is not empty and
    has no double quote. *)
Lemma rmatch_viewBox_captures s :
  Forall (fun st : list N * list (nat * list N) =>
            exists v, snd st = [(1, v)] /\ v <> [] /\
                      forallb (fun c => negb (cu_eqb c dq)) v = true)
         (rmatch true re_viewBox (s, [])).
Proof.
  set (pdq := in_class true true [CRange dq dq]).
  unfold re_viewBox, Seqs. rewrite rmatch_viewBox_head.
  destruct (prefix_ic true viewBox_literal s) as [r|]; [|constructor].
  rewrite (rmatch_seq_group_plus true 1 (notc dq) _ pdq _ _ eq_refl).
  destruct r as [|x t]; [constructor|].
  destruct (pdq x) eqn:Ex; [|constructor].
  apply Forall_flat_map. apply Forall_forall. intros rest Hin.
  destruct (run_suffixes_In pdq t rest Hin) as (w & -> & Hw).
  rewrite (one_char_rmatch true (Chr dq) _ _ _ eq_refl).
  destruct rest as [|y r']; [constructor|].
  destruct (cu_eqb (canon true dq) (canon true y)); [|constructor].
  constructor; [|constructor]. exists (x :: w). cbn [snd].
  change (x :: w ++ y :: r') with ((x :: w) ++ y :: r').
  rewrite firstn_app_minus. split; [reflexivity|].
  split; [discriminate|]. cbn [forallb].
  unfold pdq in Ex, Hw. rewrite notc_class_ic in Ex by reflexivity.
  rewrite forallb_notc_class_ic in Hw by reflexivity.
  rewrite Ex, Hw. reflexivity.
Qed.

(** X22 (the viewBox attribute written by the loop of
    build_emoji_sprite.js): for every attribute string the script either
    writes no viewBox attribute or writes [ viewBox=\x22value\x22] with a
    value that is not empty and contains no double quote, so the attribute
    is always closed by its own quote. *)
Theorem sprite_viewBox_is_well_formed :
  forall attrs : jsstring,
    viewBoxAttr attrs = [] \/
    exists v,
      v <> [] /\ forallb (fun c => negb (cu_eqb c dq)) v = true /\
      viewBoxAttr attrs = str " viewBox=" ++ dq :: v ++ [dq].
Proof.
  intros attrs. unfold viewBoxAttr.
  destruct (match_first (exec_at true re_viewBox) attrs) as [cs|] eqn:E;
    [|left; reflexivity].
  right. destruct (match_first_Some _ _ _ E) as (a & b & n & _ & Hex).
  unfold exec_at in Hex.
  pose proof (rmatch_viewBox_captures b) as Hall.
  destruct (rmatch true re_viewBox (b, [])) as [|[rest cs'] tl];
    [discriminate|].
  injection Hex as _ <-. inversion Hall as [|? ? (v & Hv & Hne & Hq) _].
  cbn [snd] in Hv. subst cs'. exists v.
  split; [exact Hne|]. split; [exact Hq|]. reflexivity.
Qed.

(** *** Texts without svg element *)

Lemma flat_map_nonempty (A B : Type) (f : A -> list B) l :
  flat_map f l <> [] -> exists x, In x l /\ f x <> [].
Proof.
  induction l as [|a l IH]; cbn [flat_map]; [congruence|].
  intros H. destruct (f a) as [|b t] eqn:E.
  - destruct (IH H) as (x & Hx & Hf). exists x. split; [right; exact Hx|].
    exact Hf.
  - exists a. split; [left; reflexivity|]. rewrite E. discriminate.
Qed.

Lemma lazy_suffixes_In p : forall s rest,
  In rest (lazy_suffixes p s) -> exists w, s = w ++ rest.
Proof.
  induction s as [|c t IH]; intros rest H; cbn [lazy_suffixes] in H.
  - destruct H as [<-|[]]. exists []. reflexivity.
  - destruct H as [<-|H]; [exists []; reflexivity|].
    destruct (p c); [|destruct H].
    destruct (IH rest H) as (w & ->). exists (c :: w). reflexivity.
Qed.

(** A match of the svg regex ends with [</svg>]. *)
Lemma exec_svg_closes s n cs :
  exec_svg s = Some (n, cs) ->
  exists a b, s = a ++ b /\ prefix_ic true (str "</svg>") b <> None.
Proof.
  unfold exec_svg.
  destruct (prefix_ic true (str "<svg") s) as [r|] eqn:Ep; [|discriminate].
  destruct (head_is is_word r); [discriminate|].
  destruct (exec_at true re_svg_rest r) as [[n' cs']|] eqn:Ex;
    [|discriminate].
  intros _. destruct (prefix_ic_split _ _ _ _ Ep) as (m & -> & _).
  unfold exec_at, re_svg_rest, Seqs in Ex.
  rewrite (rmatch_seq_group_star true 1 (notc (ch ">")) _ _ _ [] eq_refl)
    in Ex.
  match type of Ex with
  | match ?l with _ => _ end = _ =>
      assert (Hne : l <> []) by (destruct l; [discriminate|discriminate])
  end.
  apply flat_map_nonempty in Hne. destruct Hne as (r1 & Hin1 & Hf1).
  destruct (run_suffixes_In _ _ _ Hin1) as (w1 & -> & _).
  rewrite (rmatch_seq_one_char true (C ">") _ _ _ _ eq_refl) in Hf1.
  destruct r1 as [|x t]; [congruence|].
  destruct (cu_eqb (canon true (ch ">")) (canon true x)); [|congruence].
  rewrite (rmatch_seq_group_lazy true 2 any _ _ _ _ eq_refl) in Hf1.
  apply flat_map_nonempty in Hf1. destruct Hf1 as (r2 & Hin2 & Hf2).
  destruct (lazy_suffixes_In _ _ _ Hin2) as (w2 & ->).
  unfold L in Hf2. rewrite rmatch_lit in Hf2.
  exists (m ++ w1 ++ x :: w2), r2. split.
  - rewrite <- !app_assoc. reflexivity.
  - destruct (prefix_ic true (str "</svg>") r2); congruence.
Qed.

(** X23 (the fallback [let inner = text] in the loop of
    build_emoji_sprite.js): a text without [<svg] or without [</svg>], in
    any case, has no match, so the script takes no attributes and the whole
    text as content; the symbol is the text between [<symbol id=...>] and
    [</symbol>], without viewBox. *)
Theorem sprite_symbol_without_svg_element :
  forall file text : jsstring,
    find_ci (str "<svg") text = None \/ find_ci (str "</svg>") text = None ->
    attrs_inner text = ([], text) /\
    symbol file text =
    str "<symbol id=" ++ dq :: Sprite.idFromFilename file
    ++ dq :: ch ">" :: text ++ str "</symbol>" ++ [10%N].
Proof.
  intros file text H.
  assert (E : match_first exec_svg text = None).
  { apply match_first_None. intros a b Ea.
    destruct (exec_svg b) as [[n cs]|] eqn:Ex; [|reflexivity]. exfalso.
    destruct H as [H|H].
    - pose proof (find_ci_None _ _ H a b Ea) as Hp.
      unfold exec_svg in Ex. rewrite Hp in Ex. discriminate.
    - destruct (exec_svg_closes b n cs Ex) as (a' & b' & -> & Hp).
      apply Hp. apply (find_ci_None _ _ H (a ++ a') b').
      rewrite Ea, app_assoc. reflexivity. }
  assert (E2 : attrs_inner text = ([], text))
    by (unfold attrs_inner; rewrite E; reflexivity).
  split; [exact E2|]. unfold symbol. rewrite E2. reflexivity.
Qed.

Lemma sprite_symbol_without_svg_element_witness :
  let text := str "<g><path d='M0 0'/></g>" in
  attrs_inner text = ([], text) /\
  symbol (str "a b.svg") text =
  str "<symbol id=" ++ dq :: Sprite.idFromFilename (str "a b.svg")
  ++ dq :: ch ">" :: text ++ str "</symbol>" ++ [10%N].
Proof.
  intros text.
  apply (sprite_symbol_without_svg_element (str "a b.svg") text).
  left. vm_compute. reflexivity.
Defined.

(** *** The whole script *)

Lemma symbols_all_read fsys files :
  (forall f, In f files -> file_content fsys f <> None) ->
  symbols fsys files =
  Some (flat_map (fun f => match file_content fsys f with
                           | Some text => symbol f text
                           | None => []
                           end) files).
Proof.
  induction files as [|f files IH]; intros H; [reflexivity|].
  cbn [symbols flat_map].
  destruct (file_content fsys f) as [text|] eqn:E.
  - rewrite IH; [reflexivity|]. intros g Hg. apply H. right. exact Hg.
  - exfalso. apply (H f); [left; reflexivity|exact E].
Qed.

Lemma symbols_unreadable fsys files f :
  In f files -> file_content fsys f = None -> symbols fsys files = None.
Proof.
  induction files as [|g files IH]; intros Hin Hf; [destruct Hin|].
  cbn [symbols]. destruct Hin as [->|Hin].
  - rewrite Hf. reflexivity.
  - destruct (file_content fsys g); [|reflexivity].
    rewrite (IH Hin Hf). reflexivity.
Qed.

(** X24 (build_emoji_sprite.js as a whole): the loop has no [try].  When
    every file whose name ends in [.svg] can be read and OUT can be
    written, the script writes the header, one symbol per file in the order
    of the directory listing (the names are not sorted), and the footer;
    when one of these files cannot be read, the script ends with the
    exception and writes nothing. *)
Theorem sprite_build_is_all_or_nothing :
  forall (fsys : filesystem) (entries : list jsstring),
    dir_entries fsys = Some entries ->
    ((forall f, In f entries -> is_svg f = true ->
                file_content fsys f <> None) ->
     can_write fsys = true ->
     build fsys =
     Some (header
           ++ flat_map (fun f => match file_content fsys f with
                                 | Some text => symbol f text
                                 | None => []
                                 end) (filter is_svg entries)
           ++ footer)) /\
    (forall f, In f entries -> is_svg f = true ->
               file_content fsys f = None -> build fsys = None).
Proof.
  intros fsys entries Hd. unfold build. rewrite Hd. split.
  - intros Hall Hw. rewrite symbols_all_read, Hw; [reflexivity|].
    intros f Hf. apply filter_In in Hf. destruct Hf as [Hin Hs].
    exact (Hall f Hin Hs).
  - intros f Hin Hs Hf.
    rewrite (symbols_unreadable fsys (filter is_svg entries) f);
      [reflexivity| |exact Hf].
    apply filter_In. auto.
Qed.

Lemma sprite_build_is_all_or_nothing_witness :
  let entries := [str "b.svg"; str "a.svg"; str "notes.txt"] in
  let fsys := directory [(str "b.svg", Some (str "<svg>b</svg>"));
                         (str "a.svg", None);
                         (str "notes.txt", Some (str "x"))] in
  ((forall f, In f entries -> is_svg f = true ->
              file_content fsys f <> None) ->
   can_write fsys = true ->
   build fsys =
   Some (header
         ++ flat_map (fun f => match file_content fsys f with
                               | Some text => symbol f text
                               | None => []
                               end) (filter is_svg entries)
         ++ footer)) /\
  (forall f, In f entries -> is_svg f = true ->
             file_content fsys f = None -> build fsys = None).
Proof.
  intros entries fsys.
  apply (sprite_build_is_all_or_nothing fsys entries). reflexivity.
Defined.

(** ** Failing files in a run *)

(** X25 (the loops of bundleEmojis in src/ultra_optimized_svg_bundler.js
    and of bundleSVGEmojis in src/svg_utf8_bundler.js): in a run over at
    least one SVG file whose output file can be written, a file that cannot
    be read or encoded is caught in the loop body and only counted: the
    error counter is the number of failed files, the processed counter the
    number of the others, every file is visited, every key of the bundle is
    the key of a file that succeeded, and the exit status is 0.  When the
    keys of the files that succeeded are pairwise distinct and none is
    [__proto__], the bundle has exactly these keys, listed as an object
    lists them: array indices first, in ascending order, then the others in
    the order of the files. *)
Theorem per_file_errors_are_counted :
  forall (fsys : filesystem) (entries : list jsstring),
    dir_exists fsys = true ->
    dir_entries fsys = Some entries ->
    svg_files entries <> [] ->
    can_write fsys = true ->
    recovers 200 Ultra_svgToDataUri fsys entries /\
    recovers 100 (fun svgContent => Some (Utf8.svgToDataUri svgContent))
             fsys entries.
Proof.
  intros fsys entries He Hd Hne Hw.
  split; apply run_recovers; auto; lia.
Qed.

(** Ten files, the third of which cannot be read; [10.svg] is listed and
    read before [9.svg], and its key comes after. *)
Lemma per_file_errors_are_counted_witness :
  let entries := map str ["a.svg"; "b.svg"; "c.svg"; "d.svg"; "e.svg";
                          "f.SVG"; "g.svg"; "h.svg"; "9.svg"; "10.svg"]%string in
  let fsys :=
    directory (map (fun n => (n, if str_eqb n (str "c.svg") then None
                                 else Some (str "<svg/>"))) entries) in
  recovers 200 Ultra_svgToDataUri fsys entries /\
  recovers 100 (fun svgContent => Some (Utf8.svgToDataUri svgContent))
           fsys entries.
Proof.
  intros entries fsys.
  apply (per_file_errors_are_counted fsys entries).
  - reflexivity.
  - reflexivity.
  - vm_compute. discriminate.
  - reflexivity.
Defined.

Example keys_of_numbered_files :
  let entries := map str ["9.svg"; "10.svg"; "b.svg"]%string in
  let fsys := directory (map (fun n => (n, Some (str "<svg/>"))) entries) in
  svg_files entries = map str ["10.svg"; "9.svg"; "b.svg"]%string /\
  option_map (fun r => keys (fst r)) (output_file (bundleEmojis fsys)) =
    Some (map str ["9"; "10"; "b"]%string).
Proof. split; vm_compute; reflexivity. Qed.

(** ** Decoding a data URI *)

Lemma utf8_residue_without_hash t :
  Forall plain_space t -> ~ In (ch "#") t ->
  flat_map utf8_residue t = single_quotes t.
Proof.
  induction 1 as [|c t Hc Ht IH]; intros Hn; [reflexivity|].
  cbn [flat_map single_quotes map]. fold (single_quotes t).
  rewrite IH by (intros Hin; apply Hn; right; exact Hin).
  unfold utf8_residue.
  destruct (cu_eqb c (ch "#")) eqn:E1.
  { apply N.eqb_eq in E1. exfalso. apply Hn. left. exact E1. }
  destruct (cu_eqb c dq) eqn:E2; [reflexivity|].
  destruct (cu_eqb c 10%N) eqn:E3.
  { apply N.eqb_eq in E3. subst c. specialize (Hc eq_refl). discriminate. }
  destruct (cu_eqb c 13%N) eqn:E4.
  { apply N.eqb_eq in E4. subst c. specialize (Hc eq_refl). discriminate. }
  reflexivity.
Qed.

(** C1, as amended (svgToDataUri of src/unnamed/part_000, of
    src/ultra_optimized_svg_bundler.js and of src/svg_utf8_bundler.js): for
    every string [s] of 16-bit code units, decoding the data URI (stripping
    the prefix and reversing the percent-encoding) gives the optimized
    markup of [s], not [s] itself, whatever [s] contains, the percent sign,
    quotes, [<] and [>] included.  The encoder of part_000 always returns a
    URI; the one of ultra_optimized_svg_bundler.js returns a URI unless
    encodeURIComponent throws.  The encoder of svg_utf8_bundler.js writes
    every double quote of its cleaned markup as a single quote, and that is
    what decoding gives; this is stated for markup without [#]. *)
Theorem C1_decoding_gives_the_optimized_markup :
  forall s : jsstring,
    code_units s ->
    (exists uri optimized,
        Part0.svgToDataUri s = Some uri /\
        Part0.ultraOptimizeSVG s = Some optimized /\
        URI.decode uri = Some optimized) /\
    (forall uri,
        Ultra_svgToDataUri s = Some uri ->
        exists optimized,
          Ultra.optimizeSVG s = Some optimized /\
          URI.decode uri = Some optimized) /\
    (~ In (ch "#") (Utf8.clean s) ->
     URI.decode (Utf8.svgToDataUri s) = Some (single_quotes (Utf8.clean s))).
Proof.
  intros s Hs. split; [|split].
  - destruct (Part0.ultraOptimizeSVG s) as [out|] eqn:E.
    2:{ rewrite Part0_ultraOptimizeSVG_value in E. discriminate. }
    exists (Part0.prefix ++ Part0.encode out), out.
    unfold Part0.svgToDataUri. rewrite E. split; [reflexivity|].
    split; [reflexivity|].
    apply decode_encode. apply (ultraOptimizeSVG_plain s); exact E.
  - intros uri Hu. unfold Ultra_svgToDataUri, andThen in Hu.
    destruct (Ultra.optimizeSVG s) as [out|] eqn:E; [|discriminate].
    apply option_map_Some in Hu. destruct Hu as (e & He & ->).
    exists out. split; [reflexivity|].
    unfold URI.decode.
    change (starts_with Part0.prefix (Part0.prefix ++ e)) with true.
    cbn iota. rewrite payload_prefix_app.
    apply decodeURIComponent_encodeURIComponent; [|exact He].
    assert (Hv : forall c, (32 <= c < 127)%N -> (c < 65536)%N)
      by (intros; lia).
    exact (P_Ultra_optimizeSVG _ Hv s out Hs E).
  - intros Hn. unfold Utf8.svgToDataUri. rewrite utf8_encode_flat_map.
    unfold URI.decode.
    change (starts_with Part0.prefix
              (Part0.prefix ++ flat_map utf8_escape1 (Utf8.clean s)))
      with true.
    cbn iota. rewrite payload_prefix_app. unfold URI.decodeURIComponent.
    rewrite decode_go_utf8_escaped by apply Nat.le_refl.
    rewrite (utf8_residue_without_hash _ (clean_plain s) Hn). reflexivity.
Qed.

(** An input with the characters the claim names, and the same without
    [#] for the third encoder. *)
Lemma C1_witness :
  let s := str "<p x='50%' y=#f>" ++ [dq; 233%N; 55357%N; 56832%N] in
  let t := str "<p x='50%' y=f>" ++ [dq; 233%N; 55357%N; 56832%N] in
  ((exists uri optimized,
       Part0.svgToDataUri s = Some uri /\
       Part0.ultraOptimizeSVG s = Some optimized /\
       URI.decode uri = Some optimized) /\
   (forall uri,
       Ultra_svgToDataUri s = Some uri ->
       exists optimized,
         Ultra.optimizeSVG s = Some optimized /\
         URI.decode uri = Some optimized)) /\
  URI.decode (Utf8.svgToDataUri t) = Some (single_quotes (Utf8.clean t)).
Proof.
  intros s t. split.
  - destruct (C1_decoding_gives_the_optimized_markup s) as (H1 & H2 & _).
    + unfold code_units, s. repeat constructor.
    + split; [exact H1|exact H2].
  - destruct (C1_decoding_gives_the_optimized_markup t) as (_ & _ & H3).
    + unfold code_units, t. repeat constructor.
    + apply H3. vm_compute. intuition discriminate.
Defined.

(** C1 as stated fails for each of the three encoders: the markup is
    optimized before it is encoded, so two spaces come back as one; and the
    third encoder gives a single quote for a double one. *)
Lemma C1_counterexample :
  let s := str "x  y" in
  let q := [ch "a"; dq; ch "b"] in
  (exists uri, Part0.svgToDataUri s = Some uri /\ URI.decode uri <> Some s) /\
  (exists uri, Ultra_svgToDataUri s = Some uri /\ URI.decode uri <> Some s) /\
  URI.decode (Utf8.svgToDataUri s) <> Some s /\
  URI.decode (Utf8.svgToDataUri q) = Some [ch "a"; sq; ch "b"].
Proof.
  intros s q. split; [|split; [|split]].
  - eexists. split; [vm_compute; reflexivity|]. vm_compute. discriminate.
  - eexists. split; [vm_compute; reflexivity|]. vm_compute. discriminate.
  - vm_compute. discriminate.
  - vm_compute. reflexivity.
Qed.

(** ** Replacing items from left to right *)

Section ScanFacts.

Variable item_at : jsstring -> option (jsstring * jsstring).

(** An item is a piece of the text, and not an empty one. *)
Hypothesis item_consumes : forall s replaced rest,
  item_at s = Some (replaced, rest) -> exists m, m <> [] /\ s = m ++ rest.

Lemma item_at_nil : item_at [] = None.
Proof.
  destruct (item_at []) as [[replaced rest]|] eqn:E; [|reflexivity].
  destruct (item_consumes _ _ _ E) as (w & Hne & Hs).
  destruct w; [congruence|discriminate].
Qed.

Lemma scan_from_enough : forall n m s,
  length s <= n -> length s <= m ->
  scan_from item_at n s = scan_from item_at m s.
Proof.
  induction n as [|n IH]; intros m s Hn Hm.
  - destruct s; [|simpl in Hn; lia].
    destruct m; [reflexivity|]. cbn [scan_from]. rewrite item_at_nil.
    reflexivity.
  - destruct m as [|m].
    { destruct s; [|simpl in Hm; lia]. cbn [scan_from].
      rewrite item_at_nil. reflexivity. }
    cbn [scan_from]. destruct (item_at s) as [[replaced rest]|] eqn:E.
    + destruct (item_consumes _ _ _ E) as (w & Hne & ->).
      f_equal. rewrite !length_app in Hn, Hm.
      destruct w; [congruence|]. cbn [length] in Hn, Hm.
      apply IH; clear - Hn Hm; lia.
    + destruct s as [|c t]; [reflexivity|]. simpl in Hn, Hm.
      f_equal. apply IH; lia.
Qed.

(** One step of the reading. *)
Lemma scan_step s :
  scan item_at s =
  match item_at s with
  | Some (replaced, rest) => replaced ++ scan item_at rest
  | None =>
      match s with
      | [] => []
      | c :: t => c :: scan item_at t
      end
  end.
Proof.
  unfold scan. destruct s as [|c t].
  - cbn [length scan_from]. rewrite item_at_nil. reflexivity.
  - cbn [length scan_from].
    destruct (item_at (c :: t)) as [[replaced rest]|] eqn:E; [|reflexivity].
    destruct (item_consumes _ _ _ E) as (w & Hne & Hs).
    f_equal. apply scan_from_enough; [|lia].
    apply (f_equal (@length cu)) in Hs. rewrite length_app in Hs.
    destruct w; [congruence|]. simpl in Hs. lia.
Qed.

(** A text [x] added after [pre] is read on its own when it does not change
    the items found in [pre]. *)
Lemma scan_app_bounded x : forall n pre,
  length pre <= n ->
  (forall w1 w2, pre = w1 ++ w2 -> w2 <> [] ->
     item_at (w2 ++ x) =
     match item_at w2 with
     | Some (replaced, rest) => Some (replaced, rest ++ x)
     | None => None
     end) ->
  scan item_at (pre ++ x) = scan item_at pre ++ scan item_at x.
Proof.
  induction n as [|n IH]; intros pre Hn H.
  - destruct pre; [reflexivity|simpl in Hn; lia].
  - destruct pre as [|c t]; [reflexivity|].
    rewrite (scan_step ((c :: t) ++ x)), (scan_step (c :: t)).
    rewrite (H [] (c :: t) eq_refl ltac:(discriminate)).
    destruct (item_at (c :: t)) as [[replaced rest]|] eqn:E.
    + destruct (item_consumes _ _ _ E) as (w & Hne & Hs).
      rewrite <- (app_assoc replaced). apply (f_equal (app _)).
      apply IH.
      * apply (f_equal (@length cu)) in Hs. rewrite length_app in Hs.
        destruct w; [congruence|]. simpl in Hs, Hn. lia.
      * intros w1 w2 E2 Hne2. apply (H (w ++ w1) w2); [|exact Hne2].
        rewrite Hs, E2. apply app_assoc.
    + cbn [app]. f_equal. apply IH; [simpl in Hn; lia|].
      intros w1 w2 E2 Hne2. apply (H (c :: w1) w2); [|exact Hne2].
      rewrite E2. reflexivity.
Qed.

Lemma scan_app pre x :
  (forall w1 w2, pre = w1 ++ w2 -> w2 <> [] ->
     item_at (w2 ++ x) =
     match item_at w2 with
     | Some (replaced, rest) => Some (replaced, rest ++ x)
     | None => None
     end) ->
  scan item_at (pre ++ x) = scan item_at pre ++ scan item_at x.
Proof. apply (scan_app_bounded x (length pre)). apply Nat.le_refl. Qed.

Section ScanRegex.

Variable ic : bool.
Variable r : regex.
Variable f : replacement.

(** The items are the matches of the regex [r], replaced by [f]. *)
Hypothesis exec_item : forall s replaced rest,
  item_at s = Some (replaced, rest) ->
  exists m cs, s = m ++ rest /\ m <> [] /\
               exec_at ic r s = Some (length m, cs) /\ f m cs = replaced.
Hypothesis exec_none : forall s, item_at s = None -> exec_at ic r s = None.

Lemma replace_all_scan_bounded : forall n s,
  length s <= n -> replace_all ic r f s = scan item_at s.
Proof.
  induction n as [|n IH]; intros s Hn.
  - destruct s; [|simpl in Hn; lia].
    rewrite scan_step, item_at_nil. unfold replace_all.
    apply replace_go_nil. apply exec_none. apply item_at_nil.
  - rewrite scan_step.
    destruct (item_at s) as [[replaced rest]|] eqn:E.
    + destruct (exec_item _ _ _ E) as (m & cs & -> & Hne & He & <-).
      unfold replace_all. rewrite (replace_go_match ic r f m rest cs Hne He).
      f_equal. apply IH. rewrite length_app in Hn.
      destruct m; [congruence|]. simpl in Hn. lia.
    + apply exec_none in E. unfold replace_all.
      destruct s as [|c t]; [apply replace_go_nil; exact E|].
      rewrite replace_go_cons0, E. f_equal. apply IH. simpl in Hn. lia.
Qed.

Lemma replace_all_scan s : replace_all ic r f s = scan item_at s.
Proof. apply (replace_all_scan_bounded (length s)). apply Nat.le_refl. Qed.

End ScanRegex.

End ScanFacts.

(** ** Decimal literals in any text *)

Lemma literal_at_spec s literal rest :
  literal_at s = Some (literal, rest) ->
  exists ip fp,
    literal = ip ++ ch "." :: fp /\ s = literal ++ rest /\
    ip <> [] /\ all_digits ip = true /\ all_digits fp = true /\
    3 <= length fp /\ starts_with_digit rest = false.
Proof.
  unfold literal_at.
  destruct (takeWhile_dropWhile is_digit s) as (H1 & H2 & H3).
  destruct (takeWhile is_digit s) as [|i ip] eqn:Ei; [discriminate|].
  destruct (decimal_tail (dropWhile is_digit s)) eqn:Et; [|discriminate].
  intros [= <- <-].
  destruct (dropWhile is_digit s) as [|c [|d1 [|d2 [|d3 t]]]] eqn:Ed;
    try discriminate.
  cbn [decimal_tail] in Et.
  apply andb_prop in Et. destruct Et as [Et E3].
  apply andb_prop in Et. destruct Et as [Et E2].
  apply andb_prop in Et. destruct Et as [Ec E1].
  apply N.eqb_eq in Ec. subst c. cbn [tl].
  destruct (takeWhile_dropWhile is_digit (d1 :: d2 :: d3 :: t))
    as (H4 & H5 & H6).
  exists (i :: ip), (takeWhile is_digit (d1 :: d2 :: d3 :: t)).
  split; [reflexivity|]. split.
  { rewrite <- H1. cbn [app]. f_equal. rewrite <- app_assoc. cbn [app].
    rewrite H4. reflexivity. }
  split; [discriminate|]. split; [exact H2|]. split; [exact H5|].
  split.
  - cbn [takeWhile]. rewrite E1, E2, E3. simpl. lia.
  - destruct (dropWhile is_digit (d1 :: d2 :: d3 :: t)); [reflexivity|].
    exact H6.
Qed.

Lemma literal_at_literal ip fp post :
  ip <> [] -> all_digits ip = true -> all_digits fp = true ->
  3 <= length fp -> starts_with_digit post = false ->
  literal_at ((ip ++ ch "." :: fp) ++ post) = Some (ip ++ ch "." :: fp, post).
Proof.
  intros Hne Hip Hfp Hlen Hpost. unfold literal_at.
  rewrite <- app_assoc. cbn [app].
  destruct (takeWhile_app is_digit ip (ch "." :: fp ++ post) Hip eq_refl)
    as [H1 H2].
  rewrite H1, H2.
  assert (Hp : head_is is_digit post = false)
    by (destruct post; [reflexivity|exact Hpost]).
  destruct (takeWhile_app is_digit fp post Hfp Hp) as [H3 H4].
  destruct ip as [|i ip]; [congruence|].
  destruct fp as [|d1 [|d2 [|d3 fp]]]; try (simpl in Hlen; lia).
  cbn [all_digits forallb] in Hfp.
  apply andb_prop in Hfp. destruct Hfp as [E1 Hfp].
  apply andb_prop in Hfp. destruct Hfp as [E2 Hfp].
  apply andb_prop in Hfp. destruct Hfp as [E3 Hfp].
  cbn [app decimal_tail]. rewrite E1, E2, E3.
  change (cu_eqb (ch ".") (ch ".")) with true. cbn [andb tl].
  cbn [app] in H3, H4. rewrite H3, H4. reflexivity.
Qed.

Lemma exec_decimal_no_digit s :
  starts_with_digit s = false -> exec_at false re_decimal s = None.
Proof.
  intros H.
  pose proof (exec_decimal_fails [] s eq_refl H) as He. cbn [app] in He.
  destruct s as [|c t]; [apply He; reflexivity|].
  assert (Hd : one_char false digit =
               Some (in_class false false [CDigit])) by reflexivity.
  unfold exec_at, re_decimal. rewrite rmatch_group.
  unfold Seqs, Plus. rewrite rmatch_seq_assoc.
  rewrite (rmatch_seq_one_char _ _ _ _ _ _ Hd).
  cbn [starts_with_digit] in H. rewrite digit_class, H. reflexivity.
Qed.

(** Where no literal starts, the regex has no match. *)
Lemma literal_at_none s :
  literal_at s = None -> exec_at false re_decimal s = None.
Proof.
  unfold literal_at. intros H.
  destruct (takeWhile_dropWhile is_digit s) as (H1 & H2 & H3).
  destruct (takeWhile is_digit s) as [|i ip] eqn:Ei.
  - apply exec_decimal_no_digit. cbn [app] in H1. rewrite <- H1.
    destruct (dropWhile is_digit s); [reflexivity|exact H3].
  - destruct (decimal_tail (dropWhile is_digit s)) eqn:Et; [discriminate|].
    rewrite <- H1. apply exec_decimal_fails; [exact H2| |exact Et].
    destruct (dropWhile is_digit s); [reflexivity|exact H3].
Qed.

Lemma rounded_at_consumes s replaced rest :
  rounded_at s = Some (replaced, rest) ->
  exists m, m <> [] /\ s = m ++ rest.
Proof.
  unfold rounded_at. destruct (literal_at s) as [[literal r]|] eqn:E;
    [|discriminate].
  intros [= <- <-].
  destruct (literal_at_spec _ _ _ E) as (ip & fp & -> & Hs & _).
  exists (ip ++ ch "." :: fp). split; [|exact Hs].
  destruct ip; discriminate.
Qed.

(** The regex replacement is this reading. *)
Lemma replace_decimal_round_literals s :
  replace_all false re_decimal round_decimal_value s = round_literals s.
Proof.
  apply (replace_all_scan rounded_at rounded_at_consumes).
  - intros t replaced rest H. unfold rounded_at in H.
    destruct (literal_at t) as [[literal r]|] eqn:E; [|discriminate].
    injection H as <- <-.
    destruct (literal_at_spec _ _ _ E)
      as (ip & fp & -> & -> & Hne & Hip & Hfp & Hlen & Hrest).
    exists (ip ++ ch "." :: fp), [(1, ip ++ ch "." :: fp)].
    split; [reflexivity|]. split; [destruct ip; discriminate|].
    split; [apply exec_decimal; assumption|reflexivity].
  - intros t H. apply literal_at_none. unfold rounded_at in H.
    destruct (literal_at t) as [[literal r]|]; [discriminate|reflexivity].
Qed.

(** *** A literal inside a text *)

Lemma ends_numeric_false s :
  ends_numeric s = false ->
  s = [] \/ exists q c, s = q ++ [c] /\ is_digit c = false
                        /\ cu_eqb (ch ".") c = false.
Proof.
  unfold ends_numeric, starts_numeric. intros H.
  destruct (rev s) as [|c l] eqn:E.
  - left. apply (f_equal (@rev cu)) in E. rewrite rev_involutive in E.
    exact E.
  - right. exists (rev l), c. cbn [head_is] in H.
    apply orb_false_elim in H. destruct H as [H1 H2].
    split; [|split; assumption].
    apply (f_equal (@rev cu)) in E. rewrite rev_involutive in E. exact E.
Qed.

Lemma ends_numeric_snoc q c :
  is_digit c = false -> cu_eqb (ch ".") c = false ->
  ends_numeric (q ++ [c]) = false.
Proof.
  intros H1 H2. unfold ends_numeric, starts_numeric.
  rewrite rev_app_distr. cbn [rev app head_is]. rewrite H1, H2. reflexivity.
Qed.

Lemma while_snoc p q c x :
  p c = false ->
  takeWhile p ((q ++ [c]) ++ x) = takeWhile p q /\
  dropWhile p ((q ++ [c]) ++ x) = (dropWhile p q ++ [c]) ++ x.
Proof.
  intros Hc. induction q as [|a q [IH1 IH2]].
  - cbn [app takeWhile dropWhile]. rewrite Hc. split; reflexivity.
  - cbn [app takeWhile dropWhile]. fold (takeWhile p). fold (dropWhile p).
    destruct (p a); [|split; reflexivity].
    rewrite IH1, IH2. split; reflexivity.
Qed.

Lemma decimal_tail_snoc r c x :
  is_digit c = false -> cu_eqb (ch ".") c = false ->
  decimal_tail ((r ++ [c]) ++ x) = decimal_tail (r ++ [c]).
Proof.
  intros H1 H2.
  destruct r as [|a [|b [|d [|e r]]]]; cbn [app decimal_tail];
    rewrite ?H1, ?H2, ?andb_false_r; cbn [andb];
    try reflexivity; destruct x as [|x1 [|x2 [|x3 x]]]; reflexivity.
Qed.

(** What follows a text that ends in neither a digit nor a point does not
    change the literal at its head. *)
Lemma literal_at_snoc q c x :
  is_digit c = false -> cu_eqb (ch ".") c = false ->
  match literal_at (q ++ [c]) with
  | Some (literal, rest) =>
      exists q', rest = q' ++ [c] /\
                 literal_at ((q ++ [c]) ++ x) = Some (literal, rest ++ x)
  | None => literal_at ((q ++ [c]) ++ x) = None
  end.
Proof.
  intros H1 H2. unfold literal_at.
  destruct (while_snoc is_digit q c x H1) as [T1 D1].
  destruct (while_snoc is_digit q c [] H1) as [T0 D0].
  rewrite app_nil_r in T0. rewrite !app_nil_r in D0.
  rewrite T1, D1, T0, D0.
  destruct (takeWhile is_digit q) as [|i ip]; [reflexivity|].
  rewrite (decimal_tail_snoc _ c x H1 H2).
  destruct (decimal_tail (dropWhile is_digit q ++ [c])) eqn:Et;
    cbv beta iota; [|reflexivity].
  destruct (dropWhile is_digit q) as [|d r].
  { cbn [app decimal_tail] in Et. discriminate. }
  cbn [app tl].
  destruct (while_snoc is_digit r c x H1) as [T2 D2].
  destruct (while_snoc is_digit r c [] H1) as [T3 D3].
  rewrite app_nil_r in T3. rewrite !app_nil_r in D3.
  rewrite T2, D2, T3, D3.
  exists (dropWhile is_digit r). split; reflexivity.
Qed.

Lemma round_literals_app pre x :
  ends_numeric pre = false ->
  round_literals (pre ++ x) = round_literals pre ++ round_literals x.
Proof.
  intros He. apply (scan_app rounded_at rounded_at_consumes).
  intros w1 w2 -> Hne.
  destruct (ends_numeric_false _ He) as [E|(q & c & E & H1 & H2)].
  { apply app_eq_nil in E. tauto. }
  assert (Hw : exists q', w2 = q' ++ [c]).
  { destruct (exists_last Hne) as (q' & c' & ->).
    rewrite app_assoc in E. apply app_inj_tail in E.
    destruct E as [_ ->]. exists q'. reflexivity. }
  destruct Hw as (q' & ->).
  pose proof (literal_at_snoc q' c x H1 H2) as Hl. unfold rounded_at.
  destruct (literal_at (q' ++ [c])) as [[literal rest]|].
  - destruct Hl as (r & -> & ->). reflexivity.
  - rewrite Hl. reflexivity.
Qed.





(** Other inputs: the hundredths nearest to the binary64 value, which for
    1.005 lies below the decimal; a carry to 10^23; a literal too large
    for a binary64 number. *)
Example decimal_examples :
  reduce_precision (str "1.005") = Some (str "1.00") /\
  reduce_precision (str "99999999999999999999999.999") = Some (str "1e+23") /\
  round_literals (str "a.12345.678 1.5 2.250") = str "a.12345.68 1.5 2.25" /\
  parseFloat (str "2" ++ repeat_cu (ch "0") 308 ++ str ".000") = Infinity.
Proof. repeat split; vm_compute; reflexivity. Qed.

(** ** Colors in any text *)

(** *** The rgb regex, step by step *)
















(** *** What a literal takes of the text *)







(** *** A literal inside a text *)










(** *** The shorthand regex, step by step *)







(** *** A six-digit color inside a text *)











(** The other examples of the specification, and a few more. *)
Example colors_examples :
  optimize_colors (str "rgb(255,255,255)") = Some (str "#fff") /\
  optimize_colors (str "rgb( 17 , 34 ,51 )") = Some (str "#123") /\
  optimize_colors (str "#aabbcc") = Some (str "#abc") /\
  optimize_colors (str "#AabBcC") = Some (str "#Abc") /\
  optimize_colors (str "#123456") = Some (str "#123456") /\
  optimize_colors (str "#11223344") = Some (str "#12344") /\
  optimize_colors (str "RGB(1,2,3)") = Some (str "#010203") /\
  rgb_to_hex_colors (str "rgb(1,2,3)rgb(1,2,3") = str "#010203rgb(1,2,3" /\
  short_colors (str "##aabbcc#aabbc") = str "##abc#aabbc".
Proof. repeat split; vm_compute; reflexivity. Qed.

(** ** The optimizers as functions of their input *)

(** C6 (optimizeSVG of src/ultra_optimized_svg_bundler.js and
    ultraOptimizeSVG of src/unnamed/part_000): for every input string,
    markup or not, each optimizer returns a string; no replacement function
    throws, PRECISION and the radix being in range.  The result is made of
    code units of the input and of visible ASCII characters, so it is a
    string of 16-bit code units when the input is one.  The optimizers are
    functions of their argument alone: the source calls only the string,
    regex and number methods embedded here, it reads and writes nothing
    else, so equal inputs give equal outputs. *)
Theorem C6_optimizers_always_return :
  forall s : jsstring,
    exists out out',
      Ultra.optimizeSVG s = Some out /\
      Part0.ultraOptimizeSVG s = Some out' /\
      (code_units s -> code_units out /\ code_units out').
Proof.
  intros s.
  destruct (Ultra.optimizeSVG s) as [out|] eqn:E.
  2:{ rewrite Ultra_optimizeSVG_value in E. discriminate. }
  destruct (Part0.ultraOptimizeSVG s) as [out'|] eqn:E'.
  2:{ rewrite Part0_ultraOptimizeSVG_value in E'. discriminate. }
  exists out, out'. split; [reflexivity|]. split; [reflexivity|].
  intros Hs.
  assert (Hv : forall c, (32 <= c < 127)%N -> (c < 65536)%N)
    by (intros; lia).
  split.
  - exact (P_Ultra_optimizeSVG _ Hv s out Hs E).
  - exact (P_Part0_ultraOptimizeSVG _ Hv s out' Hs E').
Qed.

(** Markup that is not well formed, with an unfinished comment, number and
    color and a lone surrogate. *)
Lemma C6_witness :
  let s := str "<svg <!-- 1.23456 rgb(1,2 </g" ++ [55357%N; dq] in
  exists out out',
    Ultra.optimizeSVG s = Some out /\
    Part0.ultraOptimizeSVG s = Some out' /\
    code_units out /\ code_units out'.
Proof.
  intros s.
  destruct (C6_optimizers_always_return s) as (out & out' & H1 & H2 & H3).
  exists out, out'. split; [exact H1|]. split; [exact H2|].
  apply H3. unfold code_units, s. repeat constructor.
Defined.

(** ** The viewBox attribute *)

(** C5 (optimizeSVG of src/ultra_optimized_svg_bundler.js and
    ultraOptimizeSVG of src/unnamed/part_000), the code at inputs on which
    it loses the viewBox.  In part_000 the pattern for a namespace
    attribute, [xmlns:] followed by anything up to an equals sign and a
    double quote, runs over a namespace written with single quotes and
    takes the viewBox attribute that follows it.  In
    ultra_optimized_svg_bundler.js the name after [xmlns:] can be anything
    without an equals sign, so the text [xmlns:] inside another attribute's
    value takes the rest of that value and the viewBox attribute.  Without
    such a text before it the viewBox attribute is kept. *)
Theorem C5_viewBox_is_removed_after_xmlns :
  Part0.ultraOptimizeSVG
    (str "<svg xmlns:xlink='http://www.w3.org/1999/xlink' viewBox="
         ++ dq :: str "0 0 24 24" ++ dq :: str "></svg>")
  = Some (str "<svg></svg>") /\
  Ultra.optimizeSVG
    (str "<svg class=" ++ dq :: str "xmlns:a" ++ dq :: str " viewBox="
         ++ dq :: str "0 0 24 24" ++ dq :: str "></svg>")
  = Some (str "<svg class=" ++ dq :: str "></svg>") /\
  Ultra.optimizeSVG
    (str "<svg xmlns:xlink=" ++ dq :: str "http://www.w3.org/1999/xlink"
         ++ dq :: str " viewBox=" ++ dq :: str "0 0 24 24" ++ dq
         :: str "></svg>")
  = Some (str "<svg viewBox=" ++ dq :: str "0 0 24 24" ++ dq
              :: str "></svg>").
Proof. repeat split; vm_compute; reflexivity. Qed.

(** ** A second pass *)

Lemma trimStart_snoc q c :
  is_ws c = false -> trimStart (q ++ [c]) = trimStart q ++ [c].
Proof.
  intros Hc. induction q as [|a q IH]; cbn [app trimStart].
  - rewrite Hc. reflexivity.
  - destruct (is_ws a); [exact IH|reflexivity].
Qed.

Lemma trimStart_fixed s : head_is is_ws s = false -> trimStart s = s.
Proof.
  destruct s as [|c t]; [reflexivity|]. cbn [head_is trimStart].
  intros ->. reflexivity.
Qed.

Lemma trimStart_head s : head_is is_ws (trimStart s) = false.
Proof.
  induction s as [|c t IH]; [reflexivity|]. cbn [trimStart].
  destruct (is_ws c) eqn:E; [exact IH|]. cbn [head_is]. exact E.
Qed.

Lemma trimEnd_head s :
  head_is is_ws s = false -> head_is is_ws (trimEnd s) = false.
Proof.
  destruct s as [|c t]; [reflexivity|]. cbn [head_is]. intros Hc.
  unfold trimEnd. cbn [rev]. rewrite (trimStart_snoc _ _ Hc).
  rewrite rev_app_distr. cbn [rev app head_is]. exact Hc.
Qed.

Lemma trimEnd_twice s : trimEnd (trimEnd s) = trimEnd s.
Proof.
  unfold trimEnd. rewrite rev_involutive.
  rewrite (trimStart_fixed _ (trimStart_head (rev s))). reflexivity.
Qed.

Lemma trim_twice s : trim (trim s) = trim s.
Proof.
  unfold trim.
  rewrite (trimStart_fixed (trimEnd (trimStart s))).
  - apply trimEnd_twice.
  - apply trimEnd_head. apply trimStart_head.
Qed.

Lemma single_quoting_twice s : Part0.step8 (Part0.step8 s) = Part0.step8 s.
Proof.
  unfold Part0.step8.
  rewrite !(@replace_one_char false (Chr dq) _ (const [sq]) _ eq_refl).
  induction s as [|c t IH]; [reflexivity|]. cbn [flat_map].
  destruct (cu_eqb (canon false dq) (canon false c)) eqn:E.
  - cbn [const app flat_map].
    change (cu_eqb (canon false dq) (canon false sq)) with false.
    cbn [app]. rewrite IH. reflexivity.
  - cbn [app flat_map]. rewrite E. cbn [app]. rewrite IH. reflexivity.
Qed.

(** The last code unit of a text, when it is neither a digit nor a point,
    is still the last one after the rounding. *)
Lemma round_literals_last : forall n q c,
  length q <= n ->
  is_digit c = false -> cu_eqb (ch ".") c = false ->
  exists y, round_literals (q ++ [c]) = y ++ [c].
Proof.
  induction n as [|n IH]; intros q c Hn H1 H2.
  - destruct q; [|simpl in Hn; lia]. exists [].
    unfold round_literals.
    rewrite (scan_step rounded_at rounded_at_consumes).
    assert (Er : rounded_at ([] ++ [c]) = None).
    { unfold rounded_at.
      destruct (literal_at ([] ++ [c])) as [[literal rest]|] eqn:E;
        [|reflexivity].
      destruct (literal_at_spec _ _ _ E) as (ip & fp & -> & Hs & Hne & _).
      destruct ip as [|i ip]; [congruence|].
      apply (f_equal (@length cu)) in Hs. rewrite !length_app in Hs.
      cbn [length app] in Hs. clear - Hs. lia. }
    rewrite Er. reflexivity.
  - unfold round_literals.
    rewrite (scan_step rounded_at rounded_at_consumes).
    pose proof (literal_at_snoc q c [] H1 H2) as Hl.
    destruct (literal_at (q ++ [c])) as [[literal rest]|] eqn:E.
    + destruct Hl as (q' & -> & _).
      assert (Er : rounded_at (q ++ [c]) =
                   Some (fixed PRECISION (parseFloat literal), q' ++ [c])).
      { unfold rounded_at. rewrite E. reflexivity. }
      rewrite Er.
      destruct (literal_at_spec _ _ _ E) as (ip & fp & -> & Hs & _).
      destruct (IH q' c) as (y & Hy); [|exact H1|exact H2|].
      * apply (f_equal (@length cu)) in Hs. rewrite !length_app in Hs.
        cbn [length] in Hs. clear - Hs Hn. lia.
      * fold round_literals. rewrite Hy.
        exists (fixed PRECISION (parseFloat (ip ++ ch "." :: fp)) ++ y).
        apply app_assoc.
    + assert (Er : rounded_at (q ++ [c]) = None).
      { unfold rounded_at. rewrite E. reflexivity. }
      rewrite Er. destruct q as [|a q]; cbn [app].
      * exists []. reflexivity.
      * destruct (IH q c) as (y & Hy); [simpl in Hn; lia|exact H1|exact H2|].
        fold round_literals. rewrite Hy. exists (a :: y). reflexivity.
Qed.

Lemma round_literals_ends pre :
  ends_numeric pre = false -> ends_numeric (round_literals pre) = false.
Proof.
  intros He.
  destruct (ends_numeric_false _ He) as [->|(q & c & -> & H1 & H2)];
    [reflexivity|].
  destruct (round_literals_last (length q) q c (Nat.le_refl _) H1 H2)
    as (y & ->).
  apply ends_numeric_snoc; assumption.
Qed.

(** C2, as amended (optimizeSVG of src/ultra_optimized_svg_bundler.js and
    ultraOptimizeSVG of src/unnamed/part_000).  What a second pass leaves
    as the first one made it: collapsing white space, trimming and (in
    part_000) writing single quotes give, applied twice, what they give
    applied once, for every text; and a decimal literal below 10^21 that
    stands after a text that does not end, and before a text that does not
    start, with a digit or a point is, once rounded, left alone by another
    pass that leaves the rounded texts around it alone. *)
Theorem C2_what_a_second_pass_keeps :
  (forall s : jsstring,
      collapse_spaces (collapse_spaces s) = collapse_spaces s /\
      trim (trim s) = trim s /\
      Part0.step8 (Part0.step8 s) = Part0.step8 s) /\
  (forall (pre ip fp post p r : jsstring) (m e : Z),
      ends_numeric pre = false ->
      ip <> [] -> all_digits ip = true -> all_digits fp = true ->
      3 <= length fp ->
      starts_numeric post = false ->
      parseFloat (ip ++ ch "." :: fp) = Finite m e ->
      ge_int m e (10 ^ 21) = false ->
      reduce_precision pre = Some p -> reduce_precision p = Some p ->
      reduce_precision post = Some r -> reduce_precision r = Some r ->
      exists out,
        reduce_precision (pre ++ (ip ++ ch "." :: fp) ++ post) = Some out /\
        twice reduce_precision (pre ++ (ip ++ ch "." :: fp) ++ post)
        = Some out).
Proof.
  split.
  - intros s. split; [|split; [apply trim_twice|apply single_quoting_twice]].
    assert (H : forall x, collapse_spaces x = squeeze false x).
    { intros x. unfold collapse_spaces, replace_all.
      apply (collapse_spaces_squeeze (length x)). apply Nat.le_refl. }
    rewrite (H (collapse_spaces s)). apply squeeze_fixed.
    + rewrite H. apply squeeze_single_spaced.
    + apply collapse_spaces_plain.
  - intros pre ip fp post p r m e Hpre Hne Hip Hfp Hlen Hpost Hpf Hlt
           Hp Hpp Hr Hrr.
    assert (Hv : forall s, reduce_precision s = Some (round_literals s)).
    { intros s. rewrite reduce_precision_value. f_equal.
      apply replace_decimal_round_literals. }
    rewrite Hv in Hp, Hpp, Hr, Hrr.
    injection Hp as Hp. injection Hpp as Hpp.
    injection Hr as Hr. injection Hrr as Hrr.
    assert (Hsd : starts_with_digit post = false).
    { destruct post as [|c t]; [reflexivity|].
      unfold starts_numeric in Hpost. cbn [head_is] in Hpost.
      apply orb_false_elim in Hpost. tauto. }
    assert (Hm : (0 <= m)%Z).
    { rewrite parseFloat_literal in Hpf by assumption.
      apply (round64_nonneg _ _ _ _ ) in Hpf; [exact Hpf| |].
      - apply dec_value_nonneg. rewrite all_digits_app, Hip, Hfp.
        reflexivity.
      - apply Z.pow_pos_nonneg; lia. }
    destruct (fixed2_shape m e Hm Hlt) as (a & b & H1 & H2 & H3 & H4 & H5 & _).
    assert (Hone : round_literals (pre ++ (ip ++ ch "." :: fp) ++ post) =
                   p ++ (a ++ ch "." :: b) ++ r).
    { rewrite (round_literals_app pre _ Hpre), Hp. f_equal.
      unfold round_literals at 1.
      rewrite (scan_step rounded_at rounded_at_consumes).
      unfold rounded_at at 1.
      rewrite (literal_at_literal ip fp post Hne Hip Hfp Hlen Hsd).
      rewrite Hpf, H1. fold round_literals. rewrite Hr. reflexivity. }
    exists (p ++ (a ++ ch "." :: b) ++ r).
    unfold twice. rewrite !Hv, Hone. split; [reflexivity|].
    cbn [andThen]. rewrite Hv. f_equal.
    assert (Hpe : ends_numeric p = false).
    { rewrite <- Hp. apply round_literals_ends. exact Hpre. }
    rewrite (round_literals_app p _ Hpe), Hpp. f_equal.
    rewrite <- replace_decimal_round_literals. unfold replace_all.
    rewrite (replace_go_unmatched false re_decimal round_decimal_value
               (a ++ ch "." :: b) r).
    + f_equal. fold (replace_all false re_decimal round_decimal_value r).
      rewrite replace_decimal_round_literals. exact Hrr.
    + apply no_match_in_rounded; try assumption.
      rewrite <- Hr, <- replace_decimal_round_literals.
      apply replace_decimal_head. exact Hpost.
Qed.

(** A rounded coordinate between two others. *)
Lemma C2_witness :
  exists out,
    reduce_precision (str "M 1 " ++ (str "12" ++ ch "." :: str "34567")
                          ++ str " 0.9999z") = Some out /\
    twice reduce_precision (str "M 1 " ++ (str "12" ++ ch "." :: str "34567")
                                ++ str " 0.9999z") = Some out.
Proof.
  destruct C2_what_a_second_pass_keeps as [_ H].
  assert (Hpf : parseFloat (str "12" ++ ch "." :: str "34567") =
                Finite 6949994351454889 (-49)) by (vm_compute; reflexivity).
  assert (Hp : reduce_precision (str "M 1 ") = Some (str "M 1 "))
    by (vm_compute; reflexivity).
  assert (Hr : reduce_precision (str " 0.9999z") = Some (str " 1.00z"))
    by (vm_compute; reflexivity).
  assert (Hrr : reduce_precision (str " 1.00z") = Some (str " 1.00z"))
    by (vm_compute; reflexivity).
  assert (Hlt : ge_int 6949994351454889 (-49) (10 ^ 21) = false)
    by (vm_compute; reflexivity).
  apply (H (str "M 1 ") (str "12") (str "34567") (str " 0.9999z")
           (str "M 1 ") (str " 1.00z") 6949994351454889%Z (-49)%Z).
  - reflexivity.
  - discriminate.
  - reflexivity.
  - reflexivity.
  - simpl. lia.
  - reflexivity.
  - exact Hpf.
  - exact Hlt.
  - exact Hp.
  - exact Hp.
  - exact Hr.
  - exact Hrr.
Defined.

(** C2 as stated fails, also on valid markup: in path data a number can
    follow another without a space when it starts with its point; the first
    pass rounds 1.2345 and leaves .6789, the second one reads 23.6789 and
    rounds that. *)
Lemma C2_counterexample :
  let s := str "<path d=" ++ dq :: str "M1.2345.6789" ++ dq :: str "/>" in
  Ultra.optimizeSVG s =
    Some (str "<path d=" ++ dq :: str "M1.23.6789" ++ dq :: str "/>") /\
  twice Ultra.optimizeSVG s =
    Some (str "<path d=" ++ dq :: str "M1.23.68" ++ dq :: str "/>") /\
  Part0.ultraOptimizeSVG s = Some (str "<pathd='M1.23.6789'/>") /\
  twice Part0.ultraOptimizeSVG s = Some (str "<pathd='M1.23.68'/>").
Proof. repeat split; vm_compute; reflexivity. Qed.

(** Other texts that a second pass changes: a comment, an attribute or a
    space between tags that only the first pass brings about, and a number
    of 10^21 or more. *)
Example second_pass_examples :
  twice Ultra.optimizeSVG (str "<!<!---->--x-->") = Some [] /\
  Ultra.optimizeSVG (str "<!<!---->--x-->") = Some (str "<!--x-->") /\
  Ultra.optimizeSVG (str "<text> opacity=" ++ dq :: str "1" ++ dq
                         :: str " </text>") = Some (str "<text> </text>") /\
  twice Ultra.optimizeSVG (str "<text> opacity=" ++ dq :: str "1" ++ dq
                               :: str " </text>")
    = Some (str "<text></text>") /\
  reduce_precision (str "12345678901234567890123.000")
    = Some (str "1.2345678901234568e+22") /\
  twice reduce_precision (str "12345678901234567890123.000")
    = Some (str "1.23e+22").
Proof. repeat split; vm_compute; reflexivity. Qed.
